(** * NHS Professionals shift booker: a shallow embedding of nhs_shift_booker.py

    The script drives a browser through Selenium.  Everything it learns about
    the outside world comes back from a handful of calls (the driver, the
    elements it hands out, the clock), so the embedding threads an abstract
    [world] through the code and asks an oracle what each call answers.  The
    methods of [NHSShiftBooker] become state-passing functions over that
    world and the object's fields; each run also yields the list of calls,
    sleeps and log records it performed, in order.

    The file nhs_shift_booker.py does not parse as it stands (see module
    [PySyntax] below).  The behavioural model reads the four damaged places
    the way the surrounding code intends them: the XPath list of
    navigate_to_shifts has four items, and the Args/Returns lines of
    search_shifts, get_available_shifts and book_shift are documentation. *)

From stdpp Require Import base option list strings gmap.
From Equations Require Import Equations.
From Stdlib Require Import Arith Lia FunctionalExtensionality.


(** ** Values of the Python program *)

(** Handles for the objects Selenium returns. *)
Definition driver := nat.
Definition elem := nat.

(** Python's exception classes as far as the script tells them apart:
    [except Exception] catches the first, a bare [except:] catches both. *)
Inductive exn :=
| Exception (name : string)
| KeyboardInterrupt.

Inductive by_ := XPATH | TAG_NAME.

(** The expected conditions passed to [WebDriverWait.until]. *)
Inductive condition :=
| element_to_be_clickable (locator : by_ * string)
| presence_of_element_located (locator : by_ * string).

Inductive option_value :=
| OBool (b : bool)
| OList (l : list string).

Record ChromeOptions := {
  arguments : list string;
  experimental_options : list (string * option_value)
}.

(** What a shift dictionary may hold under a key. *)
Inductive pyval :=
| VInt (n : nat)
| VStr (s : string)
| VElem (e : elem).

(** The dictionaries appended to [booked_shifts]: a literal with three keys. *)
Record booking := {
  b_title : pyval;
  b_date : pyval;
  b_time : string
}.

Inductive level := DEBUG | INFO | WARNING | ERROR.

(** The values imported from the config module, which is not part of the
    repository's source: they are taken as given. *)
Record config := {
  NHS_EMAIL : string;
  NHS_PASSWORD : string;
  PREFERRED_LOCATION : string;
  PREFERRED_SHIFT_TYPES : list string;
  SHIFT_TIME_START : string;
  SHIFT_TIME_END : string;
  MAX_SHIFTS_TO_BOOK : nat;
  SEARCH_INTERVAL_MINUTES : nat;
  HEADLESS_MODE : bool;
  MAX_RETRY_ATTEMPTS : nat;
  RETRY_DELAY_SECONDS : nat;
  ELEMENT_WAIT_TIME : nat
}.

(** ** Calls into Selenium *)

(** One constructor per Selenium operation the script uses, indexed by the
    type of what it returns. *)
Inductive call : Type → Type :=
| ChromeDriverManager_install : call string
| webdriver_Chrome (service : string) (options : ChromeOptions) : call driver
| driver_get (d : driver) (url : string) : call unit
| driver_refresh (d : driver) : call unit
| driver_quit (d : driver) : call unit
| driver_find_elements (d : driver) (by' : by_) (value : string) : call (list elem)
| driver_find_element (d : driver) (by' : by_) (value : string) : call elem
| driver_execute_script (d : driver) (script : string) (args : list elem) : call unit
| switch_to_frame (d : driver) (frame : elem) : call unit
| switch_to_default_content (d : driver) : call unit
| wait_until (d : driver) (timeout : nat) (cond : condition) : call elem
| elem_find_element (e : elem) (by' : by_) (value : string) : call elem
| elem_click (e : elem) : call unit
| elem_clear (e : elem) : call unit
| elem_send_keys (e : elem) (keys : string) : call unit
| elem_text (e : elem) : call string.

Inductive reply (T : Type) :=
| Ok (v : T)
| Fail (e : exn).
Arguments Ok {T} v.
Arguments Fail {T} e.

(** What a run leaves behind, in order. *)
Inductive event :=
| ECall {T : Type} (c : call T) (r : reply T)
| ESleep (secs : nat) (interrupted : bool)
| ELog (lvl : level) (msg : string).

(** ** The object and the monad *)

Record NHSShiftBooker := {
  email : string;
  password : string;
  headless : bool;
  the_driver : option driver;
  the_wait : option (driver * nat);
  booked_shifts : list booking
}.

(** [NHSShiftBooker.__init__] *)
Definition init (email password : string) (headless : bool) : NHSShiftBooker :=
  {| email := email; password := password; headless := headless;
     the_driver := None; the_wait := None; booked_shifts := [] |}.

Inductive outcome (A : Type) :=
| Ret (a : A)
| Raise (e : exn)
| Running.
Arguments Ret {A} a.
Arguments Raise {A} e.
Arguments Running {A}.

Section Booker.

(** The world outside the script: the browser, the site, the clock and
    whoever may press Ctrl-C.  [selenium] answers a call, [time_sleep] says
    whether a sleep was cut short by a KeyboardInterrupt, [datetime_now]
    reads the clock as formatted text. *)
Context {world : Type}.
Variable selenium : ∀ T, call T → world → reply T * world.
Variable time_sleep : nat → world → bool * world.
Variable datetime_now : world → string * world.
Variable cfg : config.

Record state := State {
  self : NHSShiftBooker;
  env : world
}.

Record result (A : Type) := Result {
  outcome_of : outcome A;
  events : list event;
  final : state
}.
Arguments Result {A} _ _ _.
Arguments outcome_of {A} _.
Arguments events {A} _.
Arguments final {A} _.

Definition M (A : Type) : Type := state → result A.

Definition ret {A} (a : A) : M A := λ s, Result (Ret a) [] s.
Definition raise {A} (e : exn) : M A := λ s, Result (Raise e) [] s.
Definition running {A} : M A := λ s, Result Running [] s.

Definition bind {A B} (m : M A) (k : A → M B) : M B := λ s,
  let r := m s in
  match outcome_of r with
  | Ret a => let r' := k a (final r) in
             Result (outcome_of r') (events r ++ events r') (final r')
  | Raise e => Result (Raise e) (events r) (final r)
  | Running => Result Running (events r) (final r)
  end.

Local Notation "x ← m ; k" := (bind m (λ x, k))
  (at level 20, m at level 100, k at level 200, only parsing).
Local Notation "m ;; k" := (bind m (λ _, k))
  (at level 100, k at level 200, only parsing, right associativity).

(** [try: body / except: handler]: the bare form catches every exception. *)
Definition try_except {A} (body : M A) (handler : exn → M A) : M A := λ s,
  let r := body s in
  match outcome_of r with
  | Raise e => let r' := handler e (final r) in
               Result (outcome_of r') (events r ++ events r') (final r')
  | _ => r
  end.

(** [try: body / except Exception as e: handler]: a KeyboardInterrupt
    passes through. *)
Definition try_except_Exception {A} (body : M A) (handler : string → M A) : M A := λ s,
  let r := body s in
  match outcome_of r with
  | Raise (Exception name) =>
      let r' := handler name (final r) in
      Result (outcome_of r') (events r ++ events r') (final r')
  | _ => r
  end.

(** [try: ... finally: cleanup].  The cleanup runs once the protected part
    has returned or raised; an exception of the cleanup replaces the
    pending one. *)
Definition try_finally {A} (body : M A) (cleanup : M unit) : M A := λ s,
  let r := body s in
  match outcome_of r with
  | Running => r
  | o => let r' := cleanup (final r) in
         Result (match outcome_of r' with
                 | Ret _ => o
                 | Raise e => Raise e
                 | Running => Running
                 end) (events r ++ events r') (final r')
  end.

(** *** Primitive steps *)

Definition selenium_call {T} (c : call T) : M T := λ s,
  let '(r, w) := selenium T c (env s) in
  Result (match r with Ok v => Ret v | Fail e => Raise e end)
         [ECall c r] (State (self s) w).

Definition sleep (secs : nat) : M unit := λ s,
  let '(interrupted, w) := time_sleep secs (env s) in
  Result (if interrupted then Raise KeyboardInterrupt else Ret tt)
         [ESleep secs interrupted] (State (self s) w).

Definition now : M string := λ s,
  let '(t, w) := datetime_now (env s) in
  Result (Ret t) [] (State (self s) w).

(** A logger call: the record keeps the level and the text of the message
    without the interpolated values and the pictographs.  A reading of the
    clock that only feeds a message is left out with them; a call that can
    raise while the message is built ([success_msg.text]) is a step of its
    own before the record. *)
Definition log (lvl : level) (msg : string) : M unit := λ s,
  Result (Ret tt) [ELog lvl msg] s.

Definition get_self : M NHSShiftBooker := λ s, Result (Ret (self s)) [] s.
Definition set_self (b : NHSShiftBooker) : M unit := λ s,
  Result (Ret tt) [] (State b (env s)).

(** [self.driver.<method>]: an AttributeError while the field is None. *)
Definition self_driver : M driver :=
  b ← get_self;
  match the_driver b with
  | Some d => ret d
  | None => raise (Exception "AttributeError")
  end.

(** [self.wait.until(cond)] *)
Definition self_wait_until (cond : condition) : M elem :=
  b ← get_self;
  match the_wait b with
  | Some (d, timeout) => selenium_call (wait_until d timeout cond)
  | None => raise (Exception "AttributeError")
  end.

Definition on_driver {T} (method : driver → call T) : M T :=
  d ← self_driver; selenium_call (method d).

(** ** The methods of NHSShiftBooker *)

Definition chrome_options (headless : bool) : ChromeOptions :=
  {| arguments :=
       (if headless then ["--headless"] else []) ++
       ["--no-sandbox"; "--disable-dev-shm-usage";
        "--disable-blink-features=AutomationControlled"; "--start-maximized";
        "user-agent=Mozilla/5.0 (Windows NT 10.0; Win64; x64) AppleWebKit/537.36"];
     experimental_options :=
       [("excludeSwitches", OList ["enable-automation"]);
        ("useAutomationExtension", OBool false)] |}.

Definition setup_driver : M unit :=
  try_except_Exception
    (b ← get_self;
     service ← selenium_call ChromeDriverManager_install;
     d ← selenium_call (webdriver_Chrome service (chrome_options (headless b)));
     b ← get_self;
     set_self {| email := email b; password := password b; headless := headless b;
                 the_driver := Some d; the_wait := the_wait b;
                 booked_shifts := booked_shifts b |};;
     b ← get_self;
     set_self {| email := email b; password := password b; headless := headless b;
                 the_driver := the_driver b;
                 the_wait := Some (d, ELEMENT_WAIT_TIME cfg);
                 booked_shifts := booked_shifts b |};;
     log INFO "WebDriver initialized successfully")
    (λ e, log ERROR "Failed to initialize WebDriver";; raise (Exception e)).

Definition login_button_xpath : string :=
  "//a[contains(text(), 'Log in')] | //button[contains(text(), 'Log in')]".
Definition email_field_xpath : string :=
  "//input[@id='username'] | //input[@name='email'] | //input[@type='email']".
Definition password_field_xpath : string :=
  "//input[@id='password'] | //input[@name='password'] | //input[@type='password']".
Definition submit_button_xpath : string :=
  "//button[@id='kc-login'] | //button[contains(@type, 'submit')] | //input[@value='Log in']".

(** The part of [login] after the email field has been filled in. *)
Definition login_finish : M unit :=
  try_except_Exception
    (password_field ← self_wait_until
       (presence_of_element_located (XPATH, password_field_xpath));
     selenium_call (elem_clear password_field);;
     b ← get_self;
     selenium_call (elem_send_keys password_field (password b));;
     log INFO "Password entered";;
     sleep 1)
    (λ e, log ERROR "Failed to find password field";; raise (Exception e));;
  try_except_Exception
    (submit_button ← self_wait_until
       (element_to_be_clickable (XPATH, submit_button_xpath));
     selenium_call (elem_click submit_button);;
     log INFO "Login submitted";;
     sleep 5)
    (λ e, log ERROR "Failed to find submit button";; raise (Exception e));;
  try_except (on_driver switch_to_default_content) (λ _, ret tt);;
  sleep 3;;
  log INFO "Login successful".

(** The part of [login] before the email field is looked up. *)
Definition login_start : M unit :=
  log INFO "Starting login process...";;
  on_driver (λ d, driver_get d "https://www.nhsprofessionals.nhs.uk/");;
  sleep 3;;
  try_except
    (login_button ← self_wait_until
       (element_to_be_clickable (XPATH, login_button_xpath));
     selenium_call (elem_click login_button);;
     log INFO "Clicked login button";;
     sleep 2)
    (λ _, log WARNING "Login button not found, might already be on login page");;
  try_except_Exception
    (iframes ← on_driver (λ d, driver_find_elements d TAG_NAME "iframe");
     match iframes with
     | frame :: _ =>
         on_driver (λ d, switch_to_frame d frame);;
         log INFO "Switched to login iframe";;
         sleep 1
     | [] => ret tt
     end)
    (λ e, log DEBUG "No iframe found").

Definition enter_email : M unit :=
  email_field ← self_wait_until
    (presence_of_element_located (XPATH, email_field_xpath));
  selenium_call (elem_clear email_field);;
  b ← get_self;
  selenium_call (elem_send_keys email_field (email b));;
  log INFO "Email entered";;
  sleep 1.

(** [login(retry_count)].  The handler of the email step either returns the
    result of the recursive call or re-raises; [Some] marks that return, and
    [None] that the body goes on to the password step. *)
Equations? login (retry_count : nat) : M unit
  by wf (MAX_RETRY_ATTEMPTS cfg - retry_count) lt :=
login retry_count :=
  try_except_Exception
    (login_start;;
     returned ← try_except_Exception
       (enter_email;; ret None)
       (λ e,
          log ERROR "Failed to find email field";;
          match lt_dec retry_count (MAX_RETRY_ATTEMPTS cfg) with
          | left _ =>
              log INFO "Retrying login... Attempt";;
              sleep (RETRY_DELAY_SECONDS cfg);;
              on_driver driver_refresh;;
              v ← login (retry_count + 1);
              ret (Some v)
          | right _ => raise (Exception e)
          end);
     match returned with
     | Some v => ret v
     | None => login_finish
     end)
    (λ e, log ERROR "Login failed";; raise (Exception e)).
Proof. lia. Qed.

(** The four candidates of navigate_to_shifts, each the text between the
    quotes of its line; the bracket left over on the line after the list is
    not part of it. *)
Definition xpath_options : list string :=
  ["//a[contains(text(), 'Find work')]";
   "//a[contains(text(), 'Shifts')]";
   "//a[contains(text(), 'Available shifts')]";
   "//nav//a[contains(text(), 'Work')"].

(** The [for xpath in xpath_options] loop; the result is the flag [found]. *)
Fixpoint click_first_link (xpaths : list string) : M bool :=
  match xpaths with
  | [] => ret false
  | xpath :: rest =>
      found ← try_except
        (shifts_link ← self_wait_until (element_to_be_clickable (XPATH, xpath));
         selenium_call (elem_click shifts_link);;
         log INFO "Found and clicked shifts link";;
         ret true)
        (λ _, ret false);
      if found then ret true else click_first_link rest
  end.

Definition search_shifts_url : string :=
  "https://www.nhsprofessionals.nhs.uk/search-shifts".

Definition navigate_to_shifts : M unit :=
  try_except_Exception
    (log INFO "Navigating to available shifts...";;
     found ← click_first_link xpath_options;
     (if found then ret tt
      else log WARNING "Could not find shifts link, trying direct URL";;
           on_driver (λ d, driver_get d search_shifts_url));;
     sleep 3;;
     log INFO "Navigated to shifts section")
    (λ e, log ERROR "Navigation to shifts failed";; raise (Exception e)).

Definition location_field_xpath : string :=
  "//input[contains(@placeholder, 'location')] | //input[contains(@placeholder, 'Location')] | //input[@name='location']".
Definition type_field_xpath : string :=
  "//input[contains(@placeholder, 'type')] | //select[@name='shiftType']".
Definition search_button_xpath : string :=
  "//button[contains(text(), 'Search')] | //button[contains(text(), 'search')] | //button[@type='submit']".

(** [if text:] for an argument that is a string or None. *)
Definition truthy (text : option string) : option string :=
  match text with
  | Some t => if String.eqb t "" then None else Some t
  | None => None
  end.

Definition fill_field (xpath : string) (text : string) (done failed : string) : M unit :=
  try_except_Exception
    (field ← self_wait_until (presence_of_element_located (XPATH, xpath));
     selenium_call (elem_clear field);;
     selenium_call (elem_send_keys field text);;
     sleep 1;;
     log INFO done)
    (λ e, log WARNING failed).

Definition search_shifts (location shift_type : option string) : M unit :=
  try_except_Exception
    (log INFO "Searching for shifts";;
     match truthy location with
     | Some l => fill_field location_field_xpath l
                   "Entered location" "Could not enter location"
     | None => ret tt
     end;;
     match truthy shift_type with
     | Some t => fill_field type_field_xpath t
                   "Entered shift type" "Could not enter shift type"
     | None => ret tt
     end;;
     try_except_Exception
       (search_button ← self_wait_until
          (element_to_be_clickable (XPATH, search_button_xpath));
        selenium_call (elem_click search_button);;
        log INFO "Search submitted";;
        sleep 4)
       (λ e, log WARNING "Could not find search button");;
     log INFO "Shift search completed")
    (λ e, log ERROR "Shift search failed").

Definition selectors : list string :=
  ["//div[contains(@class, 'shift-item')] | //div[contains(@class, 'shift-card')]";
   "//tr[contains(@class, 'shift')]";
   "//li[contains(@class, 'shift')]"].

(** The [for selector in selectors] loop; [shift_elements] is the variable
    of that name, assigned by every lookup that returns. *)
Fixpoint find_shift_elements (selectors : list string) (shift_elements : list elem)
  : M (list elem) :=
  match selectors with
  | [] => ret shift_elements
  | selector :: rest =>
      found ← try_except
        (els ← on_driver (λ d, driver_find_elements d XPATH selector);
         ret (Some els))
        (λ _, ret None);
      match found with
      | Some [] => find_shift_elements rest []
      | Some els => ret els
      | None => find_shift_elements rest shift_elements
      end
  end.

Definition title_xpath : string :=
  ".//*[contains(@class, 'title')] | ./h3 | .//*[contains(@class, 'job-title')] ".
Definition location_xpath : string :=
  ".//*[contains(@class, 'location')] | .//*[contains(text(), 'worcester')] ".
Definition date_xpath : string :=
  ".//*[contains(@class, 'date')] | .//*[contains(@class, 'shift-date')] ".
Definition time_xpath : string :=
  ".//*[contains(@class, 'time')] | .//*[contains(@class, 'shift-time')] ".
Definition pay_xpath : string :=
  ".//*[contains(@class, 'pay')] | .//*[contains(text(), '£')] ".

(** One of the five guarded lookups of a display field: the text of the
    element found under [xpath], or the sentinel. *)
Definition read_field (shift : elem) (xpath key : string)
    (shift_info : gmap string pyval) : M (gmap string pyval) :=
  try_except
    (found ← selenium_call (elem_find_element shift XPATH xpath);
     text ← selenium_call (elem_text found);
     ret (<[key := VStr text]> shift_info))
    (λ _, ret (<[key := VStr "Unknown"]> shift_info)).

Definition shift_record (idx : nat) (shift : elem) : M (gmap string pyval) :=
  shift_info ← ret (<["element" := VElem shift]> (<["index" := VInt idx]> ∅));
  shift_info ← read_field shift title_xpath "title" shift_info;
  shift_info ← read_field shift location_xpath "location" shift_info;
  shift_info ← read_field shift date_xpath "date" shift_info;
  shift_info ← read_field shift time_xpath "time" shift_info;
  shift_info ← read_field shift pay_xpath "pay" shift_info;
  ret shift_info.

(** The [for idx, shift in enumerate(shift_elements)] loop over a record
    builder [build]; [shifts] is the list collected so far. *)
Fixpoint scan_shifts (build : nat → elem → M (gmap string pyval))
    (idx : nat) (shift_elements : list elem) (shifts : list (gmap string pyval))
  : M (list (gmap string pyval)) :=
  match shift_elements with
  | [] => ret shifts
  | shift :: rest =>
      shifts ← try_except_Exception
        (shift_info ← build idx shift;
         log DEBUG "Shift";;
         ret (shifts ++ [shift_info]))
        (λ e, log DEBUG "Could not parse shift";; ret shifts);
      scan_shifts build (S idx) rest shifts
  end.

(** The body of the outer [try] of get_available_shifts. *)
Definition scan_page : M (list (gmap string pyval)) :=
  shift_elements ← find_shift_elements selectors [];
  log INFO "Found shift elements";;
  shifts ← scan_shifts shift_record 0 shift_elements [];
  log INFO "Found available shifts";;
  ret shifts.

(** The outer [try ... except Exception] of get_available_shifts around a
    scan. *)
Definition guarded_scan (scan : M (list (gmap string pyval)))
  : M (list (gmap string pyval)) :=
  try_except_Exception scan
    (λ e, log ERROR "Failed to get available shifts";; ret []).

Definition get_available_shifts : M (list (gmap string pyval)) :=
  guarded_scan scan_page.

(** [d.get(key, default)] *)
Definition dict_get (d : gmap string pyval) (key : string) (dflt : pyval) : pyval :=
  default dflt (d !! key).

Definition book_button_xpath : string :=
  ".//button[contains(text(), 'Book')] | .//a[contains(text(), 'Apply')] | .//button[contains(text(), 'Apply')] | .//button[contains(@class, 'book')]".
Definition confirm_button_xpath : string :=
  "//button[contains(text(), 'Confirm')] | //button[contains(text(), 'Yes')] | //button[@class='btn-primary']".
Definition success_indicators : list string :=
  ["//*[contains(text(), 'successfully')]";
   "//*[contains(text(), 'booked')]";
   "//*[contains(text(), 'confirmed')]";
   "//*[contains(text(), 'Application successful')]"].

(** [shift_details['element'].find_element(...)] and the click: a KeyError
    without the key, an AttributeError when the value is no element. *)
Definition click_book_button (shift_details : gmap string pyval) : M unit :=
  match shift_details !! "element" with
  | Some (VElem e) =>
      book_button ← selenium_call (elem_find_element e XPATH book_button_xpath);
      selenium_call (elem_click book_button);;
      log INFO "Clicked book/apply button";;
      sleep 2
  | Some _ => raise (Exception "AttributeError")
  | None => raise (Exception "KeyError")
  end.

Definition confirm_dialog : M unit :=
  try_except
    (confirm_button ← self_wait_until
       (element_to_be_clickable (XPATH, confirm_button_xpath));
     selenium_call (elem_click confirm_button);;
     log INFO "Confirmed booking";;
     sleep 2)
    (λ _, log DEBUG "No confirmation dialog found").

(** [self.booked_shifts.append({...})] *)
Definition append_booking (shift_title shift_date : pyval) : M unit :=
  t ← now;
  b ← get_self;
  set_self {| email := email b; password := password b; headless := headless b;
              the_driver := the_driver b; the_wait := the_wait b;
              booked_shifts := booked_shifts b ++
                [{| b_title := shift_title; b_date := shift_date; b_time := t |}] |}.

(** The [for indicator in success_indicators] loop; true stands for the
    [return True] inside it. *)
Fixpoint find_success_message (indicators : list string)
    (shift_title shift_date : pyval) : M bool :=
  match indicators with
  | [] => ret false
  | indicator :: rest =>
      returned ← try_except
        (success_msg ← on_driver (λ d, driver_find_element d XPATH indicator);
         selenium_call (elem_text success_msg);;
         log INFO "Shift booked successfully";;
         append_booking shift_title shift_date;;
         ret true)
        (λ _, ret false);
      if returned then ret true
      else find_success_message rest shift_title shift_date
  end.

Definition check_success (shift_title shift_date : pyval) : M bool :=
  try_except_Exception
    (returned ← find_success_message success_indicators shift_title shift_date;
     if returned then ret true
     else log INFO "Shift booking processed for";;
          append_booking shift_title shift_date;;
          ret true)
    (λ e, log WARNING "Could not verify booking status";; ret false).

(** [book_shift(shift_details, retry_count)].  As in [login], [Some] marks
    a return from inside the handler of the button step. *)
Equations? book_shift (shift_details : gmap string pyval) (retry_count : nat) : M bool
  by wf (MAX_RETRY_ATTEMPTS cfg - retry_count) lt :=
book_shift shift_details retry_count :=
  try_except_Exception
    (log INFO "Attempting to book shift";;
     on_driver (λ d, driver_execute_script d "arguments[0].scrollIntoView(true);" []);;
     sleep 1;;
     returned ← try_except_Exception
       (click_book_button shift_details;; ret None)
       (λ e,
          log WARNING "Could not find book button";;
          match lt_dec retry_count (MAX_RETRY_ATTEMPTS cfg) with
          | left _ =>
              log INFO "Retrying...";;
              sleep (RETRY_DELAY_SECONDS cfg);;
              v ← book_shift shift_details (retry_count + 1);
              ret (Some v)
          | right _ => ret (Some false)
          end);
     match returned with
     | Some v => ret v
     | None =>
         confirm_dialog;;
         check_success (dict_get shift_details "title" (VStr "Unknown"))
                       (dict_get shift_details "date" (VStr "Unknown"))
     end)
    (λ e,
       log ERROR "Failed to book shift";;
       match lt_dec retry_count (MAX_RETRY_ATTEMPTS cfg) with
       | left _ =>
           log INFO "Retrying... Attempt";;
           sleep (RETRY_DELAY_SECONDS cfg);;
           book_shift shift_details (retry_count + 1)
       | right _ => ret false
       end).
Proof. all: lia. Qed.

(** [close()] *)
Definition close : M unit :=
  b ← get_self;
  match the_driver b with
  | Some d => selenium_call (driver_quit d);; log INFO "WebDriver closed"
  | None => ret tt
  end.

Fixpoint for_each {A} (l : list A) (body : A → M unit) : M unit :=
  match l with
  | [] => ret tt
  | x :: rest => body x;; for_each rest body
  end.

(** The loops that print one line per entry of [booked_shifts]. *)
Definition log_bookings : M unit :=
  b ← get_self;
  for_each (booked_shifts b) (λ booking, log INFO "booked: title on date").

(** The [for shift in shifts] loop of a search cycle. *)
Definition book_all (shifts : list (gmap string pyval)) : M unit :=
  for_each shifts (λ shift,
    log INFO "Processing";;
    log INFO "Date";;
    log INFO "Time";;
    log INFO "Location";;
    booked ← book_shift shift 0;
    (if booked then log INFO "Successfully booked!"
     else log WARNING "Booking failed, will retry next cycle");;
    sleep 2).

(** The protected part of one pass through the [while True] loop. *)
Definition search_and_book : M unit :=
  navigate_to_shifts;;
  search_shifts (Some (PREFERRED_LOCATION cfg)) (head (PREFERRED_SHIFT_TYPES cfg));;
  shifts ← get_available_shifts;
  match shifts with
  | [] => log INFO "No available shifts found. Waiting for next search..."
  | _ => log INFO "Booked shifts so far";; book_all shifts
  end;;
  log INFO "BOOKING STATISTICS:";;
  log INFO "Total shifts booked";;
  log_bookings.

(** One pass through the loop, from the banner to the sleep that ends it. *)
Definition search_cycle : M unit :=
  log INFO "============";;
  log INFO "SEARCH CYCLE #";;
  log INFO "============";;
  try_except_Exception search_and_book
    (λ e, log ERROR "Error during search cycle";;
          log INFO "Continuing to next cycle...");;
  log INFO "Waiting before next search...";;
  log INFO "Next search at";;
  sleep (SEARCH_INTERVAL_MINUTES cfg * 60).

(** [while True]: [fuel] bounds how many passes are observed; a run that is
    still looping when the fuel is used up ends as [Running]. *)
Fixpoint search_loop (fuel : nat) : M unit :=
  match fuel with
  | 0 => running
  | S fuel' => search_cycle;; search_loop fuel'
  end.

Definition startup_banner : M unit :=
  log INFO "============";;
  log INFO "STARTING CONTINUOUS SHIFT BOOKING";;
  log INFO "Location";;
  log INFO "Shift Type";;
  log INFO "Time";;
  log INFO "Search Interval";;
  log INFO "============".

(** The [try] block of run_continuous_booking. *)
Definition booking_session (fuel : nat) : M unit :=
  setup_driver;;
  login 0;;
  startup_banner;;
  search_loop fuel.

(** [run_continuous_booking()]: the same [fuel] also bounds the restarts. *)
Fixpoint run_continuous_booking (fuel : nat) : M unit :=
  match fuel with
  | 0 => running
  | S fuel' =>
      try_finally
        (try_except (booking_session fuel')
           (λ e,
              match e with
              | KeyboardInterrupt =>
                  log INFO "Stopping shift booker (Ctrl+C pressed)";;
                  log INFO "Final Statistics";;
                  log_bookings
              | Exception _ =>
                  log ERROR "Fatal error";;
                  log ERROR "Attempting to restart...";;
                  sleep 10;;
                  run_continuous_booking fuel'
              end))
        close
  end.

(** [main()] *)
Definition main (fuel : nat) : M unit :=
  log INFO "Starting NHS Professionals Shift Booker...";;
  log INFO "Configuration loaded for";;
  set_self (init (NHS_EMAIL cfg) (NHS_PASSWORD cfg) (HEADLESS_MODE cfg));;
  run_continuous_booking fuel.

(** ** Reading a run *)

Definition booked (s : state) : list booking := booked_shifts (self s).

(** The events at which a KeyboardInterrupt was delivered. *)
Definition is_interrupt (ev : event) : bool :=
  match ev with
  | ECall _ (Fail KeyboardInterrupt) => true
  | ESleep _ true => true
  | _ => false
  end.

Definition interrupted (t : list event) : Prop := existsb is_interrupt t = true.

Definition count_events (p : event → bool) (t : list event) : nat :=
  length (filter (λ ev, p ev = true) t).

(** *** Bookkeeping of a step

    [accounts appends m]: [m] comes to an end; when it returns [a] with
    [appends a] it has appended exactly one record to [booked_shifts], in
    every other case the list is as before; and a KeyboardInterrupt it
    raises was delivered during the run. *)
Definition accounts {A} (appends : A → bool) (m : M A) : Prop :=
  ∀ s,
    match outcome_of (m s) with
    | Ret a =>
        if appends a then ∃ b, booked (final (m s)) = booked s ++ [b]
        else booked (final (m s)) = booked s
    | Raise e =>
        booked (final (m s)) = booked s ∧
        (e = KeyboardInterrupt → interrupted (events (m s)))
    | Running => False
    end.

Local Abbreviation tidy := (accounts (λ _, false)).

(** [never_fails m]: no exception of class Exception leaves [m]. *)
Definition never_fails {A} (m : M A) : Prop :=
  ∀ s name, outcome_of (m s) ≠ Raise (Exception name).

(** [returns m]: [m] always returns normally. *)
Definition returns {A} (m : M A) : Prop :=
  ∀ s, ∃ a, outcome_of (m s) = Ret a.

(** [excess p q c m]: a run of [m] has at most [c] more [p]-events than
    [q]-events. *)
Definition excess {A} (p q : event → bool) (c : nat) (m : M A) : Prop :=
  ∀ s, count_events p (events (m s)) ≤ c + count_events q (events (m s)).

(** ** How the judgements compose *)

Lemma interrupted_app_l (t t' : list event) : interrupted t → interrupted (t ++ t').
Proof. unfold interrupted. rewrite existsb_app. intros ->. reflexivity. Qed.

Lemma interrupted_app_r (t t' : list event) : interrupted t' → interrupted (t ++ t').
Proof. unfold interrupted. rewrite existsb_app. intros ->. apply orb_true_r. Qed.

Lemma count_events_app (p : event → bool) (t t' : list event) :
  count_events p (t ++ t') = count_events p t + count_events p t'.
Proof. unfold count_events. rewrite filter_app, length_app. reflexivity. Qed.

Lemma count_events_cons (p : event → bool) (ev : event) (t : list event) :
  count_events p (ev :: t) = (if p ev then 1 else 0) + count_events p t.
Proof.
  unfold count_events. rewrite filter_cons.
  destruct (p ev); case_decide; simpl; congruence.
Qed.

Lemma count_events_nil (p : event → bool) : count_events p [] = 0.
Proof. reflexivity. Qed.

Lemma count_events_never (t : list event) : count_events (λ _, false) t = 0.
Proof.
  induction t as [|ev t IH]; [reflexivity|].
  rewrite count_events_cons. exact IH.
Qed.

Section Accounts.
Context {A B : Type}.
Implicit Types (m : M A) (k : A → M B).

Lemma accounts_ret (f : A → bool) (a : A) : f a = false → accounts f (ret a).
Proof. intros Hf s. simpl. rewrite Hf. reflexivity. Qed.

Lemma tidy_ret (a : A) : tidy (ret a).
Proof. apply accounts_ret. reflexivity. Qed.

Lemma accounts_raise (f : A → bool) (name : string) :
  accounts f (raise (Exception name)).
Proof. intros s. simpl. split; [reflexivity | discriminate]. Qed.

(** The general rule for sequencing: after a step that has appended, the
    rest may only hand a value on. *)
Lemma accounts_bind_gen (g : A → bool) (f : B → bool) m k :
  accounts g m →
  (∀ a, if g a then ∃ b, k a = ret b ∧ f b = true else accounts f (k a)) →
  accounts f (bind m k).
Proof.
  intros Hm Hk s. specialize (Hm s). unfold bind.
  destruct (m s) as [[a|e|] t s1]; simpl in *; [|exact Hm..].
  specialize (Hk a). destruct (g a).
  - destruct Hk as (b & -> & Hb). simpl. rewrite Hb. exact Hm.
  - specialize (Hk s1). destruct (k a s1) as [[b|e|] t' s2]; simpl in *.
    + rewrite <- Hm. exact Hk.
    + destruct Hk as [Hb Hi]. split; [congruence|].
      intros He. apply interrupted_app_r. auto.
    + exact Hk.
Qed.

Lemma accounts_bind (f : B → bool) m k :
  tidy m → (∀ a, accounts f (k a)) → accounts f (bind m k).
Proof. intros Hm Hk. apply (accounts_bind_gen (λ _, false)); assumption. Qed.

End Accounts.

Section AccountsTry.
Context {A : Type}.
Implicit Types (body : M A) (f : A → bool).

Lemma accounts_try_except f body (handler : exn → M A) :
  accounts f body → (∀ e, accounts f (handler e)) →
  accounts f (try_except body handler).
Proof.
  intros Hb Hh s. specialize (Hb s). unfold try_except.
  destruct (body s) as [[a|e|] t s1]; simpl in *; [exact Hb| |exact Hb].
  destruct Hb as [Hb _]. specialize (Hh e s1).
  destruct (handler e s1) as [[a|e'|] t' s2]; simpl in *.
  - rewrite <- Hb. exact Hh.
  - destruct Hh as [Hh Hi]. split; [congruence|].
    intros He. apply interrupted_app_r. auto.
  - exact Hh.
Qed.

Lemma accounts_try_except_Exception f body (handler : string → M A) :
  accounts f body → (∀ e, accounts f (handler e)) →
  accounts f (try_except_Exception body handler).
Proof.
  intros Hb Hh s. specialize (Hb s). unfold try_except_Exception.
  destruct (body s) as [[a|[name|]|] t s1]; simpl in *; [exact Hb| |exact Hb..].
  destruct Hb as [Hb _]. specialize (Hh name s1).
  destruct (handler name s1) as [[a|e'|] t' s2]; simpl in *.
  - rewrite <- Hb. exact Hh.
  - destruct Hh as [Hh Hi]. split; [congruence|].
    intros He. apply interrupted_app_r. auto.
  - exact Hh.
Qed.

End AccountsTry.

Lemma tidy_selenium_call {T} (c : call T) : tidy (selenium_call c).
Proof.
  intros s. unfold selenium_call.
  destruct (selenium T c (env s)) as [[v|[name|]] w]; simpl;
    [reflexivity | split; [reflexivity | discriminate] | split; reflexivity].
Qed.

Lemma tidy_sleep (secs : nat) : tidy (sleep secs).
Proof.
  intros s. unfold sleep.
  destruct (time_sleep secs (env s)) as [[|] w]; simpl;
    [split; reflexivity | reflexivity].
Qed.

Lemma tidy_now : tidy now.
Proof. intros s. unfold now. destruct (datetime_now (env s)). reflexivity. Qed.

Lemma tidy_log (lvl : level) (msg : string) : tidy (log lvl msg).
Proof. intros s. reflexivity. Qed.

Lemma tidy_get_self : tidy get_self.
Proof. intros s. reflexivity. Qed.

(** An assignment to a field other than [booked_shifts]. *)
Lemma tidy_set_field (update : NHSShiftBooker → NHSShiftBooker) :
  (∀ b, booked_shifts (update b) = booked_shifts b) →
  tidy (b ← get_self; set_self (update b)).
Proof. intros Hu s. simpl. apply Hu. Qed.

Lemma tidy_self_driver : tidy self_driver.
Proof.
  apply accounts_bind; [apply tidy_get_self|]. intros b.
  destruct (the_driver b); [apply tidy_ret | apply accounts_raise].
Qed.

Lemma tidy_self_wait_until (cond : condition) : tidy (self_wait_until cond).
Proof.
  apply accounts_bind; [apply tidy_get_self|]. intros b.
  destruct (the_wait b) as [[d timeout]|];
    [apply tidy_selenium_call | apply accounts_raise].
Qed.

Lemma tidy_on_driver {T} (method : driver → call T) : tidy (on_driver method).
Proof.
  apply accounts_bind; [apply tidy_self_driver|]. intros d.
  apply tidy_selenium_call.
Qed.

(** Breaks a goal [accounts f m] down along the structure of [m]. *)
Ltac accounts_step :=
  first
    [ assumption
    | apply tidy_log | apply tidy_sleep | apply tidy_now | apply tidy_get_self
    | apply tidy_selenium_call | apply tidy_on_driver | apply tidy_self_driver
    | apply tidy_self_wait_until | apply accounts_raise
    | apply tidy_ret | apply accounts_ret; reflexivity
    | apply tidy_set_field; intros; reflexivity
    | apply accounts_try_except | apply accounts_try_except_Exception
    | apply accounts_bind ].

Ltac accounts_go :=
  repeat first
    [ progress intros
    | accounts_step
    | match goal with
      | |- accounts _ (match ?x with _ => _ end) => destruct x
      | H : ∀ x, accounts _ _ |- _ => apply H
      | H : ∀ x y, accounts _ _ |- _ => apply H
      | H : ∀ x y z, accounts _ _ |- _ => apply H
      | H : ∀ x y z u, accounts _ _ |- _ => apply H
      end ].

Lemma tidy_setup_driver : tidy setup_driver.
Proof. unfold setup_driver. accounts_go. Qed.

Lemma tidy_login_start : tidy login_start.
Proof. unfold login_start. accounts_go. Qed.

Lemma tidy_enter_email : tidy enter_email.
Proof. unfold enter_email. accounts_go. Qed.

Lemma tidy_login_finish : tidy login_finish.
Proof. unfold login_finish. accounts_go. Qed.

Lemma tidy_login (retry_count : nat) : tidy (login retry_count).
Proof.
  remember (MAX_RETRY_ATTEMPTS cfg - retry_count) as budget eqn:Hb.
  revert retry_count Hb.
  induction budget as [budget IH] using lt_wf_ind. intros retry_count ->.
  rewrite login_equation_1.
  pose proof tidy_login_start. pose proof tidy_enter_email.
  pose proof tidy_login_finish.
  accounts_go.
  eapply IH; [|reflexivity]. lia.
Qed.

Lemma tidy_click_first_link (xpaths : list string) : tidy (click_first_link xpaths).
Proof. induction xpaths as [|xpath rest IH]; simpl; accounts_go. Qed.

Lemma tidy_navigate_to_shifts : tidy navigate_to_shifts.
Proof.
  unfold navigate_to_shifts. pose proof tidy_click_first_link. accounts_go.
Qed.

Lemma tidy_fill_field (xpath text done' failed : string) :
  tidy (fill_field xpath text done' failed).
Proof. unfold fill_field. accounts_go. Qed.

Lemma tidy_search_shifts (location shift_type : option string) :
  tidy (search_shifts location shift_type).
Proof.
  unfold search_shifts. pose proof tidy_fill_field. accounts_go.
Qed.

Lemma tidy_find_shift_elements (sels : list string) (shift_elements : list elem) :
  tidy (find_shift_elements sels shift_elements).
Proof.
  revert shift_elements.
  induction sels as [|selector rest IH]; intros shift_elements; simpl; accounts_go.
Qed.

Lemma tidy_read_field (shift : elem) (xpath key : string) (info : gmap string pyval) :
  tidy (read_field shift xpath key info).
Proof. unfold read_field. accounts_go. Qed.

Lemma tidy_shift_record (idx : nat) (shift : elem) : tidy (shift_record idx shift).
Proof. unfold shift_record. pose proof tidy_read_field. accounts_go. Qed.

Lemma tidy_scan_shifts build (idx : nat) (shift_elements : list elem)
    (shifts : list (gmap string pyval)) :
  (∀ i e, tidy (build i e)) → tidy (scan_shifts build idx shift_elements shifts).
Proof.
  intros Hbuild. revert idx shifts.
  induction shift_elements as [|shift rest IH]; intros idx shifts; simpl; accounts_go.
Qed.

Lemma tidy_get_available_shifts : tidy get_available_shifts.
Proof.
  unfold get_available_shifts, guarded_scan, scan_page.
  pose proof tidy_find_shift_elements.
  pose proof (λ i l s, tidy_scan_shifts shift_record i l s tidy_shift_record).
  accounts_go.
Qed.

Lemma tidy_close : tidy close.
Proof. unfold close. accounts_go. Qed.

Lemma tidy_for_each {X} (l : list X) (body : X → M unit) :
  (∀ x, tidy (body x)) → tidy (for_each l body).
Proof. intros Hbody. induction l as [|x rest IH]; simpl; accounts_go. Qed.

Lemma tidy_log_bookings : tidy log_bookings.
Proof.
  unfold log_bookings. accounts_go. apply tidy_for_each. accounts_go.
Qed.

Lemma tidy_startup_banner : tidy startup_banner.
Proof. unfold startup_banner. accounts_go. Qed.

(** *** Steps that cannot fail *)

Section NeverFails.
Context {A B : Type}.

Lemma never_fails_ret (a : A) : never_fails (ret a).
Proof. intros s name. discriminate. Qed.

Lemma never_fails_bind (m : M A) (k : A → M B) :
  never_fails m → (∀ a, never_fails (k a)) → never_fails (bind m k).
Proof.
  intros Hm Hk s name. specialize (Hm s). unfold bind.
  destruct (m s) as [[a|e|] t s1]; simpl in *;
    [apply Hk | intros [= ->]; eapply Hm; reflexivity | discriminate].
Qed.

Lemma never_fails_try_except (body : M A) (handler : exn → M A) :
  (∀ e, never_fails (handler e)) → never_fails (try_except body handler).
Proof.
  intros Hh s name. unfold try_except.
  destruct (body s) as [[a|e|] t s1]; simpl; [discriminate|apply Hh|discriminate].
Qed.

Lemma never_fails_try_except_Exception (body : M A) (handler : string → M A) :
  (∀ e, never_fails (handler e)) → never_fails (try_except_Exception body handler).
Proof.
  intros Hh s name. unfold try_except_Exception.
  destruct (body s) as [[a|[e|]|] t s1]; simpl;
    [discriminate|apply Hh|discriminate..].
Qed.

End NeverFails.

Lemma never_fails_log (lvl : level) (msg : string) : never_fails (log lvl msg).
Proof. intros s name. discriminate. Qed.

Lemma never_fails_sleep (secs : nat) : never_fails (sleep secs).
Proof.
  intros s name. unfold sleep.
  destruct (time_sleep secs (env s)) as [[|] w]; discriminate.
Qed.

Lemma never_fails_for_each {X} (l : list X) (body : X → M unit) :
  (∀ x, never_fails (body x)) → never_fails (for_each l body).
Proof.
  intros Hbody. induction l as [|x rest IH]; simpl;
    [apply never_fails_ret | apply never_fails_bind; auto].
Qed.

Create HintDb never_fails.
#[local] Hint Resolve never_fails_ret never_fails_bind never_fails_try_except
  never_fails_try_except_Exception never_fails_log never_fails_sleep
  never_fails_for_each : never_fails.

Lemma never_fails_search_shifts (location shift_type : option string) :
  never_fails (search_shifts location shift_type).
Proof. unfold search_shifts. auto with never_fails. Qed.

Lemma never_fails_get_available_shifts : never_fails get_available_shifts.
Proof. unfold get_available_shifts, guarded_scan. auto with never_fails. Qed.

Lemma never_fails_book_shift (shift_details : gmap string pyval) (retry_count : nat) :
  never_fails (book_shift shift_details retry_count).
Proof.
  remember (MAX_RETRY_ATTEMPTS cfg - retry_count) as budget eqn:Hb.
  revert retry_count Hb.
  induction budget as [budget IH] using lt_wf_ind. intros retry_count ->.
  rewrite book_shift_equation_1.
  apply never_fails_try_except_Exception. intros e.
  apply never_fails_bind; [apply never_fails_log|]. intros _.
  destruct (lt_dec retry_count (MAX_RETRY_ATTEMPTS cfg)); [|apply never_fails_ret].
  do 2 (apply never_fails_bind; [auto with never_fails|]; intros _).
  eapply IH; [|reflexivity]. lia.
Qed.

(** *** What a booking attempt does to [booked_shifts] *)

Lemma accounts_append_booking (shift_title shift_date : pyval) :
  accounts (λ _, true) (append_booking shift_title shift_date).
Proof.
  intros s. unfold append_booking, bind, now.
  destruct (datetime_now (env s)) as [t w]. simpl. eauto.
Qed.

Lemma accounts_find_success_message (indicators : list string)
    (shift_title shift_date : pyval) :
  accounts id (find_success_message indicators shift_title shift_date).
Proof.
  induction indicators as [|indicator rest IH]; simpl.
  { apply accounts_ret. reflexivity. }
  apply (accounts_bind_gen id).
  - apply accounts_try_except; [|intros; apply accounts_ret; reflexivity].
    do 3 (apply accounts_bind; [accounts_go|]; intros).
    apply (accounts_bind_gen (λ _, true)); [apply accounts_append_booking|].
    intros _. eauto.
  - intros [|]; simpl; eauto.
Qed.

Lemma accounts_check_success (shift_title shift_date : pyval) :
  accounts id (check_success shift_title shift_date).
Proof.
  unfold check_success. apply accounts_try_except_Exception.
  - apply (accounts_bind_gen id); [apply accounts_find_success_message|].
    intros [|]; simpl; [eauto|].
    apply accounts_bind; [accounts_go|]. intros _.
    apply (accounts_bind_gen (λ _, true)); [apply accounts_append_booking|].
    intros _. eauto.
  - intros e. apply accounts_bind; [accounts_go|]. intros _.
    apply accounts_ret. reflexivity.
Qed.

Lemma tidy_click_book_button (shift_details : gmap string pyval) :
  tidy (click_book_button shift_details).
Proof. unfold click_book_button. accounts_go. Qed.

Lemma tidy_confirm_dialog : tidy confirm_dialog.
Proof. unfold confirm_dialog. accounts_go. Qed.

(** Whether the value handed out of the button step stands for
    [return True]. *)
Definition returned_true (returned : option bool) : bool :=
  match returned with
  | Some true => true
  | _ => false
  end.

Lemma accounts_book_shift (shift_details : gmap string pyval) (retry_count : nat) :
  accounts id (book_shift shift_details retry_count).
Proof.
  remember (MAX_RETRY_ATTEMPTS cfg - retry_count) as budget eqn:Hb.
  revert retry_count Hb.
  induction budget as [budget IH] using lt_wf_ind. intros retry_count ->.
  assert (Hrec : retry_count < MAX_RETRY_ATTEMPTS cfg →
                 accounts id (book_shift shift_details (retry_count + 1))).
  { intros Hlt. eapply IH; [|reflexivity]. lia. }
  clear IH. rewrite book_shift_equation_1.
  apply accounts_try_except_Exception.
  - do 3 (apply accounts_bind; [accounts_go|]; intros _).
    apply (accounts_bind_gen returned_true).
    + apply accounts_try_except_Exception.
      * apply accounts_bind; [apply tidy_click_book_button|]. intros _.
        apply accounts_ret. reflexivity.
      * intros e. apply accounts_bind; [accounts_go|]. intros _.
        destruct (lt_dec retry_count (MAX_RETRY_ATTEMPTS cfg)) as [Hlt|];
          [|apply accounts_ret; reflexivity].
        do 2 (apply accounts_bind; [accounts_go|]; intros _).
        apply (accounts_bind_gen id); [exact (Hrec Hlt)|].
        intros [|]; simpl; [eauto|]. apply accounts_ret. reflexivity.
    + intros [[|]|]; simpl; [eauto | apply accounts_ret; reflexivity |].
      apply accounts_bind; [apply tidy_confirm_dialog|]. intros _.
      apply accounts_check_success.
  - intros e. apply accounts_bind; [accounts_go|]. intros _.
    destruct (lt_dec retry_count (MAX_RETRY_ATTEMPTS cfg)) as [Hlt|];
      [|apply accounts_ret; reflexivity].
    do 2 (apply accounts_bind; [accounts_go|]; intros _).
    exact (Hrec Hlt).
Qed.

(** *** Runs that only ever append

    [grows m]: the list [booked_shifts] before a run of [m] is a prefix of
    the list after it, and a KeyboardInterrupt [m] raises was delivered
    during the run. *)
Definition grows {A} (m : M A) : Prop :=
  ∀ s,
    booked s `prefix_of` booked (final (m s)) ∧
    (outcome_of (m s) = Raise KeyboardInterrupt → interrupted (events (m s))).

Lemma accounts_grows {A} (f : A → bool) (m : M A) : accounts f m → grows m.
Proof.
  intros Hm s. specialize (Hm s).
  destruct (outcome_of (m s)) as [a|e|]; [|destruct Hm as [-> Hi]|destruct Hm].
  - split; [|discriminate]. destruct (f a); [|rewrite Hm; reflexivity].
    destruct Hm as [b ->]. apply prefix_app_r. reflexivity.
  - split; [reflexivity|]. intros [= ->]. auto.
Qed.

Lemma grows_running {A} : grows (@running A).
Proof. intros s. split; [reflexivity | discriminate]. Qed.

Section Grows.
Context {A B : Type}.

Lemma grows_bind (m : M A) (k : A → M B) :
  grows m → (∀ a, grows (k a)) → grows (bind m k).
Proof.
  intros Hm Hk s. destruct (Hm s) as [Hp Hi]. unfold bind.
  destruct (m s) as [[a|e|] t s1]; simpl in *; 
    [|split; [assumption | intros He; first [discriminate | injection He as ->; auto]]..].
  destruct (Hk a s1) as [Hp' Hi']. split; [etrans; eassumption|].
  intros He. apply interrupted_app_r. auto.
Qed.

Lemma grows_try_except (body : M A) (handler : exn → M A) :
  grows body → (∀ e, grows (handler e)) → grows (try_except body handler).
Proof.
  intros Hb Hh s. destruct (Hb s) as [Hp Hi]. unfold try_except.
  destruct (body s) as [[a|e|] t s1]; simpl in *;
    [exact (conj Hp Hi)| |exact (conj Hp Hi)].
  destruct (Hh e s1) as [Hp' Hi']. split; [etrans; eassumption|].
  intros He. apply interrupted_app_r. auto.
Qed.

Lemma grows_try_except_Exception (body : M A) (handler : string → M A) :
  grows body → (∀ e, grows (handler e)) → grows (try_except_Exception body handler).
Proof.
  intros Hb Hh s. destruct (Hb s) as [Hp Hi]. unfold try_except_Exception.
  destruct (body s) as [[a|[name|]|] t s1]; simpl in *;
    [exact (conj Hp Hi)| |exact (conj Hp Hi)..].
  destruct (Hh name s1) as [Hp' Hi']. split; [etrans; eassumption|].
  intros He. apply interrupted_app_r. auto.
Qed.

End Grows.

Lemma grows_for_each {X} (l : list X) (body : X → M unit) :
  (∀ x, grows (body x)) → grows (for_each l body).
Proof.
  intros Hbody. induction l as [|x rest IH]; simpl.
  - apply (accounts_grows (λ _, false)), tidy_ret.
  - apply grows_bind; auto.
Qed.

Lemma grows_book_all (shifts : list (gmap string pyval)) : grows (book_all shifts).
Proof.
  apply grows_for_each. intros shift.
  do 4 (apply grows_bind; [apply (accounts_grows (λ _, false)), tidy_log|]; intros _).
  apply grows_bind; [apply (accounts_grows id), accounts_book_shift|]. intros booked'.
  apply (accounts_grows (λ _, false)). destruct booked'; accounts_go.
Qed.

Lemma grows_search_and_book : grows search_and_book.
Proof.
  unfold search_and_book.
  apply grows_bind; [apply (accounts_grows _ _ tidy_navigate_to_shifts)|]. intros _.
  apply grows_bind; [apply (accounts_grows _ _ (tidy_search_shifts _ _))|]. intros _.
  apply grows_bind; [apply (accounts_grows _ _ tidy_get_available_shifts)|].
  intros shifts.
  apply grows_bind.
  - destruct shifts; [apply (accounts_grows (λ _, false)), tidy_log|].
    apply grows_bind; [apply (accounts_grows (λ _, false)), tidy_log|]. intros _.
    apply grows_book_all.
  - intros _. apply (accounts_grows (λ _, false)).
    pose proof tidy_log_bookings. accounts_go.
Qed.

Lemma grows_search_cycle : grows search_cycle.
Proof.
  unfold search_cycle.
  do 3 (apply grows_bind; [apply (accounts_grows (λ _, false)), tidy_log|]; intros _).
  apply grows_bind.
  - apply grows_try_except_Exception; [apply grows_search_and_book|].
    intros e. apply (accounts_grows (λ _, false)). accounts_go.
  - intros _. apply (accounts_grows (λ _, false)). accounts_go.
Qed.

Lemma grows_search_loop (fuel : nat) : grows (search_loop fuel).
Proof.
  induction fuel as [|fuel IH]; simpl; [apply grows_running|].
  apply grows_bind; [apply grows_search_cycle | auto].
Qed.

Lemma grows_booking_session (fuel : nat) : grows (booking_session fuel).
Proof.
  unfold booking_session.
  apply grows_bind; [apply (accounts_grows _ _ tidy_setup_driver)|]. intros _.
  apply grows_bind; [apply (accounts_grows _ _ (tidy_login 0))|]. intros _.
  apply grows_bind; [apply (accounts_grows _ _ tidy_startup_banner)|]. intros _.
  apply grows_search_loop.
Qed.

(** The two handlers of run_continuous_booking, given what the restart does. *)
Lemma grows_run_handlers (restart : M unit) (e : exn) :
  grows restart →
  grows (match e with
         | KeyboardInterrupt =>
             log INFO "Stopping shift booker (Ctrl+C pressed)";;
             log INFO "Final Statistics";;
             log_bookings
         | Exception _ =>
             log ERROR "Fatal error";;
             log ERROR "Attempting to restart...";;
             sleep 10;;
             restart
         end).
Proof.
  intros Hr. destruct e as [name|].
  - apply grows_bind; [apply (accounts_grows (λ _, false)), tidy_log|]. intros _.
    apply grows_bind; [apply (accounts_grows (λ _, false)), tidy_log|]. intros _.
    apply grows_bind; [apply (accounts_grows (λ _, false)), tidy_sleep|]. intros _.
    exact Hr.
  - apply (accounts_grows (λ _, false)). pose proof tidy_log_bookings. accounts_go.
Qed.

Lemma grows_try_finally {A} (body : M A) (cleanup : M unit) :
  grows body → grows cleanup → grows (try_finally body cleanup).
Proof.
  intros Hb Hc s. destruct (Hb s) as [Hp Hi]. unfold try_finally.
  destruct (body s) as [o t s1]; simpl in *.
  destruct (Hc s1) as [Hp' Hi'].
  destruct (cleanup s1) as [o' t' s2]; simpl in *.
  destruct o as [a|e|]; simpl; [| |exact (conj Hp Hi)];
    (split; [etrans; eassumption|]);
    destruct o' as [[]|e'|]; intros He; try discriminate;
    first [ apply interrupted_app_r, Hi'; congruence
          | apply interrupted_app_l, Hi; congruence ].
Qed.

Lemma grows_run_continuous_booking (fuel : nat) : grows (run_continuous_booking fuel).
Proof.
  induction fuel as [|fuel IH]; simpl; [apply grows_running|].
  apply grows_try_finally; [|apply (accounts_grows _ _ tidy_close)].
  apply grows_try_except; [apply grows_booking_session|].
  intros e. apply grows_run_handlers, IH.
Qed.

(** *** The shape of the loop *)





Lemma interrupted_sleep (secs : nat) : interrupted [ESleep secs true].
Proof. reflexivity. Qed.







(** [halts m]: a run of [m] comes to an end. *)
Definition halts {A} (m : M A) : Prop := ∀ s, outcome_of (m s) ≠ Running.

Lemma accounts_halts {A} (f : A → bool) (m : M A) : accounts f m → halts m.
Proof. intros Hm s Hr. specialize (Hm s). rewrite Hr in Hm. exact Hm. Qed.

Section Halts.
Context {A B : Type}.

Lemma halts_bind (m : M A) (k : A → M B) :
  halts m → (∀ a, halts (k a)) → halts (bind m k).
Proof.
  intros Hm Hk s. specialize (Hm s). unfold bind.
  destruct (m s) as [[a|e|] t s1]; simpl in *;
    [apply Hk | discriminate | congruence].
Qed.


End Halts.








(** *** Counting events *)

Definition is_log (msg : string) (ev : event) : bool :=
  match ev with
  | ELog _ m => String.eqb m msg
  | _ => false
  end.

(** A [driver.refresh()] that went through. *)
Definition is_refresh (ev : event) : bool :=
  match ev with
  | ECall c (Ok _) =>
      match c with
      | driver_refresh _ => true
      | _ => false
      end
  | _ => false
  end.

(** A sleep of [secs] seconds that ran to its end. *)
Definition is_sleep (secs : nat) (ev : event) : bool :=
  match ev with
  | ESleep n false => n =? secs
  | _ => false
  end.

Definition never (ev : event) : bool := false.

Section Excess.
Context (p q : event → bool).
Context {A B : Type}.

Lemma excess_weaken (c c' : nat) (m : M A) : excess p q c m → c ≤ c' → excess p q c' m.
Proof. intros Hm Hc s. specialize (Hm s). lia. Qed.

Lemma excess_ret (a : A) : excess p q 0 (ret a).
Proof. intros s. simpl. rewrite !count_events_nil. lia. Qed.

Lemma excess_raise (e : exn) : excess p q 0 (@raise A e).
Proof. intros s. simpl. rewrite !count_events_nil. lia. Qed.

Lemma excess_bind (c c' : nat) (m : M A) (k : A → M B) :
  excess p q c m → (∀ a, excess p q c' (k a)) → excess p q (c + c') (bind m k).
Proof.
  intros Hm Hk s. specialize (Hm s). unfold bind.
  destruct (m s) as [[a|e|] t s1]; simpl in *; [|lia..].
  specialize (Hk a s1). rewrite !count_events_app. lia.
Qed.

Lemma excess_try_except (c c' : nat) (body : M A) (handler : exn → M A) :
  excess p q c body → (∀ e, excess p q c' (handler e)) →
  excess p q (c + c') (try_except body handler).
Proof.
  intros Hb Hh s. specialize (Hb s). unfold try_except.
  destruct (body s) as [[a|e|] t s1]; simpl in *; [lia| |lia].
  specialize (Hh e s1). rewrite !count_events_app. lia.
Qed.

Lemma excess_try_except_Exception (c c' : nat) (body : M A) (handler : string → M A) :
  excess p q c body → (∀ e, excess p q c' (handler e)) →
  excess p q (c + c') (try_except_Exception body handler).
Proof.
  intros Hb Hh s. specialize (Hb s). unfold try_except_Exception.
  destruct (body s) as [[a|[name|]|] t s1]; simpl in *; [lia| |lia..].
  specialize (Hh name s1). rewrite !count_events_app. lia.
Qed.

(** A step whose single event counts for [q], when it goes through, pays
    for one [p]-event of what follows. *)
Lemma excess_selenium_call_then (c : nat) {T} (cl : call T) (k : T → M B) :
  (∀ r, p (ECall cl r) = false) → (∀ v, q (ECall cl (Ok v)) = true) →
  (∀ v, excess p q (S c) (k v)) →
  excess p q c (bind (selenium_call cl) k).
Proof.
  intros Hp Hq Hk s. unfold bind, selenium_call.
  destruct (selenium T cl (env s)) as [[v|e] w]; simpl.
  - specialize (Hk v (State (self s) w)).
    rewrite !count_events_cons, Hp, Hq. lia.
  - rewrite !count_events_cons, Hp, !count_events_nil. lia.
Qed.

Lemma excess_on_driver_then (c : nat) {T} (method : driver → call T) (k : T → M B) :
  (∀ d r, p (ECall (method d) r) = false) →
  (∀ d v, q (ECall (method d) (Ok v)) = true) →
  (∀ v, excess p q (S c) (k v)) →
  excess p q c (bind (on_driver method) k).
Proof.
  intros Hp Hq Hk s. unfold on_driver, self_driver, get_self, bind. simpl.
  destruct (the_driver (self s)) as [d|]; simpl;
    [|rewrite !count_events_nil; lia].
  unfold selenium_call.
  destruct (selenium T (method d) (env s)) as [[v|e] w]; simpl.
  - specialize (Hk v (State (self s) w)).
    rewrite !count_events_cons, Hp, Hq. lia.
  - rewrite !count_events_cons, Hp, !count_events_nil. lia.
Qed.

Lemma excess_sleep_then (c secs : nat) (k : M B) :
  p (ESleep secs false) = false → p (ESleep secs true) = false →
  q (ESleep secs false) = true →
  excess p q (S c) k → excess p q c (sleep secs;; k).
Proof.
  intros Hp Hp' Hq Hk s. unfold bind, sleep.
  destruct (time_sleep secs (env s)) as [[|] w]; simpl.
  - rewrite !count_events_cons, Hp', !count_events_nil. lia.
  - specialize (Hk (State (self s) w)).
    rewrite !count_events_cons, Hp, Hq. lia.
Qed.

End Excess.

Section ExcessPrimitives.
Context (p q : event → bool).

Lemma excess_log (lvl : level) (msg : string) :
  p (ELog lvl msg) = false → excess p q 0 (log lvl msg).
Proof.
  intros Hp s. simpl. rewrite !count_events_cons, Hp, !count_events_nil. lia.
Qed.

Lemma excess_log_1 (lvl : level) (msg : string) : excess p q 1 (log lvl msg).
Proof.
  intros s. simpl. rewrite !count_events_cons, !count_events_nil.
  destruct (p _), (q _); lia.
Qed.

Lemma excess_sleep (secs : nat) :
  (∀ i, p (ESleep secs i) = false) → excess p q 0 (sleep secs).
Proof.
  intros Hp s. unfold sleep.
  destruct (time_sleep secs (env s)) as [i w]; simpl.
  rewrite !count_events_cons, Hp, !count_events_nil. lia.
Qed.

Lemma excess_selenium_call {T} (c : call T) :
  (∀ r, p (ECall c r) = false) → excess p q 0 (selenium_call c).
Proof.
  intros Hp s. unfold selenium_call.
  destruct (selenium T c (env s)) as [r w]; simpl.
  rewrite !count_events_cons, Hp, !count_events_nil. lia.
Qed.

Lemma excess_now : excess p q 0 now.
Proof.
  intros s. unfold now. destruct (datetime_now (env s)). simpl.
  rewrite !count_events_nil. lia.
Qed.

Lemma excess_get_self : excess p q 0 get_self.
Proof. intros s. simpl. rewrite !count_events_nil. lia. Qed.

Lemma excess_set_self (b : NHSShiftBooker) : excess p q 0 (set_self b).
Proof. intros s. simpl. rewrite !count_events_nil. lia. Qed.

Lemma excess_self_driver : excess p q 0 self_driver.
Proof.
  apply (excess_bind p q 0 0); [apply excess_get_self|]. intros b.
  destruct (the_driver b); [apply excess_ret | apply excess_raise].
Qed.

Lemma excess_self_wait_until (cond : condition) :
  (∀ d timeout r, p (ECall (wait_until d timeout cond) r) = false) →
  excess p q 0 (self_wait_until cond).
Proof.
  intros Hp. apply (excess_bind p q 0 0); [apply excess_get_self|]. intros b.
  destruct (the_wait b) as [[d timeout]|];
    [apply excess_selenium_call, Hp | apply excess_raise].
Qed.

Lemma excess_on_driver {T} (method : driver → call T) :
  (∀ d r, p (ECall (method d) r) = false) → excess p q 0 (on_driver method).
Proof.
  intros Hp. apply (excess_bind p q 0 0); [apply excess_self_driver|]. intros d.
  apply excess_selenium_call, Hp.
Qed.

End ExcessPrimitives.

(** Proves [excess p q 0 m] for a step [m] none of whose events counts
    for [p]. *)
Ltac excess_zero :=
  repeat first
    [ progress intros
    | assumption
    | apply excess_ret | apply excess_raise
    | apply excess_log; reflexivity
    | apply excess_sleep; intros []; reflexivity
    | apply excess_now | apply excess_get_self | apply excess_set_self
    | apply excess_self_driver
    | apply excess_selenium_call; intros [? | ?]; reflexivity
    | apply excess_on_driver; intros ? [? | ?]; reflexivity
    | apply excess_self_wait_until; intros ? ? [? | ?]; reflexivity
    | apply (excess_bind _ _ 0 0)
    | apply (excess_try_except _ _ 0 0)
    | apply (excess_try_except_Exception _ _ 0 0)
    | match goal with
      | |- excess _ _ _ (match ?x with _ => _ end) => destruct x
      end ].

(** *** What a step can return

    [yields P m]: every value [m] returns satisfies [P]. *)
Definition yields {A} (P : A → Prop) (m : M A) : Prop :=
  ∀ s a, outcome_of (m s) = Ret a → P a.

Section Yields.
Context {A B : Type}.

Lemma yields_weaken (P Q : A → Prop) (m : M A) :
  yields P m → (∀ a, P a → Q a) → yields Q m.
Proof. intros Hm HPQ s a Ho. eauto. Qed.

Lemma yields_ret (P : A → Prop) (a : A) : P a → yields P (ret a).
Proof. intros Ha s a' [= <-]. exact Ha. Qed.

Lemma yields_raise (P : A → Prop) (e : exn) : yields P (raise e).
Proof. intros s a. discriminate. Qed.

Lemma yields_bind (P : A → Prop) (Q : B → Prop) (m : M A) (k : A → M B) :
  yields P m → (∀ a, P a → yields Q (k a)) → yields Q (bind m k).
Proof.
  intros Hm Hk s b. specialize (Hm s). unfold bind.
  destruct (m s) as [[a|e|] t s1]; simpl in *; [|discriminate..].
  intros Ho. eapply Hk; [apply Hm; reflexivity | exact Ho].
Qed.

Lemma yields_then (Q : B → Prop) (m : M A) (k : A → M B) :
  (∀ a, yields Q (k a)) → yields Q (bind m k).
Proof.
  intros Hk. apply (yields_bind (λ _, True)); [intros ? ? ?; exact I | auto].
Qed.

Lemma yields_try_except (P : A → Prop) (body : M A) (handler : exn → M A) :
  yields P body → (∀ e, yields P (handler e)) → yields P (try_except body handler).
Proof.
  intros Hb Hh s a. specialize (Hb s). unfold try_except.
  destruct (body s) as [[a'|e|] t s1]; simpl in *;
    [apply Hb | apply Hh | discriminate].
Qed.

Lemma yields_try_except_Exception (P : A → Prop) (body : M A)
    (handler : string → M A) :
  yields P body → (∀ e, yields P (handler e)) →
  yields P (try_except_Exception body handler).
Proof.
  intros Hb Hh s a. specialize (Hb s). unfold try_except_Exception.
  destruct (body s) as [[a'|[name|]|] t s1]; simpl in *;
    [apply Hb | apply Hh | discriminate..].
Qed.

End Yields.

(** A call the site never answers. *)
Definition always_fails {T} (c : call T) : Prop :=
  ∀ w, ∃ e, (selenium T c w).1 = Fail e.

Lemma yields_failing_call {T} (P : T → Prop) (c : call T) :
  always_fails c → yields P (selenium_call c).
Proof.
  intros Hc s a. unfold selenium_call. destruct (Hc (env s)) as [e He].
  destruct (selenium T c (env s)) as [r w]. simpl in He. subst r. discriminate.
Qed.

(** *** The retries of login *)

Definition email_field_missing : Prop :=
  ∀ d timeout,
    always_fails (wait_until d timeout
                    (presence_of_element_located (XPATH, email_field_xpath))).

Lemma enter_email_no_return :
  email_field_missing → yields (λ _, False) enter_email.
Proof.
  intros Hm. unfold enter_email.
  apply (yields_bind (λ _, False)); [|intros ? []].
  unfold self_wait_until. apply yields_then. intros b.
  destruct (the_wait b) as [[d timeout]|];
    [apply yields_failing_call, Hm | apply yields_raise].
Qed.

Lemma login_no_return (retry_count : nat) :
  email_field_missing → yields (λ _, False) (login retry_count).
Proof.
  intros Hm.
  remember (MAX_RETRY_ATTEMPTS cfg - retry_count) as budget eqn:Hb.
  revert retry_count Hb.
  induction budget as [budget IH] using lt_wf_ind. intros retry_count ->.
  rewrite login_equation_1.
  apply yields_try_except_Exception;
    [|intros e; apply yields_then; intros _; apply yields_raise].
  apply yields_then. intros _.
  apply (yields_bind (λ _, False)); [|intros ? []].
  apply yields_try_except_Exception.
  - apply (yields_bind (λ _, False)); [|intros ? []].
    apply enter_email_no_return, Hm.
  - intros e. apply yields_then. intros _.
    destruct (lt_dec retry_count (MAX_RETRY_ATTEMPTS cfg)); [|apply yields_raise].
    do 3 (apply yields_then; intros _).
    apply (yields_bind (λ _, False)); [|intros ? []].
    eapply IH; [|reflexivity]. lia.
Qed.

(** The record that opens an attempt to log in. *)
Definition is_login_attempt : event → bool := is_log "Starting login process...".

Lemma excess_login_start (q : event → bool) : excess is_login_attempt q 1 login_start.
Proof.
  unfold login_start.
  apply (excess_bind _ _ 1 0); [apply excess_log_1|]. excess_zero.
Qed.

Lemma excess_enter_email (q : event → bool) : excess is_login_attempt q 0 enter_email.
Proof. unfold enter_email. excess_zero. Qed.

Lemma excess_login_finish (q : event → bool) : excess is_login_attempt q 0 login_finish.
Proof. unfold login_finish. excess_zero. Qed.

(** The frame of [login] around what its retry branch costs: if the branch
    taken while [retry_count < MAX_RETRY_ATTEMPTS] has at most [c] attempts
    in excess, the whole call has at most [S c]. *)
Lemma excess_login_frame (q : event → bool) (c : nat) (retry_count : nat) :
  (retry_count < MAX_RETRY_ATTEMPTS cfg →
   excess is_login_attempt q c
     (log INFO "Retrying login... Attempt";;
      sleep (RETRY_DELAY_SECONDS cfg);;
      on_driver driver_refresh;;
      v ← (λ s, login (retry_count + 1) s);
      ret (Some v))) →
  excess is_login_attempt q (S c) (login retry_count).
Proof.
  intros Hretry. rewrite login_equation_1.
  pose proof (excess_enter_email q). pose proof (excess_login_finish q).
  apply (excess_weaken _ _ (1 + (0 + c + 0) + 0)); [|lia].
  apply excess_try_except_Exception; [|excess_zero].
  apply excess_bind; [apply excess_login_start|]. intros _.
  apply excess_bind; [|excess_zero].
  apply excess_try_except_Exception; [excess_zero|]. intros e.
  apply (excess_bind _ _ 0 c); [excess_zero|]. intros _.
  destruct (lt_dec retry_count (MAX_RETRY_ATTEMPTS cfg)) as [Hlt|].
  - exact (Hretry Hlt).
  - apply (excess_weaken _ _ 0); [apply excess_raise | lia].
Qed.

(** At most MAX_RETRY_ATTEMPTS retries. *)
Lemma login_attempts_bounded (retry_count : nat) :
  excess is_login_attempt never
    (S (MAX_RETRY_ATTEMPTS cfg - retry_count)) (login retry_count).
Proof.
  remember (MAX_RETRY_ATTEMPTS cfg - retry_count) as budget eqn:Hb.
  revert retry_count Hb.
  induction budget as [budget IH] using lt_wf_ind. intros retry_count ->.
  apply excess_login_frame. intros Hlt.
  apply (excess_weaken _ _ (0 + (0 + (0 + (S (MAX_RETRY_ATTEMPTS cfg - (retry_count + 1)) + 0)))));
    [|lia].
  apply excess_bind; [excess_zero|]. intros _.
  apply excess_bind; [excess_zero|]. intros _.
  apply excess_bind; [excess_zero|]. intros _.
  apply excess_bind; [|excess_zero].
  eapply IH; [|reflexivity]. lia.
Qed.

(** Every attempt after the first comes after a refresh that went through. *)
Lemma login_attempts_refreshed (retry_count : nat) :
  excess is_login_attempt is_refresh 1 (login retry_count).
Proof.
  remember (MAX_RETRY_ATTEMPTS cfg - retry_count) as budget eqn:Hb.
  revert retry_count Hb.
  induction budget as [budget IH] using lt_wf_ind. intros retry_count ->.
  apply excess_login_frame. intros Hlt.
  apply (excess_bind _ _ 0 0); [excess_zero|]. intros _.
  apply (excess_bind _ _ 0 0); [excess_zero|]. intros _.
  apply excess_on_driver_then; try (intros ? []; reflexivity).
  intros _. apply (excess_weaken _ _ (1 + 0)); [|lia].
  apply excess_bind; [|excess_zero].
  eapply IH; [|reflexivity]. lia.
Qed.

(** Every attempt after the first comes after a full sleep of
    RETRY_DELAY_SECONDS. *)
Lemma login_attempts_delayed (retry_count : nat) :
  excess is_login_attempt (is_sleep (RETRY_DELAY_SECONDS cfg)) 1 (login retry_count).
Proof.
  remember (MAX_RETRY_ATTEMPTS cfg - retry_count) as budget eqn:Hb.
  revert retry_count Hb.
  induction budget as [budget IH] using lt_wf_ind. intros retry_count ->.
  apply excess_login_frame. intros Hlt.
  apply (excess_bind _ _ 0 0); [excess_zero|]. intros _.
  apply excess_sleep_then; try reflexivity.
  { simpl. apply Nat.eqb_refl. }
  apply (excess_weaken _ _ (0 + (1 + 0))); [|lia].
  apply excess_bind; [excess_zero|]. intros _.
  apply excess_bind; [|excess_zero].
  eapply IH; [|reflexivity]. lia.
Qed.

(** *** The retries of book_shift *)

(** [postc p m Q]: [Q] relates how a run of [m] ends to the number of
    [p]-events it leaves. *)
Definition postc {A} (p : event → bool) (m : M A) (Q : outcome A → nat → Prop) : Prop :=
  ∀ s, Q (outcome_of (m s)) (count_events p (events (m s))).

Section Postc.
Context (p : event → bool).
Context {A B : Type}.

Lemma postc_of_excess (c : nat) (m : M A) :
  excess p never c m → postc p m (λ _ n, n ≤ c).
Proof.
  intros Hm s. specialize (Hm s). rewrite count_events_never in Hm. lia.
Qed.

Lemma postc_ret (a : A) (Q : outcome A → nat → Prop) : Q (Ret a) 0 → postc p (ret a) Q.
Proof. intros HQ s. exact HQ. Qed.

Lemma postc_bind (m : M A) (k : A → M B) (Qm : outcome A → nat → Prop)
    (Qk : A → outcome B → nat → Prop) (Q : outcome B → nat → Prop) :
  postc p m Qm → (∀ a, postc p (k a) (Qk a)) →
  (∀ a c o' c', Qm (Ret a) c → Qk a o' c' → Q o' (c + c')) →
  (∀ e c, Qm (Raise e) c → Q (Raise e) c) →
  (∀ c, Qm Running c → Q Running c) →
  postc p (bind m k) Q.
Proof.
  intros Hm Hk Hret Hraise Hrun s. specialize (Hm s). unfold bind.
  destruct (m s) as [[a|e|] t s1]; simpl in *; [|auto..].
  rewrite count_events_app. eapply Hret; [exact Hm | apply Hk].
Qed.

(** A step without [p]-events in front of [k]. *)
Lemma postc_quiet_then (m : M A) (k : A → M B) (Q : outcome B → nat → Prop) :
  excess p never 0 m → (∀ a, postc p (k a) Q) →
  (∀ e, Q (Raise e) 0) → Q Running 0 →
  postc p (bind m k) Q.
Proof.
  intros Hm Hk Hraise Hrun.
  apply (postc_bind m k (λ _ n, n ≤ 0) (λ _, Q));
    [apply postc_of_excess, Hm | exact Hk | ..].
  - intros a c o' c' Hc HQ. replace (c + c') with c' by lia. exact HQ.
  - intros e c Hc. replace c with 0 by lia. apply Hraise.
  - intros c Hc. replace c with 0 by lia. exact Hrun.
Qed.

End Postc.

Section PostcTry.
Context (p : event → bool).
Context {A : Type}.

Lemma postc_try_except_Exception (body : M A) (handler : string → M A)
    (Qb : outcome A → nat → Prop) (Qh : outcome A → nat → Prop)
    (Q : outcome A → nat → Prop) :
  postc p body Qb → (∀ e, postc p (handler e) Qh) →
  (∀ name c o' c', Qb (Raise (Exception name)) c → Qh o' c' → Q o' (c + c')) →
  (∀ o c, (∀ name, o ≠ Raise (Exception name)) → Qb o c → Q o c) →
  postc p (try_except_Exception body handler) Q.
Proof.
  intros Hb Hh Hcaught Hpass s. specialize (Hb s). unfold try_except_Exception.
  destruct (body s) as [[a|[name|]|] t s1]; simpl in *;
    [apply Hpass; [discriminate | exact Hb]
    | rewrite count_events_app; eapply Hcaught; [exact Hb | apply Hh]
    | apply Hpass; [discriminate | exact Hb]..].
Qed.

Lemma postc_log_then (lvl : level) (msg : string) (k : M A)
    (Q : outcome A → nat → Prop) :
  p (ELog lvl msg) = false → postc p k Q → postc p (log lvl msg;; k) Q.
Proof.
  intros Hp Hk s. unfold bind. simpl.
  rewrite count_events_cons, Hp. apply Hk.
Qed.

Lemma postc_sleep_then (secs : nat) (k : M A) (Q : outcome A → nat → Prop) :
  (∀ i, p (ESleep secs i) = false) →
  postc p k Q → Q (Raise KeyboardInterrupt) 0 → postc p (sleep secs;; k) Q.
Proof.
  intros Hp Hk Hi s. unfold bind, sleep.
  destruct (time_sleep secs (env s)) as [[|] w]; simpl;
    rewrite count_events_cons, Hp; [exact Hi | apply Hk].
Qed.

End PostcTry.

(** The record that opens an attempt to book. *)
Definition is_booking_attempt : event → bool := is_log "Attempting to book shift".

Lemma quiet_click_book_button (shift_details : gmap string pyval) :
  excess is_booking_attempt never 0 (click_book_button shift_details).
Proof. unfold click_book_button. excess_zero. Qed.

Lemma quiet_confirm_dialog : excess is_booking_attempt never 0 confirm_dialog.
Proof. unfold confirm_dialog. excess_zero. Qed.

Lemma quiet_append_booking (shift_title shift_date : pyval) :
  excess is_booking_attempt never 0 (append_booking shift_title shift_date).
Proof. unfold append_booking. excess_zero. Qed.

Lemma quiet_find_success_message (indicators : list string)
    (shift_title shift_date : pyval) :
  excess is_booking_attempt never 0
    (find_success_message indicators shift_title shift_date).
Proof.
  pose proof quiet_append_booking.
  induction indicators as [|indicator rest IH]; simpl; excess_zero.
Qed.

Lemma quiet_check_success (shift_title shift_date : pyval) :
  excess is_booking_attempt never 0 (check_success shift_title shift_date).
Proof.
  unfold check_success.
  pose proof quiet_append_booking. pose proof quiet_find_success_message.
  excess_zero.
Qed.

(** At most MAX_RETRY_ATTEMPTS retries: a call that starts at
    [retry_count] makes at most [MAX_RETRY_ATTEMPTS - retry_count] further
    attempts. *)
Lemma book_shift_attempts_bounded (shift_details : gmap string pyval)
    (retry_count : nat) :
  postc is_booking_attempt (book_shift shift_details retry_count)
    (λ _ n, n ≤ S (MAX_RETRY_ATTEMPTS cfg - retry_count)).
Proof.
  remember (MAX_RETRY_ATTEMPTS cfg - retry_count) as N eqn:HN.
  revert retry_count HN.
  induction N as [N IH] using lt_wf_ind. intros retry_count ->.
  set (N := MAX_RETRY_ATTEMPTS cfg - retry_count).
  assert (Hrec : retry_count < MAX_RETRY_ATTEMPTS cfg →
    postc is_booking_attempt (λ s, book_shift shift_details (retry_count + 1) s)
      (λ o n, n ≤ N ∧ ∀ name, o ≠ Raise (Exception name))).
  { intros Hlt s. split; [|apply never_fails_book_shift].
    assert (Hm : MAX_RETRY_ATTEMPTS cfg - (retry_count + 1) < N) by (subst N; lia).
    specialize (IH _ Hm (retry_count + 1) eq_refl s). simpl in IH. subst N. lia. }
  clearbody N. clear IH. rewrite book_shift_equation_1.
  apply (postc_try_except_Exception _ _ _
           (λ o n, match o with Raise (Exception _) => n ≤ 1 | _ => n ≤ S N end)
           (λ _ n, n ≤ N)).
  - (* the protected part *)
    intros s. unfold bind at 1. simpl. rewrite count_events_cons. simpl.
    revert s.
    change (postc is_booking_attempt
      (on_driver (λ d, driver_execute_script d "arguments[0].scrollIntoView(true);" []);;
       sleep 1;;
       returned ← try_except_Exception
         (click_book_button shift_details;; ret None)
         (λ e,
            log WARNING "Could not find book button";;
            match lt_dec retry_count (MAX_RETRY_ATTEMPTS cfg) with
            | left _ =>
                log INFO "Retrying...";;
                sleep (RETRY_DELAY_SECONDS cfg);;
                v ← (λ s, book_shift shift_details (retry_count + 1) s);
                ret (Some v)
            | right _ => ret (Some false)
            end);
       match returned with
       | Some v => ret v
       | None =>
           confirm_dialog;;
           check_success (dict_get shift_details "title" (VStr "Unknown"))
                         (dict_get shift_details "date" (VStr "Unknown"))
       end)
      (λ o n, match o with
              | Raise (Exception _) => 1 + n ≤ 1
              | _ => 1 + n ≤ S N
              end)).
    apply postc_quiet_then; [excess_zero| |intros [?|]; simpl; lia|simpl; lia].
    intros _. apply postc_sleep_then; [intros []; reflexivity| |simpl; lia].
    apply (postc_bind _ _ _
             (λ o n, match o with
                     | Ret None | Raise (Exception _) => n ≤ 0
                     | _ => n ≤ N
                     end)
             (λ returned o n, match returned with
                              | Some v => o = Ret v ∧ n ≤ 0
                              | None => n ≤ 0
                              end)).
    + (* the button step *)
      apply (postc_try_except_Exception _ _ _
               (λ o n, n ≤ 0 ∧ ∀ v, o ≠ Ret (Some v))
               (λ o n, n ≤ N ∧ (∀ name, o ≠ Raise (Exception name)) ∧ o ≠ Ret None)).
      * apply (postc_bind _ _ _ (λ _ n, n ≤ 0) (λ _ o n, o = Ret None ∧ n ≤ 0)).
        -- apply postc_of_excess, quiet_click_book_button.
        -- intros _. apply postc_ret. split; [reflexivity | lia].
        -- intros _ c o' c' Hc [-> Hc']. split; [lia | discriminate].
        -- intros e c Hc. split; [lia | discriminate].
        -- intros c Hc. split; [lia | discriminate].
      * intros e. apply postc_log_then; [reflexivity|].
        destruct (lt_dec retry_count (MAX_RETRY_ATTEMPTS cfg)) as [Hlt|].
        -- apply postc_log_then; [reflexivity|].
           apply postc_sleep_then; [intros []; reflexivity| |].
           ++ apply (postc_bind _ _ _ _ (λ v o n, o = Ret (Some v) ∧ n ≤ 0)
                       _ (Hrec Hlt)).
              ** intros v. apply postc_ret. split; [reflexivity | lia].
              ** intros v c o' c' [Hc _] [-> Hc'].
                 split; [lia|]. split; [discriminate | discriminate].
              ** intros e' c [Hc Hne]. split; [lia|]. split; [|discriminate].
                 intros name [= ->]. destruct (Hne name). reflexivity.
              ** intros c [Hc _]. split; [lia|]. split; discriminate.
           ++ split; [lia|]. split; discriminate.
        -- apply postc_ret. split; [lia|]. split; discriminate.
      * intros name c o' c' [Hc _] (Hc' & Hne & Hnone).
        destruct o' as [[v|]|[name'|]|]; try lia; [destruct Hnone; reflexivity|].
        destruct (Hne name'). reflexivity.
      * intros o c Hne [Hc Hsome].
        destruct o as [[v|]|[name'|]|]; lia.
    + (* after the button step *)
      intros [v|].
      * apply postc_ret. split; [reflexivity | lia].
      * apply postc_of_excess.
        pose proof quiet_confirm_dialog. pose proof quiet_check_success.
        excess_zero.
    + intros [v|] c o' c' Hc Hk.
      * destruct Hk as [-> Hc']. lia.
      * destruct o' as [?|[?|]|]; lia.
    + intros [name|] c Hc; lia.
    + intros c Hc. lia.
  - (* the handler of the whole call *)
    intros e. apply postc_log_then; [reflexivity|].
    destruct (lt_dec retry_count (MAX_RETRY_ATTEMPTS cfg)) as [Hlt|].
    + apply postc_log_then; [reflexivity|].
      apply postc_sleep_then; [intros []; reflexivity| |lia].
      intros s. apply (Hrec Hlt s).
    + apply postc_ret. lia.
  - intros name c o' c' Hc Hc'. lia.
  - intros o c Hne Hc. destruct o as [?|[name|]|]; [lia| |lia..].
    destruct (Hne name). reflexivity.
Qed.


Definition book_button_missing : Prop :=
  ∀ e, always_fails (elem_find_element e XPATH book_button_xpath).

Definition scroll_script_fails : Prop :=
  ∀ d, always_fails (driver_execute_script d "arguments[0].scrollIntoView(true);" []).

Lemma click_book_button_no_return (shift_details : gmap string pyval) :
  book_button_missing → yields (λ _, False) (click_book_button shift_details).
Proof.
  intros Hm. unfold click_book_button.
  destruct (shift_details !! "element") as [[n|t|e]|]; try apply yields_raise.
  apply (yields_bind (λ _, False)); [|intros ? []].
  apply yields_failing_call, Hm.
Qed.

Lemma scroll_no_return :
  scroll_script_fails →
  yields (λ _, False)
    (on_driver (λ d, driver_execute_script d "arguments[0].scrollIntoView(true);" [])).
Proof.
  intros Hf. unfold on_driver. apply yields_then. intros d.
  apply yields_failing_call, Hf.
Qed.

Lemma book_shift_yields_false (shift_details : gmap string pyval) (retry_count : nat) :
  book_button_missing ∨ scroll_script_fails →
  yields (λ booked', booked' = false) (book_shift shift_details retry_count).
Proof.
  intros Hm.
  remember (MAX_RETRY_ATTEMPTS cfg - retry_count) as budget eqn:Hb.
  revert retry_count Hb.
  induction budget as [budget IH] using lt_wf_ind. intros retry_count ->.
  assert (Hrec : retry_count < MAX_RETRY_ATTEMPTS cfg →
            yields (λ booked', booked' = false)
              (λ s, book_shift shift_details (retry_count + 1) s)).
  { intros Hlt. eapply IH; [|reflexivity]. lia. }
  clear IH. rewrite book_shift_equation_1.
  apply yields_try_except_Exception.
  - apply yields_then. intros _.
    destruct Hm as [Hbutton | Hscroll].
    + do 2 (apply yields_then; intros _).
      apply (yields_bind (λ returned, returned = Some false)).
      * apply yields_try_except_Exception.
        -- apply (yields_bind (λ _, False)); [|intros ? []].
           apply click_book_button_no_return, Hbutton.
        -- intros e. apply yields_then. intros _.
           destruct (lt_dec retry_count (MAX_RETRY_ATTEMPTS cfg)) as [Hlt|];
             [|apply yields_ret; reflexivity].
           do 2 (apply yields_then; intros _).
           apply (yields_bind _ _ _ _ (Hrec Hlt)).
           intros v ->. apply yields_ret. reflexivity.
      * intros returned ->. apply yields_ret. reflexivity.
    + apply (yields_bind (λ _, False)); [|intros ? []].
      apply scroll_no_return, Hscroll.
  - intros e. apply yields_then. intros _.
    destruct (lt_dec retry_count (MAX_RETRY_ATTEMPTS cfg)) as [Hlt|];
      [|apply yields_ret; reflexivity].
    do 2 (apply yields_then; intros _). exact (Hrec Hlt).
Qed.

(** *** Running a step by hand *)

Lemma run_log_then {A} (lvl : level) (msg : string) (k : M A) (s : state) :
  (log lvl msg;; k) s =
  Result (outcome_of (k s)) (ELog lvl msg :: events (k s)) (final (k s)).
Proof. reflexivity. Qed.

Lemma run_bind_ret {A B} (m : M A) (k : A → M B) (s s1 : state) (a : A)
    (t : list event) :
  m s = Result (Ret a) t s1 →
  bind m k s =
  Result (outcome_of (k a s1)) (t ++ events (k a s1)) (final (k a s1)).
Proof. intros H. unfold bind. rewrite H. reflexivity. Qed.

Lemma run_bind_raise {A B} (m : M A) (k : A → M B) (s s1 : state) (e : exn)
    (t : list event) :
  m s = Result (Raise e) t s1 → bind m k s = Result (Raise e) t s1.
Proof. intros H. unfold bind. rewrite H. reflexivity. Qed.

Lemma run_try_except_Exception_caught {A} (body : M A) (handler : string → M A)
    (s s1 : state) (name : string) (t : list event) :
  body s = Result (Raise (Exception name)) t s1 →
  try_except_Exception body handler s =
  Result (outcome_of (handler name s1)) (t ++ events (handler name s1))
         (final (handler name s1)).
Proof. intros H. unfold try_except_Exception. rewrite H. reflexivity. Qed.

Lemma run_sleep (secs : nat) (s : state) (i : bool) (w : world) :
  time_sleep secs (env s) = (i, w) →
  sleep secs s =
  Result (if i then Raise KeyboardInterrupt else Ret tt) [ESleep secs i]
         (State (self s) w).
Proof. intros H. unfold sleep. rewrite H. reflexivity. Qed.

Lemma result_eta {A} (r : result A) :
  r = Result (outcome_of r) (events r) (final r).
Proof. destruct r. reflexivity. Qed.

(** One pass through the loop whose protected part [protected] fails. *)
Lemma cycle_after_exception (protected : M unit) (s : state) (name : string)
    (i : bool) (w : world) :
  outcome_of (protected s) = Raise (Exception name) →
  time_sleep (SEARCH_INTERVAL_MINUTES cfg * 60) (env (final (protected s))) = (i, w) →
  (log INFO "============";;
   log INFO "SEARCH CYCLE #";;
   log INFO "============";;
   try_except_Exception protected
     (λ e, log ERROR "Error during search cycle";;
           log INFO "Continuing to next cycle...");;
   log INFO "Waiting before next search...";;
   log INFO "Next search at";;
   sleep (SEARCH_INTERVAL_MINUTES cfg * 60)) s =
  Result (if i then Raise KeyboardInterrupt else Ret tt)
    ([ELog INFO "============"; ELog INFO "SEARCH CYCLE #"; ELog INFO "============"]
     ++ events (protected s) ++
     [ELog ERROR "Error during search cycle";
      ELog INFO "Continuing to next cycle...";
      ELog INFO "Waiting before next search...";
      ELog INFO "Next search at";
      ESleep (SEARCH_INTERVAL_MINUTES cfg * 60) i])
    (State (self (final (protected s))) w).
Proof.
  intros H Hsleep. destruct (protected s) as [o t s1] eqn:Hp.
  cbn [outcome_of events final] in *. subst o.
  rewrite !run_log_then.
  erewrite run_bind_ret; cycle 1.
  { erewrite run_try_except_Exception_caught; [|exact Hp].
    rewrite run_log_then. reflexivity. }
  rewrite !run_log_then. cbn [log outcome_of events final].
  rewrite (run_sleep _ _ _ _ Hsleep). cbn [outcome_of events final self env].
  f_equal. cbn [app]. rewrite <- !app_assoc. reflexivity.
Qed.

(** The handler of a crash: two records, ten seconds, and [restart]. *)
Lemma handler_after_crash (restart : M unit) (s1 : state) (i : bool) (w : world) :
  time_sleep 10 (env s1) = (i, w) →
  (log ERROR "Fatal error";;
   log ERROR "Attempting to restart...";;
   sleep 10;;
   restart) s1 =
  if i then
    Result (Raise KeyboardInterrupt)
      [ELog ERROR "Fatal error"; ELog ERROR "Attempting to restart...";
       ESleep 10 true] (State (self s1) w)
  else
    Result (outcome_of (restart (State (self s1) w)))
      ([ELog ERROR "Fatal error"; ELog ERROR "Attempting to restart...";
        ESleep 10 false] ++ events (restart (State (self s1) w)))
      (final (restart (State (self s1) w))).
Proof.
  intros Hsleep. rewrite !run_log_then. destruct i.
  - rewrite (run_bind_raise _ _ _ _ _ _ (run_sleep _ _ _ _ Hsleep)). reflexivity.
  - rewrite (run_bind_ret _ _ _ _ _ _ (run_sleep _ _ _ _ Hsleep)). reflexivity.
Qed.

(** A run whose session [session] crashes, in terms of what [restart] and
    the [cleanup] of the finally clause do. *)
Lemma run_after_crash (session restart cleanup on_interrupt : M unit)
    (s : state) (name : string) (i : bool) (w : world) :
  outcome_of (session s) = Raise (Exception name) →
  time_sleep 10 (env (final (session s))) = (i, w) →
  let run :=
    try_finally
      (try_except session
         (λ e, match e with
               | KeyboardInterrupt => on_interrupt
               | Exception _ =>
                   log ERROR "Fatal error";;
                   log ERROR "Attempting to restart...";;
                   sleep 10;;
                   restart
               end))
      cleanup in
  let logged :=
    events (session s) ++
    [ELog ERROR "Fatal error"; ELog ERROR "Attempting to restart...";
     ESleep 10 i] in
  let s' := State (self (final (session s))) w in
  if i then logged `prefix_of` events (run s)
  else (logged ++ events (restart s')) `prefix_of` events (run s).
Proof.
  intros H Hsleep. cbv zeta. unfold try_finally, try_except.
  destruct (session s) as [o t s1]. cbn [outcome_of events final] in *. subst o.
  cbv beta iota. rewrite (handler_after_crash restart s1 i w Hsleep).
  destruct i; cbn [outcome_of events final].
  - eexists. rewrite <- !app_assoc. reflexivity.
  - destruct (outcome_of (restart _)); cbn [outcome_of events final];
      [eexists; rewrite <- !app_assoc; reflexivity..|].
    exists []. rewrite app_nil_r, <- !app_assoc. reflexivity.
Qed.

Lemma bind_events_prefix {A B} (m : M A) (k : A → M B) (s : state) :
  events (m s) `prefix_of` events (bind m k s).
Proof.
  unfold bind. destruct (m s) as [[a|e|] t s1]; cbn [outcome_of events final];
    [apply prefix_app_r|..]; reflexivity.
Qed.

Lemma try_except_events_prefix {A} (body : M A) (handler : exn → M A) (s : state) :
  events (body s) `prefix_of` events (try_except body handler s).
Proof.
  unfold try_except.
  destruct (body s) as [[a|e|] t s1]; cbn [outcome_of events final];
    [|apply prefix_app_r|]; reflexivity.
Qed.

Lemma try_finally_events_prefix {A} (body : M A) (cleanup : M unit) (s : state) :
  events (body s) `prefix_of` events (try_finally body cleanup s).
Proof.
  unfold try_finally.
  destruct (body s) as [[a|e|] t s1]; cbn [outcome_of events final];
    [apply prefix_app_r..|]; reflexivity.
Qed.

(** *** Steps that always return *)

Section Returns.
Context {A B : Type}.

Lemma returns_ret (a : A) : returns (ret a).
Proof. intros s. exists a. reflexivity. Qed.

Lemma returns_bind (m : M A) (k : A → M B) :
  returns m → (∀ a, returns (k a)) → returns (bind m k).
Proof.
  intros Hm Hk s. destruct (Hm s) as [a Ha]. unfold bind.
  destruct (m s) as [o t s1]. cbn [outcome_of events final] in *. subst o.
  apply Hk.
Qed.

Lemma returns_try_except (body : M A) (handler : exn → M A) :
  halts body → (∀ e, returns (handler e)) → returns (try_except body handler).
Proof.
  intros Hb Hh s. specialize (Hb s). unfold try_except.
  destruct (body s) as [[a|e|] t s1]; cbn [outcome_of events final] in *;
    [exists a; reflexivity | apply Hh | destruct Hb; reflexivity].
Qed.

Lemma returns_try_except_Exception (body : M A) (handler : string → M A) :
  returns body → returns (try_except_Exception body handler).
Proof.
  intros Hb s. destruct (Hb s) as [a Ha]. unfold try_except_Exception.
  destruct (body s) as [o t s1]. cbn [outcome_of events final] in *. subst o.
  exists a. reflexivity.
Qed.

End Returns.

Lemma returns_log (lvl : level) (msg : string) : returns (log lvl msg).
Proof. intros s. exists tt. reflexivity. Qed.

Lemma returns_find_shift_elements (sels : list string) (shift_elements : list elem) :
  returns (find_shift_elements sels shift_elements).
Proof.
  revert shift_elements.
  induction sels as [|selector rest IH]; intros shift_elements; simpl.
  { apply returns_ret. }
  apply returns_bind.
  - apply returns_try_except; [|intros; apply returns_ret].
    apply (accounts_halts (λ _, false)). accounts_go.
  - intros [[|x els]|]; [apply IH | apply returns_ret | apply IH].
Qed.

Lemma returns_read_field (shift : elem) (xpath key : string)
    (info : gmap string pyval) :
  returns (read_field shift xpath key info).
Proof.
  unfold read_field. apply returns_try_except; [|intros; apply returns_ret].
  apply (accounts_halts (λ _, false)). accounts_go.
Qed.

Lemma returns_shift_record (idx : nat) (shift : elem) :
  returns (shift_record idx shift).
Proof.
  unfold shift_record.
  apply returns_bind; [apply returns_ret|]. intros.
  do 5 (apply returns_bind; [apply returns_read_field|]; intros).
  apply returns_ret.
Qed.

Lemma returns_scan_shifts build (idx : nat) (shift_elements : list elem)
    (shifts : list (gmap string pyval)) :
  (∀ i e, returns (build i e)) →
  returns (scan_shifts build idx shift_elements shifts).
Proof.
  intros Hbuild. revert idx shifts.
  induction shift_elements as [|shift rest IH]; intros idx shifts; simpl.
  { apply returns_ret. }
  apply returns_bind; [|intros; apply IH].
  apply returns_try_except_Exception.
  apply returns_bind; [apply Hbuild|]. intros.
  apply returns_bind; [apply returns_log | intros; apply returns_ret].
Qed.

Lemma returns_scan_page : returns scan_page.
Proof.
  unfold scan_page.
  apply returns_bind; [apply returns_find_shift_elements|]. intros.
  apply returns_bind; [apply returns_log|]. intros.
  apply returns_bind;
    [apply returns_scan_shifts; intros; apply returns_shift_record|]. intros.
  apply returns_bind; [apply returns_log | intros; apply returns_ret].
Qed.

Lemma returns_get_available_shifts : returns get_available_shifts.
Proof. apply returns_try_except_Exception, returns_scan_page. Qed.

(** *** The records of a scan *)

Definition display_fields : list string :=
  ["title"; "location"; "date"; "time"; "pay"].

Definition has_display_fields (shift_info : gmap string pyval) : Prop :=
  ∀ key, key ∈ display_fields → ∃ text, shift_info !! key = Some (VStr text).

(** What one guarded lookup does, reply by reply. *)
Lemma read_field_found (shift : elem) (xpath key : string)
    (info : gmap string pyval) (s : state) (found : elem) (text : string)
    (w1 w2 : world) :
  selenium elem (elem_find_element shift XPATH xpath) (env s) = (Ok found, w1) →
  selenium string (elem_text found) w1 = (Ok text, w2) →
  read_field shift xpath key info s =
  Result (Ret (<[key := VStr text]> info))
    [ECall (elem_find_element shift XPATH xpath) (Ok found);
     ECall (elem_text found) (Ok text)]
    (State (self s) w2).
Proof.
  intros Hf Ht. unfold read_field, try_except, bind, selenium_call.
  rewrite Hf. cbn [outcome_of events final self env]. rewrite Ht. reflexivity.
Qed.

Lemma read_field_not_found (shift : elem) (xpath key : string)
    (info : gmap string pyval) (s : state) (e : exn) (w1 : world) :
  selenium elem (elem_find_element shift XPATH xpath) (env s) = (Fail e, w1) →
  read_field shift xpath key info s =
  Result (Ret (<[key := VStr "Unknown"]> info))
    [ECall (elem_find_element shift XPATH xpath) (Fail e)]
    (State (self s) w1).
Proof.
  intros Hf. unfold read_field, try_except, bind, selenium_call.
  rewrite Hf. reflexivity.
Qed.

Lemma read_field_no_text (shift : elem) (xpath key : string)
    (info : gmap string pyval) (s : state) (found : elem) (e : exn)
    (w1 w2 : world) :
  selenium elem (elem_find_element shift XPATH xpath) (env s) = (Ok found, w1) →
  selenium string (elem_text found) w1 = (Fail e, w2) →
  read_field shift xpath key info s =
  Result (Ret (<[key := VStr "Unknown"]> info))
    [ECall (elem_find_element shift XPATH xpath) (Ok found);
     ECall (elem_text found) (Fail e)]
    (State (self s) w2).
Proof.
  intros Hf Ht. unfold read_field, try_except, bind, selenium_call.
  rewrite Hf. cbn [outcome_of events final self env]. rewrite Ht. reflexivity.
Qed.

Lemma yields_read_field (shift : elem) (xpath key : string)
    (info : gmap string pyval) :
  yields (λ info', ∃ text, info' = <[key := VStr text]> info)
    (read_field shift xpath key info).
Proof.
  intros s info'.
  destruct (selenium elem (elem_find_element shift XPATH xpath) (env s))
    as [[found|e] w1] eqn:Hf.
  - destruct (selenium string (elem_text found) w1) as [[text|e] w2] eqn:Ht.
    + rewrite (read_field_found _ _ _ _ _ _ _ _ _ Hf Ht). intros [= <-]. eauto.
    + rewrite (read_field_no_text _ _ _ _ _ _ _ _ _ Hf Ht). intros [= <-]. eauto.
  - rewrite (read_field_not_found _ _ _ _ _ _ _ Hf). intros [= <-]. eauto.
Qed.

(** The dictionary of a shift, given the five texts. *)
Definition shift_dict (idx : nat) (shift : elem)
    (title location date time pay : string) : gmap string pyval :=
  <["pay" := VStr pay]> (<["time" := VStr time]> (<["date" := VStr date]>
    (<["location" := VStr location]> (<["title" := VStr title]>
      (<["element" := VElem shift]> (<["index" := VInt idx]> ∅)))))).

Lemma yields_shift_record (idx : nat) (shift : elem) :
  yields (λ shift_info, ∃ title location date time pay,
            shift_info = shift_dict idx shift title location date time pay)
    (shift_record idx shift).
Proof.
  unfold shift_record.
  apply (yields_bind (λ i0, i0 = <["element" := VElem shift]> (<["index" := VInt idx]> ∅)));
    [apply yields_ret; reflexivity|]. intros i0 ->.
  apply (yields_bind _ _ _ _ (yields_read_field _ _ _ _)). intros i1 [title ->].
  apply (yields_bind _ _ _ _ (yields_read_field _ _ _ _)). intros i2 [location ->].
  apply (yields_bind _ _ _ _ (yields_read_field _ _ _ _)). intros i3 [date ->].
  apply (yields_bind _ _ _ _ (yields_read_field _ _ _ _)). intros i4 [time ->].
  apply (yields_bind _ _ _ _ (yields_read_field _ _ _ _)). intros i5 [pay ->].
  apply yields_ret. exists title, location, date, time, pay. reflexivity.
Qed.

Lemma shift_dict_has_display_fields (idx : nat) (shift : elem)
    (title location date time pay : string) :
  has_display_fields (shift_dict idx shift title location date time pay).
Proof.
  intros key Hkey. unfold display_fields in Hkey. unfold shift_dict.
  repeat (apply elem_of_cons in Hkey as [-> | Hkey]);
    [eexists; simplify_map_eq; reflexivity..|].
  apply elem_of_nil in Hkey. destruct Hkey.
Qed.

Lemma yields_scan_shifts build (idx : nat) (shift_elements : list elem)
    (shifts : list (gmap string pyval)) :
  (∀ i e, yields has_display_fields (build i e)) →
  Forall has_display_fields shifts →
  yields (Forall has_display_fields) (scan_shifts build idx shift_elements shifts).
Proof.
  intros Hbuild. revert idx shifts.
  induction shift_elements as [|shift rest IH]; intros idx shifts Hshifts; simpl.
  { apply yields_ret, Hshifts. }
  apply (yields_bind (Forall has_display_fields)); [|intros; apply IH; assumption].
  apply yields_try_except_Exception.
  - apply (yields_bind _ _ _ _ (Hbuild idx shift)). intros shift_info Hinfo.
    apply yields_then. intros _. apply yields_ret.
    apply Forall_app. split; [exact Hshifts | apply Forall_singleton, Hinfo].
  - intros e. apply yields_then. intros _. apply yields_ret, Hshifts.
Qed.

Lemma yields_get_available_shifts :
  yields (Forall has_display_fields) get_available_shifts.
Proof.
  apply yields_try_except_Exception.
  - unfold scan_page. do 2 (apply yields_then; intros).
    apply (yields_bind (Forall has_display_fields)).
    + apply yields_scan_shifts; [|constructor]. intros i e.
      eapply yields_weaken; [apply yields_shift_record|].
      intros info (? & ? & ? & ? & ? & ->). apply shift_dict_has_display_fields.
    + intros shifts Hshifts. apply yields_then. intros _.
      apply yields_ret, Hshifts.
  - intros e. apply yields_then. intros _. apply yields_ret. constructor.
Qed.

(** *** What the handlers of a scan do *)

Lemma scan_shifts_skips build (idx : nat) (shift : elem) (rest : list elem)
    (shifts : list (gmap string pyval)) (s : state) (name : string) :
  outcome_of (build idx shift s) = Raise (Exception name) →
  let failed := build idx shift s in
  let r := scan_shifts build (S idx) rest shifts (final failed) in
  scan_shifts build idx (shift :: rest) shifts s =
  Result (outcome_of r)
    (events failed ++ ELog DEBUG "Could not parse shift" :: events r) (final r).
Proof.
  intros H. cbv zeta. cbn [scan_shifts].
  destruct (build idx shift s) as [o t s1] eqn:Hb.
  cbn [outcome_of events final] in *. subst o.
  erewrite run_bind_ret; cycle 1.
  { erewrite run_try_except_Exception_caught;
      [|erewrite run_bind_raise; [reflexivity | exact Hb]].
    rewrite run_log_then. reflexivity. }
  cbn [ret outcome_of events final]. rewrite <- app_assoc. reflexivity.
Qed.

Lemma scan_shifts_collects build (idx : nat) (shift : elem) (rest : list elem)
    (shifts : list (gmap string pyval)) (s : state)
    (shift_info : gmap string pyval) :
  outcome_of (build idx shift s) = Ret shift_info →
  let built := build idx shift s in
  let r := scan_shifts build (S idx) rest (shifts ++ [shift_info]) (final built) in
  scan_shifts build idx (shift :: rest) shifts s =
  Result (outcome_of r) (events built ++ ELog DEBUG "Shift" :: events r) (final r).
Proof.
  intros H. cbv zeta. cbn [scan_shifts].
  destruct (build idx shift s) as [o t s1] eqn:Hb.
  cbn [outcome_of events final] in *. subst o.
  erewrite run_bind_ret; cycle 1.
  { unfold try_except_Exception.
    erewrite run_bind_ret; [|exact Hb]. rewrite run_log_then. reflexivity. }
  cbn [ret outcome_of events final]. rewrite <- app_assoc. reflexivity.
Qed.

Lemma guarded_scan_catches (scan : M (list (gmap string pyval))) (s : state)
    (name : string) :
  outcome_of (scan s) = Raise (Exception name) →
  guarded_scan scan s =
  Result (Ret []) (events (scan s) ++ [ELog ERROR "Failed to get available shifts"])
         (final (scan s)).
Proof.
  intros H. unfold guarded_scan.
  destruct (scan s) as [o t s1] eqn:Hs. cbn [outcome_of events final] in *. subst o.
  erewrite run_try_except_Exception_caught; [|exact Hs].
  rewrite run_log_then. reflexivity.
Qed.

(** *** Candidates tried in order *)

Lemma run_on_driver {T} (method : driver → call T) (s : state) (d : driver)
    (r : reply T) (w : world) :
  the_driver (self s) = Some d →
  selenium T (method d) (env s) = (r, w) →
  on_driver method s =
  Result (match r with Ok v => Ret v | Fail e => Raise e end)
         [ECall (method d) r] (State (self s) w).
Proof.
  intros Hd Hc. unfold on_driver, self_driver, get_self, bind, selenium_call.
  cbn [outcome_of events final]. rewrite Hd.
  cbn [ret outcome_of events final]. rewrite Hc. reflexivity.
Qed.

Lemma run_selenium_call {T} (c : call T) (s : state) (r : reply T) (w : world) :
  selenium T c (env s) = (r, w) →
  selenium_call c s =
  Result (match r with Ok v => Ret v | Fail e => Raise e end)
         [ECall c r] (State (self s) w).
Proof. intros Hc. unfold selenium_call. rewrite Hc. reflexivity. Qed.

Lemma run_self_wait_until (cond : condition) (s : state) (d : driver)
    (timeout : nat) (r : reply elem) (w : world) :
  the_wait (self s) = Some (d, timeout) →
  selenium elem (wait_until d timeout cond) (env s) = (r, w) →
  self_wait_until cond s =
  Result (match r with Ok v => Ret v | Fail e => Raise e end)
         [ECall (wait_until d timeout cond) r] (State (self s) w).
Proof.
  intros Hd Hc. unfold self_wait_until, get_self, bind, selenium_call.
  cbn [outcome_of events final]. rewrite Hd. rewrite Hc. reflexivity.
Qed.














(** *** Every shift of a cycle is tried *)





Lemma run_bind_of_ret {A B} (m : M A) (k : A → M B) (s : state) (a : A) :
  outcome_of (m s) = Ret a →
  bind m k s =
  Result (outcome_of (k a (final (m s))))
         (events (m s) ++ events (k a (final (m s))))
         (final (k a (final (m s)))).
Proof. intros H. unfold bind. rewrite H. reflexivity. Qed.

(** *** Runs that go through

    [lands m s a s']: from [s] the step [m] returns [a] and leaves [s']. *)
Definition lands {A} (m : M A) (s : state) (a : A) (s' : state) : Prop :=
  outcome_of (m s) = Ret a ∧ final (m s) = s'.

Lemma bind_after_lands {A B} (m : M A) (k : A → M B) (s s1 : state) (a : A) :
  lands m s a s1 →
  outcome_of (bind m k s) = outcome_of (k a s1) ∧
  final (bind m k s) = final (k a s1).
Proof.
  intros [Ho <-]. rewrite (run_bind_of_ret m k s a Ho). split; reflexivity.
Qed.

Lemma lands_bind {A B} (m : M A) (k : A → M B) (s s1 s2 : state) (a : A) (b : B) :
  lands m s a s1 → lands (k a) s1 b s2 → lands (bind m k) s b s2.
Proof.
  intros Hm [Ho Hf]. destruct (bind_after_lands m k s s1 a Hm) as [Ho' Hf'].
  split; congruence.
Qed.



Lemma lands_try_except_Exception {A} (body : M A) (handler : string → M A)
    (s s1 : state) (a : A) :
  lands body s a s1 → lands (try_except_Exception body handler) s a s1.
Proof.
  intros [Ho Hf]. unfold lands, try_except_Exception. cbv zeta. rewrite Ho.
  split; assumption.
Qed.





Lemma tidy_booked {A} (m : M A) (s : state) :
  tidy m → booked (final (m s)) = booked s.
Proof.
  intros Hm. specialize (Hm s).
  destruct (outcome_of (m s)); [exact Hm | apply Hm | destruct Hm].
Qed.

(** ** The claims about the booker *)

(** C2.  The list booked_shifts is append-only.  It starts empty; set-up,
    login, navigation, search, scraping and close leave it as it is;
    book_shift appends exactly one record when it returns True and leaves
    the list alone in every other case; and over a whole run of
    run_continuous_booking the list before is a prefix of the list after,
    so no record is removed or changed. *)
Theorem booked_shifts_append_only :
  (∀ email password headless, booked_shifts (init email password headless) = []) ∧
  (∀ s, booked (final (setup_driver s)) = booked s) ∧
  (∀ retry_count s, booked (final (login retry_count s)) = booked s) ∧
  (∀ s, booked (final (navigate_to_shifts s)) = booked s) ∧
  (∀ location shift_type s,
     booked (final (search_shifts location shift_type s)) = booked s) ∧
  (∀ s, booked (final (get_available_shifts s)) = booked s) ∧
  (∀ s, booked (final (close s)) = booked s) ∧
  (∀ shift_details retry_count s,
     let r := book_shift shift_details retry_count s in
     match outcome_of r with
     | Ret true => ∃ b, booked (final r) = booked s ++ [b]
     | _ => booked (final r) = booked s
     end) ∧
  (∀ fuel s, booked s `prefix_of` booked (final (run_continuous_booking fuel s))).
Proof.
  repeat split; intros.
  - apply tidy_booked, tidy_setup_driver.
  - apply tidy_booked, tidy_login.
  - apply tidy_booked, tidy_navigate_to_shifts.
  - apply tidy_booked, tidy_search_shifts.
  - apply tidy_booked, tidy_get_available_shifts.
  - apply tidy_booked, tidy_close.
  - pose proof (accounts_book_shift shift_details retry_count s) as Hb.
    subst r. destruct (outcome_of (book_shift shift_details retry_count s))
      as [[|]|e|]; [exact Hb | exact Hb | apply Hb | destruct Hb].
  - apply grows_run_continuous_booking.
Qed.

(** C3.  The retries of login and of book_shift are bounded.  A call of
    login that starts at [retry_count] comes to an end after at most
    MAX_RETRY_ATTEMPTS - retry_count further attempts, each of them after
    a full sleep of RETRY_DELAY_SECONDS and a refresh that went through;
    when the email field is never found the call ends by raising.  A call
    of book_shift comes to an end after at most MAX_RETRY_ATTEMPTS -
    retry_count further attempts; when the book button is never found, or
    the scroll script always raises, it returns False unless a
    KeyboardInterrupt cuts it short. *)
Theorem retries_are_bounded :
  (∀ retry_count s,
     let r := login retry_count s in
     outcome_of r ≠ Running ∧
     count_events is_login_attempt (events r)
       ≤ 1 + (MAX_RETRY_ATTEMPTS cfg - retry_count) ∧
     count_events is_login_attempt (events r)
       ≤ 1 + count_events (is_sleep (RETRY_DELAY_SECONDS cfg)) (events r) ∧
     count_events is_login_attempt (events r)
       ≤ 1 + count_events is_refresh (events r)) ∧
  (email_field_missing →
   ∀ retry_count s, ∃ e, outcome_of (login retry_count s) = Raise e) ∧
  (∀ shift_details retry_count s,
     let r := book_shift shift_details retry_count s in
     outcome_of r ≠ Running ∧
     count_events is_booking_attempt (events r)
       ≤ 1 + (MAX_RETRY_ATTEMPTS cfg - retry_count)) ∧
  (book_button_missing ∨ scroll_script_fails →
   ∀ shift_details retry_count s,
     outcome_of (book_shift shift_details retry_count s) = Ret false ∨
     outcome_of (book_shift shift_details retry_count s) = Raise KeyboardInterrupt).
Proof.
  split; [|split; [|split]].
  - intros retry_count s r. subst r. split; [|split; [|split]].
    + apply (accounts_halts _ _ (tidy_login retry_count)).
    + pose proof (login_attempts_bounded retry_count s) as H.
      rewrite count_events_never in H. lia.
    + apply login_attempts_delayed.
    + apply login_attempts_refreshed.
  - intros Hm retry_count s.
    pose proof (login_no_return retry_count Hm s) as Hn.
    pose proof (accounts_halts _ _ (tidy_login retry_count) s) as Hh.
    destruct (outcome_of (login retry_count s)) as [u|e|];
      [destruct (Hn u); reflexivity | eauto | destruct Hh; reflexivity].
  - intros shift_details retry_count s r. subst r. split.
    + apply (accounts_halts _ _ (accounts_book_shift shift_details retry_count)).
    + apply (book_shift_attempts_bounded shift_details retry_count s).
  - intros Hm shift_details retry_count s.
    pose proof (book_shift_yields_false shift_details retry_count Hm s) as Hy.
    pose proof (never_fails_book_shift shift_details retry_count s) as Hn.
    pose proof (accounts_halts _ _ (accounts_book_shift shift_details retry_count) s)
      as Hh.
    destruct (outcome_of (book_shift shift_details retry_count s))
      as [b|[name|]|].
    + left. f_equal. apply Hy. reflexivity.
    + destruct (Hn name). reflexivity.
    + right. reflexivity.
    + destruct Hh. reflexivity.
Qed.

(** C4.  An exception of class Exception raised anywhere inside the
    protected part of a search cycle (navigation, search, scraping or
    booking) is caught and logged, and the loop goes on: after the sleep of
    the search interval the next pass starts from the state the failed one
    left.  Only a KeyboardInterrupt during that sleep ends the loop. *)
Theorem cycle_exception_is_caught (fuel : nat) (s : state) (name : string) :
  outcome_of (search_and_book s) = Raise (Exception name) →
  let failed := search_and_book s in
  ∃ i w,
    time_sleep (SEARCH_INTERVAL_MINUTES cfg * 60) (env (final failed)) = (i, w) ∧
    let logged :=
      [ELog INFO "============"; ELog INFO "SEARCH CYCLE #"; ELog INFO "============"]
      ++ events failed ++
      [ELog ERROR "Error during search cycle";
       ELog INFO "Continuing to next cycle...";
       ELog INFO "Waiting before next search...";
       ELog INFO "Next search at";
       ESleep (SEARCH_INTERVAL_MINUTES cfg * 60) i] in
    let s' := State (self (final failed)) w in
    if i then search_loop (S fuel) s = Result (Raise KeyboardInterrupt) logged s'
    else search_loop (S fuel) s =
           Result (outcome_of (search_loop fuel s'))
                  (logged ++ events (search_loop fuel s'))
                  (final (search_loop fuel s')).
Proof.
  intros H. cbv zeta.
  destruct (time_sleep (SEARCH_INTERVAL_MINUTES cfg * 60)
              (env (final (search_and_book s)))) as [i w] eqn:Hsleep.
  exists i, w. split; [reflexivity|].
  pose proof (cycle_after_exception search_and_book s name i w H Hsleep) as Hcycle.
  change (search_loop (S fuel)) with (search_cycle;; search_loop fuel).
  destruct i.
  - exact (run_bind_raise search_cycle (λ _, search_loop fuel) _ _ _ _ Hcycle).
  - exact (run_bind_ret search_cycle (λ _, search_loop fuel) _ _ tt _ Hcycle).
Qed.

(** C5.  A crash of class Exception that escapes the session (driver
    set-up, login and the loop) is caught by run_continuous_booking, which
    logs it, sleeps 10 seconds and, unless that sleep is interrupted, runs
    run_continuous_booking again from the state the crash left; and a run of
    run_continuous_booking starts with a whole session, driver set-up
    first. *)
Theorem crash_restarts_the_session (fuel : nat) (s : state) (name : string) :
  outcome_of (booking_session fuel s) = Raise (Exception name) →
  let crashed := booking_session fuel s in
  (∃ i w,
     time_sleep 10 (env (final crashed)) = (i, w) ∧
     let logged :=
       events crashed ++
       [ELog ERROR "Fatal error"; ELog ERROR "Attempting to restart...";
        ESleep 10 i] in
     let s' := State (self (final crashed)) w in
     if i then logged `prefix_of` events (run_continuous_booking (S fuel) s)
     else (logged ++ events (run_continuous_booking fuel s'))
            `prefix_of` events (run_continuous_booking (S fuel) s)) ∧
  (∀ fuel' s',
     events (setup_driver s') `prefix_of` events (booking_session fuel' s') ∧
     events (booking_session fuel' s')
       `prefix_of` events (run_continuous_booking (S fuel') s')).
Proof.
  intros H. cbv zeta. split.
  - destruct (time_sleep 10 (env (final (booking_session fuel s))))
      as [i w] eqn:Hsleep.
    exists i, w. split; [reflexivity|].
    exact (run_after_crash (booking_session fuel) (run_continuous_booking fuel)
             close _ s name i w H Hsleep).
  - intros fuel' s'. split.
    + apply bind_events_prefix.
    + cbn [run_continuous_booking].
      etrans; [|apply try_finally_events_prefix].
      apply try_except_events_prefix.
Qed.

(** C9.  get_available_shifts always returns a list: no exception reaches
    its caller.  In the loop over the shift elements an element whose
    record cannot be built is skipped and the scan goes on with the next
    one, the list collected so far unchanged; and when the scan as a whole
    raises, the outer handler returns the empty list. *)
Theorem get_available_shifts_never_raises :
  (∀ s, ∃ shifts, outcome_of (get_available_shifts s) = Ret shifts) ∧
  (∀ build idx shift rest shifts s name,
     outcome_of (build idx shift s) = Raise (Exception name) →
     let failed := build idx shift s in
     let r := scan_shifts build (S idx) rest shifts (final failed) in
     scan_shifts build idx (shift :: rest) shifts s =
     Result (outcome_of r)
       (events failed ++ ELog DEBUG "Could not parse shift" :: events r) (final r)) ∧
  (∀ scan s name,
     outcome_of (scan s) = Raise (Exception name) →
     outcome_of (guarded_scan scan s) = Ret []).
Proof.
  split; [|split].
  - apply returns_get_available_shifts.
  - intros * H. apply scan_shifts_skips with (name := name). exact H.
  - intros scan s name H. rewrite (guarded_scan_catches scan s name H). reflexivity.
Qed.


(** ** Further properties of the methods *)

(** *** Fields a step leaves alone

    [keeps f m]: a run of [m] leaves the field [f] of the object as it
    was, however the run ends. *)
Definition keeps {X A} (f : NHSShiftBooker → X) (m : M A) : Prop :=
  ∀ s, f (self (final (m s))) = f (self s).

Section Keeps.
Context {X : Type} (f : NHSShiftBooker → X).
Context {A B : Type}.

Lemma keeps_ret (a : A) : keeps f (ret a).
Proof. intros s. reflexivity. Qed.

Lemma keeps_raise (e : exn) : keeps f (@raise A e).
Proof. intros s. reflexivity. Qed.

Lemma keeps_running : keeps f (@running A).
Proof. intros s. reflexivity. Qed.

Lemma keeps_bind (m : M A) (k : A → M B) :
  keeps f m → (∀ a, keeps f (k a)) → keeps f (bind m k).
Proof.
  intros Hm Hk s. specialize (Hm s). unfold bind.
  destruct (m s) as [[a|e|] t s1]; cbn [outcome_of events final] in *;
    [rewrite Hk; exact Hm | exact Hm..].
Qed.

Lemma keeps_try_except (body : M A) (handler : exn → M A) :
  keeps f body → (∀ e, keeps f (handler e)) → keeps f (try_except body handler).
Proof.
  intros Hb Hh s. specialize (Hb s). unfold try_except.
  destruct (body s) as [[a|e|] t s1]; cbn [outcome_of events final] in *;
    [exact Hb | rewrite Hh; exact Hb | exact Hb].
Qed.

Lemma keeps_try_except_Exception (body : M A) (handler : string → M A) :
  keeps f body → (∀ e, keeps f (handler e)) →
  keeps f (try_except_Exception body handler).
Proof.
  intros Hb Hh s. specialize (Hb s). unfold try_except_Exception.
  destruct (body s) as [[a|[name|]|] t s1]; cbn [outcome_of events final] in *;
    [exact Hb | rewrite Hh; exact Hb | exact Hb..].
Qed.

Lemma keeps_try_finally (body : M A) (cleanup : M unit) :
  keeps f body → keeps f cleanup → keeps f (try_finally body cleanup).
Proof.
  intros Hb Hc s. specialize (Hb s). unfold try_finally.
  destruct (body s) as [[a|e|] t s1]; cbn [outcome_of events final] in *;
    [rewrite Hc; exact Hb.. | exact Hb].
Qed.

End Keeps.

Section KeepsPrimitives.
Context {X : Type} (f : NHSShiftBooker → X).

Lemma keeps_log (lvl : level) (msg : string) : keeps f (log lvl msg).
Proof. intros s. reflexivity. Qed.

Lemma keeps_sleep (secs : nat) : keeps f (sleep secs).
Proof.
  intros s. unfold sleep. destruct (time_sleep secs (env s)). reflexivity.
Qed.

Lemma keeps_now : keeps f now.
Proof. intros s. unfold now. destruct (datetime_now (env s)). reflexivity. Qed.

Lemma keeps_get_self : keeps f get_self.
Proof. intros s. reflexivity. Qed.

Lemma keeps_selenium_call {T} (c : call T) : keeps f (selenium_call c).
Proof.
  intros s. unfold selenium_call. destruct (selenium T c (env s)). reflexivity.
Qed.

(** An assignment that [f] does not see. *)
Lemma keeps_set_field (update : NHSShiftBooker → NHSShiftBooker) :
  (∀ b, f (update b) = f b) → keeps f (b ← get_self; set_self (update b)).
Proof. intros Hu s. apply Hu. Qed.

(** The same in front of what follows. *)
Lemma keeps_assign_then {B} (update : NHSShiftBooker → NHSShiftBooker)
    (k : unit → M B) :
  (∀ b, f (update b) = f b) → (∀ u, keeps f (k u)) →
  keeps f (b ← get_self; bind (set_self (update b)) k).
Proof.
  intros Hu Hk s. specialize (Hk tt (State (update (self s)) (env s))).
  unfold bind, get_self, set_self. cbn [outcome_of events final].
  rewrite Hk. apply Hu.
Qed.

Lemma keeps_self_driver : keeps f self_driver.
Proof.
  apply keeps_bind; [apply keeps_get_self|]. intros b.
  destruct (the_driver b); [apply keeps_ret | apply keeps_raise].
Qed.

Lemma keeps_self_wait_until (cond : condition) : keeps f (self_wait_until cond).
Proof.
  apply keeps_bind; [apply keeps_get_self|]. intros b.
  destruct (the_wait b) as [[d timeout]|];
    [apply keeps_selenium_call | apply keeps_raise].
Qed.

Lemma keeps_on_driver {T} (method : driver → call T) : keeps f (on_driver method).
Proof.
  apply keeps_bind; [apply keeps_self_driver|]. intros d.
  apply keeps_selenium_call.
Qed.

Lemma keeps_for_each {Y} (l : list Y) (body : Y → M unit) :
  (∀ y, keeps f (body y)) → keeps f (for_each l body).
Proof.
  intros Hbody. induction l as [|y rest IH]; cbn [for_each];
    [apply keeps_ret | apply keeps_bind; auto].
Qed.

End KeepsPrimitives.

(** Breaks a goal [keeps f m] down along the structure of [m]. *)
Ltac keeps_go :=
  repeat first
    [ progress intros
    | assumption
    | match goal with
      | H : ∀ x, keeps _ _ |- _ => apply H
      | H : ∀ x y, keeps _ _ |- _ => apply H
      | H : ∀ x y z, keeps _ _ |- _ => apply H
      | H : ∀ x y z u, keeps _ _ |- _ => apply H
      end
    | apply keeps_log | apply keeps_sleep | apply keeps_now
    | apply keeps_selenium_call | apply keeps_on_driver | apply keeps_self_driver
    | apply keeps_self_wait_until | apply keeps_ret | apply keeps_raise
    | apply keeps_running | apply keeps_get_self
    | apply keeps_try_except | apply keeps_try_except_Exception
    | apply keeps_bind
    | match goal with
      | |- keeps _ (match ?x with _ => _ end) => destruct x
      end ].

(** [f] does not depend on the fields [driver] and [wait]. *)
Definition blind_to_driver {X} (f : NHSShiftBooker → X) : Prop :=
  ∀ b d w,
    f {| email := email b; password := password b; headless := headless b;
         the_driver := d; the_wait := w; booked_shifts := booked_shifts b |} = f b.

(** [f] does not depend on the field [booked_shifts]. *)
Definition blind_to_bookings {X} (f : NHSShiftBooker → X) : Prop :=
  ∀ b l,
    f {| email := email b; password := password b; headless := headless b;
         the_driver := the_driver b; the_wait := the_wait b;
         booked_shifts := l |} = f b.

Section KeepsMethods.
Context {X : Type} (f : NHSShiftBooker → X).

Lemma keeps_setup_driver : blind_to_driver f → keeps f setup_driver.
Proof.
  intros Hf. unfold setup_driver.
  apply keeps_try_except_Exception; [|keeps_go].
  apply keeps_bind; [apply keeps_get_self|]. intros b.
  apply keeps_bind; [apply keeps_selenium_call|]. intros service.
  apply keeps_bind; [apply keeps_selenium_call|]. intros d.
  apply keeps_assign_then; [intros b'; apply Hf|]. intros _.
  apply keeps_assign_then; [intros b'; apply Hf|]. intros _.
  apply keeps_log.
Qed.

Lemma keeps_login_start : keeps f login_start.
Proof. unfold login_start. keeps_go. Qed.

Lemma keeps_enter_email : keeps f enter_email.
Proof. unfold enter_email. keeps_go. Qed.

Lemma keeps_login_finish : keeps f login_finish.
Proof. unfold login_finish. keeps_go. Qed.

Lemma keeps_login (retry_count : nat) : keeps f (login retry_count).
Proof.
  remember (MAX_RETRY_ATTEMPTS cfg - retry_count) as budget eqn:Hb.
  revert retry_count Hb.
  induction budget as [budget IH] using lt_wf_ind. intros retry_count ->.
  rewrite login_equation_1.
  pose proof keeps_login_start. pose proof keeps_enter_email.
  pose proof keeps_login_finish.
  keeps_go.
  eapply IH; [|reflexivity]. lia.
Qed.

Lemma keeps_click_first_link (xpaths : list string) : keeps f (click_first_link xpaths).
Proof. induction xpaths as [|xpath rest IH]; cbn [click_first_link]; keeps_go. Qed.

Lemma keeps_navigate_to_shifts : keeps f navigate_to_shifts.
Proof.
  unfold navigate_to_shifts. pose proof keeps_click_first_link. keeps_go.
Qed.

Lemma keeps_fill_field (xpath text done' failed : string) :
  keeps f (fill_field xpath text done' failed).
Proof. unfold fill_field. keeps_go. Qed.

Lemma keeps_search_shifts (location shift_type : option string) :
  keeps f (search_shifts location shift_type).
Proof. unfold search_shifts. pose proof keeps_fill_field. keeps_go. Qed.

Lemma keeps_find_shift_elements (sels : list string) (shift_elements : list elem) :
  keeps f (find_shift_elements sels shift_elements).
Proof.
  revert shift_elements.
  induction sels as [|selector rest IH]; intros shift_elements;
    cbn [find_shift_elements]; keeps_go.
Qed.

Lemma keeps_read_field (shift : elem) (xpath key : string) (info : gmap string pyval) :
  keeps f (read_field shift xpath key info).
Proof. unfold read_field. keeps_go. Qed.

Lemma keeps_shift_record (idx : nat) (shift : elem) : keeps f (shift_record idx shift).
Proof. unfold shift_record. pose proof keeps_read_field. keeps_go. Qed.

Lemma keeps_scan_shifts build (idx : nat) (shift_elements : list elem)
    (shifts : list (gmap string pyval)) :
  (∀ i e, keeps f (build i e)) → keeps f (scan_shifts build idx shift_elements shifts).
Proof.
  intros Hbuild. revert idx shifts.
  induction shift_elements as [|shift rest IH]; intros idx shifts;
    cbn [scan_shifts]; keeps_go.
Qed.

Lemma keeps_get_available_shifts : keeps f get_available_shifts.
Proof.
  unfold get_available_shifts, guarded_scan, scan_page.
  pose proof keeps_find_shift_elements.
  pose proof (λ i l s, keeps_scan_shifts shift_record i l s keeps_shift_record).
  keeps_go.
Qed.

Lemma keeps_close : keeps f close.
Proof. unfold close. keeps_go. Qed.

Lemma keeps_log_bookings : keeps f log_bookings.
Proof. unfold log_bookings. keeps_go. apply keeps_for_each. keeps_go. Qed.

Lemma keeps_startup_banner : keeps f startup_banner.
Proof. unfold startup_banner. keeps_go. Qed.

Lemma keeps_click_book_button (shift_details : gmap string pyval) :
  keeps f (click_book_button shift_details).
Proof. unfold click_book_button. keeps_go. Qed.

Lemma keeps_confirm_dialog : keeps f confirm_dialog.
Proof. unfold confirm_dialog. keeps_go. Qed.

Lemma keeps_append_booking (shift_title shift_date : pyval) :
  blind_to_bookings f → keeps f (append_booking shift_title shift_date).
Proof.
  intros Hf s. unfold append_booking, bind, now.
  destruct (datetime_now (env s)) as [t w]. apply Hf.
Qed.

Lemma keeps_find_success_message (indicators : list string)
    (shift_title shift_date : pyval) :
  blind_to_bookings f →
  keeps f (find_success_message indicators shift_title shift_date).
Proof.
  intros Hf. pose proof (λ t d, keeps_append_booking t d Hf).
  induction indicators as [|indicator rest IH]; cbn [find_success_message]; keeps_go.
Qed.

Lemma keeps_check_success (shift_title shift_date : pyval) :
  blind_to_bookings f → keeps f (check_success shift_title shift_date).
Proof.
  intros Hf. unfold check_success.
  pose proof (λ t d, keeps_append_booking t d Hf).
  pose proof (λ i t d, keeps_find_success_message i t d Hf).
  keeps_go.
Qed.

Lemma keeps_book_shift (shift_details : gmap string pyval) (retry_count : nat) :
  blind_to_bookings f → keeps f (book_shift shift_details retry_count).
Proof.
  intros Hf.
  remember (MAX_RETRY_ATTEMPTS cfg - retry_count) as budget eqn:Hb.
  revert retry_count Hb.
  induction budget as [budget IH] using lt_wf_ind. intros retry_count ->.
  assert (Hrec : retry_count < MAX_RETRY_ATTEMPTS cfg →
                 keeps f (book_shift shift_details (retry_count + 1))).
  { intros Hlt. eapply IH; [|reflexivity]. lia. }
  clear IH. rewrite book_shift_equation_1.
  pose proof keeps_click_book_button. pose proof keeps_confirm_dialog.
  pose proof (λ t d, keeps_check_success t d Hf).
  keeps_go.
Qed.

End KeepsMethods.

(** The loop and the run, given that booking and set-up leave [f] alone. *)
Section KeepsLoop.
Context {X : Type} (f : NHSShiftBooker → X).
Hypothesis keeps_booking : ∀ shift_details retry_count,
  keeps f (book_shift shift_details retry_count).

Lemma keeps_book_all (shifts : list (gmap string pyval)) : keeps f (book_all shifts).
Proof. unfold book_all. apply keeps_for_each. keeps_go. Qed.

Lemma keeps_search_and_book : keeps f search_and_book.
Proof.
  unfold search_and_book.
  apply keeps_bind; [apply keeps_navigate_to_shifts|]. intros _.
  apply keeps_bind; [apply keeps_search_shifts|]. intros _.
  apply keeps_bind; [apply keeps_get_available_shifts|]. intros shifts.
  apply keeps_bind.
  - destruct shifts as [|shift rest]; [apply keeps_log|].
    apply keeps_bind; [apply keeps_log|]. intros _. apply keeps_book_all.
  - intros _. do 2 (apply keeps_bind; [apply keeps_log|]; intros _).
    apply keeps_log_bookings.
Qed.

Lemma keeps_search_cycle : keeps f search_cycle.
Proof. unfold search_cycle. pose proof keeps_search_and_book. keeps_go. Qed.

Lemma keeps_search_loop (fuel : nat) : keeps f (search_loop fuel).
Proof.
  pose proof keeps_search_cycle.
  induction fuel as [|fuel IH]; cbn [search_loop]; keeps_go.
Qed.

Hypothesis keeps_setup : keeps f setup_driver.

Lemma keeps_booking_session (fuel : nat) : keeps f (booking_session fuel).
Proof.
  unfold booking_session.
  pose proof (keeps_login f). pose proof (keeps_startup_banner f).
  pose proof keeps_search_loop.
  keeps_go.
Qed.

Lemma keeps_run_continuous_booking (fuel : nat) :
  keeps f (run_continuous_booking fuel).
Proof.
  pose proof keeps_booking_session. pose proof (keeps_log_bookings f).
  induction fuel as [|fuel IH]; cbn [run_continuous_booking]; [apply keeps_running|].
  apply keeps_try_finally; [|apply keeps_close].
  keeps_go.
Qed.

End KeepsLoop.

Lemma final_set_self_then {A} (b : NHSShiftBooker) (k : M A) (s : state) :
  final ((set_self b;; k) s) = final (k (State b (env s))).
Proof. unfold bind, set_self. cbn [outcome_of events final]. reflexivity. Qed.

Lemma final_main (fuel : nat) (s : state) :
  final (main fuel s) =
  final (run_continuous_booking fuel
           (State (init (NHS_EMAIL cfg) (NHS_PASSWORD cfg) (HEADLESS_MODE cfg)) (env s))).
Proof.
  unfold main. rewrite !run_log_then. cbn [final].
  apply final_set_self_then.
Qed.

(** X1.  Which method assigns to which field.  login, navigate_to_shifts,
    search_shifts, get_available_shifts and close leave the whole object as
    it is; book_shift changes nothing but [booked_shifts]; setup_driver
    changes nothing but [driver] and [wait]; so over a whole run of
    run_continuous_booking the email, the password and the headless flag
    stay what they were, and at the end of main they are the values of the
    configuration. *)
Theorem methods_assign_only_their_fields :
  (∀ retry_count s, self (final (login retry_count s)) = self s) ∧
  (∀ s, self (final (navigate_to_shifts s)) = self s) ∧
  (∀ location shift_type s,
     self (final (search_shifts location shift_type s)) = self s) ∧
  (∀ s, self (final (get_available_shifts s)) = self s) ∧
  (∀ s, self (final (close s)) = self s) ∧
  (∀ shift_details retry_count s,
     let b := self s in
     let b' := self (final (book_shift shift_details retry_count s)) in
     email b' = email b ∧ password b' = password b ∧ headless b' = headless b ∧
     the_driver b' = the_driver b ∧ the_wait b' = the_wait b) ∧
  (∀ s,
     let b := self s in
     let b' := self (final (setup_driver s)) in
     email b' = email b ∧ password b' = password b ∧ headless b' = headless b ∧
     booked_shifts b' = booked_shifts b) ∧
  (∀ fuel s,
     let b := self s in
     let b' := self (final (run_continuous_booking fuel s)) in
     email b' = email b ∧ password b' = password b ∧ headless b' = headless b) ∧
  (∀ fuel s,
     let b' := self (final (main fuel s)) in
     email b' = NHS_EMAIL cfg ∧ password b' = NHS_PASSWORD cfg ∧
     headless b' = HEADLESS_MODE cfg).
Proof.
  assert (Hrun : ∀ {X} (f : NHSShiftBooker → X),
            blind_to_bookings f → blind_to_driver f →
            ∀ fuel, keeps f (run_continuous_booking fuel)).
  { intros X f Hb Hd fuel. apply keeps_run_continuous_booking.
    - intros sd rc. apply keeps_book_shift, Hb.
    - apply keeps_setup_driver, Hd. }
  split; [intros rc s; apply (keeps_login (λ b, b))|].
  split; [intros s; apply (keeps_navigate_to_shifts (λ b, b))|].
  split; [intros l t s; apply (keeps_search_shifts (λ b, b))|].
  split; [intros s; apply (keeps_get_available_shifts (λ b, b))|].
  split; [intros s; apply (keeps_close (λ b, b))|].
  split.
  { intros sd rc s. cbv zeta.
    repeat apply conj; apply keeps_book_shift; intros b l; reflexivity. }
  split.
  { intros s. cbv zeta.
    repeat apply conj; apply keeps_setup_driver; intros b d w; reflexivity. }
  split.
  { intros fuel s. cbv zeta.
    repeat apply conj; apply Hrun; intros b ?; reflexivity. }
  intros fuel s. cbv zeta. rewrite final_main.
  repeat apply conj.
  - rewrite (Hrun _ email); [reflexivity | intros b l; reflexivity
                             | intros b d w; reflexivity].
  - rewrite (Hrun _ password); [reflexivity | intros b l; reflexivity
                                | intros b d w; reflexivity].
  - rewrite (Hrun _ headless); [reflexivity | intros b l; reflexivity
                                | intros b d w; reflexivity].
Qed.

(** *** More steps run by hand *)

Lemma run_get_self_then {A} (k : NHSShiftBooker → M A) (s : state) :
  (b ← get_self; k b) s = k (self s) s.
Proof.
  unfold bind, get_self. cbn [outcome_of events final app].
  symmetry. apply result_eta.
Qed.

Lemma run_set_self_then {A} (b : NHSShiftBooker) (k : M A) (s : state) :
  (set_self b;; k) s = k (State b (env s)).
Proof.
  unfold bind, set_self. cbn [outcome_of events final app].
  symmetry. apply result_eta.
Qed.

Lemma run_call_then {A T} (c : call T) (k : T → M A) (s : state)
    (r : reply T) (w : world) :
  selenium T c (env s) = (r, w) →
  bind (selenium_call c) k s =
  match r with
  | Ok v =>
      Result (outcome_of (k v (State (self s) w)))
             (ECall c r :: events (k v (State (self s) w)))
             (final (k v (State (self s) w)))
  | Fail e => Result (Raise e) [ECall c r] (State (self s) w)
  end.
Proof.
  intros Hc. unfold bind. rewrite (run_selenium_call c s r w Hc).
  destruct r; reflexivity.
Qed.

Lemma run_try_except_Exception_through {A} (body : M A) (handler : string → M A)
    (s : state) :
  (∀ name, outcome_of (body s) ≠ Raise (Exception name)) →
  try_except_Exception body handler s = body s.
Proof.
  intros Hn. unfold try_except_Exception. cbv zeta.
  destruct (outcome_of (body s)) as [a|[name|]|] eqn:Ho; try reflexivity.
  destruct (Hn name). reflexivity.
Qed.

(** The handlers that log one record and raise the exception again. *)
Lemma run_reraise {A} (body : M A) (lvl : level) (msg : string) (s : state) :
  try_except_Exception body (λ e, log lvl msg;; raise (Exception e)) s =
  match outcome_of (body s) with
  | Raise (Exception name) =>
      Result (Raise (Exception name)) (events (body s) ++ [ELog lvl msg])
             (final (body s))
  | _ => body s
  end.
Proof.
  unfold try_except_Exception. cbv zeta.
  destruct (outcome_of (body s)) as [a|[name|]|]; reflexivity.
Qed.

(** X2.  setup_driver either returns with the object holding the new
    driver, and a wait on that same driver with the timeout
    ELEMENT_WAIT_TIME, after exactly two calls (the driver manager's
    install, then Chrome with the options of the headless flag); or it
    raises what the failing call raised, with the object as it was, and for
    an exception of class Exception one error record at the end. *)
Theorem setup_driver_sets_driver_and_wait (s : state) :
  let r := setup_driver s in
  let options := chrome_options (headless (self s)) in
  match outcome_of r with
  | Ret _ =>
      ∃ service d,
        events r = [ECall ChromeDriverManager_install (Ok service);
                    ECall (webdriver_Chrome service options) (Ok d);
                    ELog INFO "WebDriver initialized successfully"] ∧
        self (final r) =
          {| email := email (self s); password := password (self s);
             headless := headless (self s); the_driver := Some d;
             the_wait := Some (d, ELEMENT_WAIT_TIME cfg);
             booked_shifts := booked_shifts (self s) |}
  | Raise e =>
      self (final r) = self s ∧
      let report := match e with
                    | Exception _ => [ELog ERROR "Failed to initialize WebDriver"]
                    | KeyboardInterrupt => []
                    end in
      (events r = ECall ChromeDriverManager_install (Fail e) :: report ∨
       ∃ service,
         events r = ECall ChromeDriverManager_install (Ok service)
                    :: ECall (webdriver_Chrome service options) (Fail e) :: report)
  | Running => False
  end.
Proof.
  cbv zeta. unfold setup_driver. rewrite run_reraise, run_get_self_then.
  destruct (selenium string ChromeDriverManager_install (env s))
    as [[service|e] w] eqn:H1;
    rewrite (run_call_then _ _ _ _ _ H1).
  - destruct (selenium driver
                (webdriver_Chrome service (chrome_options (headless (self s))))
                (State (self s) w).(env)) as [[d|e] w'] eqn:H2;
      rewrite (run_call_then _ _ _ _ _ H2).
    + rewrite run_get_self_then, run_set_self_then,
              run_get_self_then, run_set_self_then.
      cbn. exists service, d. split; reflexivity.
    + cbn [outcome_of events final self].
      destruct e as [name|]; cbn [outcome_of events final self app];
        (split; [reflexivity|]); right; exists service; reflexivity.
  - cbn [outcome_of events final self].
    destruct e as [name|]; cbn [outcome_of events final self app];
      (split; [reflexivity|]); left; reflexivity.
Qed.

(** *** Where an exception can come from *)

(** A bind that fails in front of steps that cannot fail has failed in its
    first step. *)
Lemma bind_fails_first {A B} (m : M A) (k : A → M B) (s : state) (name : string) :
  (∀ a, never_fails (k a)) →
  outcome_of (bind m k s) = Raise (Exception name) →
  outcome_of (m s) = Raise (Exception name) ∧
  events (bind m k s) = events (m s).
Proof.
  intros Hk. unfold bind.
  destruct (m s) as [[a|e|] t s1]; cbn [outcome_of events final].
  - intros H. destruct (Hk a s1 name H).
  - intros [= ->]. split; reflexivity.
  - discriminate.
Qed.

Lemma returns_click_first_link (xpaths : list string) :
  returns (click_first_link xpaths).
Proof.
  induction xpaths as [|xpath rest IH]; cbn [click_first_link];
    [apply returns_ret|].
  apply returns_bind.
  - apply returns_try_except; [|intros; apply returns_ret].
    apply (accounts_halts (λ _, false)). accounts_go.
  - intros [|]; [apply returns_ret | exact IH].
Qed.

(** A method of the driver that fails: the call raised, or there is no
    driver. *)
Lemma on_driver_fails {T} (method : driver → call T) (s : state) (name : string) :
  outcome_of (on_driver method s) = Raise (Exception name) →
  match the_driver (self s) with
  | Some d => events (on_driver method s) = [ECall (method d) (Fail (Exception name))]
  | None => name = "AttributeError"
  end.
Proof.
  destruct (the_driver (self s)) as [d|] eqn:Hd.
  - destruct (selenium T (method d) (env s)) as [r w] eqn:Hc.
    rewrite (run_on_driver _ _ _ _ _ Hd Hc). cbn [outcome_of events].
    destruct r as [v|e]; [discriminate|]. intros [= ->]. reflexivity.
  - unfold on_driver, self_driver, get_self, bind.
    cbn [outcome_of events final]. rewrite Hd.
    cbn [outcome_of raise]. congruence.
Qed.

Lemma reraise_fails_inv {A} (body : M A) (lvl : level) (msg : string)
    (s : state) (name : string) :
  outcome_of (try_except_Exception body (λ e, log lvl msg;; raise (Exception e)) s)
    = Raise (Exception name) →
  outcome_of (body s) = Raise (Exception name) ∧
  events (try_except_Exception body (λ e, log lvl msg;; raise (Exception e)) s)
    = events (body s) ++ [ELog lvl msg].
Proof.
  rewrite run_reraise.
  destruct (outcome_of (body s)) as [a|[name'|]|] eqn:Hb;
    cbn [outcome_of events]; intros H; try congruence.
  split; [exact H | reflexivity].
Qed.

Lemma bind_returns_inv {A B} (m : M A) (k : A → M B) (s : state) (a : A) :
  outcome_of (m s) = Ret a →
  outcome_of (bind m k s) = outcome_of (k a (final (m s))) ∧
  events (bind m k s) = events (m s) ++ events (k a (final (m s))).
Proof. intros H. rewrite (run_bind_of_ret m k s a H). split; reflexivity. Qed.

(** The shape of navigate_to_shifts: a search for a link, a fallback when
    none was found, and steps that cannot fail. *)
Lemma fallback_failure (link : M bool) (fallback rest : M unit)
    (start warn failed : string) (s : state) (name : string) :
  returns link → never_fails rest →
  let run :=
    try_except_Exception
      (log INFO start;;
       found ← link;
       (if found then ret tt else log WARNING warn;; fallback);;
       rest)
      (λ e, log ERROR failed;; raise (Exception e)) in
  outcome_of (run s) = Raise (Exception name) →
  outcome_of (link s) = Ret false ∧
  outcome_of (fallback (final (link s))) = Raise (Exception name) ∧
  events (run s) =
    ELog INFO start :: events (link s) ++ ELog WARNING warn
      :: events (fallback (final (link s))) ++ [ELog ERROR failed].
Proof.
  intros Hlink Hrest. cbv zeta. intros H.
  apply reraise_fails_inv in H. destruct H as [Hb ->].
  rewrite run_log_then in Hb |- *. cbn [outcome_of events] in Hb |- *.
  destruct (Hlink s) as [found Hfound].
  destruct (bind_returns_inv link
              (λ found, (if found then ret tt else log WARNING warn;; fallback);; rest)
              s found Hfound) as [Ho Hev].
  rewrite Ho in Hb. rewrite Hev. clear Ho Hev.
  apply bind_fails_first in Hb; [|intros _; exact Hrest].
  destruct Hb as [Hb ->].
  destruct found; [discriminate|].
  rewrite run_log_then in Hb |- *. cbn [outcome_of events] in Hb |- *.
  split; [exact Hfound|]. split; [exact Hb|].
  cbn [app]. f_equal. rewrite <- app_assoc. reflexivity.
Qed.

(** X3.  navigate_to_shifts fails with an exception of class Exception
    only through its fallback: no link was clicked, and the direct load of
    the search-shifts URL raised that exception (or the object has no
    driver).  The exception is raised again after one error record. *)
Theorem navigate_to_shifts_fails_only_on_fallback (s : state) (name : string) :
  outcome_of (navigate_to_shifts s) = Raise (Exception name) →
  outcome_of (click_first_link xpath_options s) = Ret false ∧
  last (events (navigate_to_shifts s))
    = Some (ELog ERROR "Navigation to shifts failed") ∧
  match the_driver (self s) with
  | Some d =>
      ECall (driver_get d search_shifts_url) (Fail (Exception name))
        ∈ events (navigate_to_shifts s)
  | None => name = "AttributeError"
  end.
Proof.
  intros H.
  assert (Hrest : never_fails (sleep 3;; log INFO "Navigated to shifts section"))
    by auto with never_fails.
  destruct (fallback_failure (click_first_link xpath_options)
              (on_driver (λ d, driver_get d search_shifts_url)) _ _ _ _ s name
              (returns_click_first_link xpath_options) Hrest H)
    as (Hlink & Hfallback & Hevents).
  split; [exact Hlink|].
  pose proof (keeps_click_first_link (λ b, b) xpath_options s) as Hself.
  cbv beta in Hself.
  apply on_driver_fails in Hfallback. rewrite Hself in Hfallback.
  change (events (navigate_to_shifts s)) with
    (events (try_except_Exception
      (log INFO "Navigating to available shifts...";;
       found ← click_first_link xpath_options;
       (if found then ret tt
        else log WARNING "Could not find shifts link, trying direct URL";;
             on_driver (λ d, driver_get d search_shifts_url));;
       sleep 3;; log INFO "Navigated to shifts section")
      (λ e, log ERROR "Navigation to shifts failed";; raise (Exception e)) s)).
  rewrite Hevents. clear Hevents H.
  split.
  { rewrite app_comm_cons, (app_comm_cons _ [_]), app_assoc. apply last_snoc. }
  destruct (the_driver (self s)) as [d|]; [|exact Hfallback].
  rewrite Hfallback.
  apply elem_of_cons. right. apply elem_of_app. right.
  apply elem_of_cons. right. apply elem_of_cons. left. reflexivity.
Qed.

Lemma never_fails_log_bookings : never_fails log_bookings.
Proof.
  unfold log_bookings. apply never_fails_bind; [intros ? ?; discriminate|].
  intros b. apply never_fails_for_each. intros. apply never_fails_log.
Qed.

Lemma never_fails_book_all (shifts : list (gmap string pyval)) :
  never_fails (book_all shifts).
Proof.
  unfold book_all. apply never_fails_for_each. intros shift.
  do 4 (apply never_fails_bind; [apply never_fails_log|]; intros _).
  apply never_fails_bind; [apply never_fails_book_shift|].
  intros [|]; auto with never_fails.
Qed.

(** X4.  Of the four steps of a search cycle only navigation can fail:
    search_shifts, get_available_shifts and book_shift never raise an
    exception of class Exception, so the error record of the cycle is only
    ever written for an exception that navigate_to_shifts raised, the first
    step of the cycle. *)
Theorem only_navigation_fails_a_cycle :
  (∀ location shift_type, never_fails (search_shifts location shift_type)) ∧
  never_fails get_available_shifts ∧
  (∀ shift_details retry_count, never_fails (book_shift shift_details retry_count)) ∧
  (∀ s name,
     outcome_of (search_and_book s) = Raise (Exception name) →
     outcome_of (navigate_to_shifts s) = Raise (Exception name) ∧
     events (search_and_book s) = events (navigate_to_shifts s)).
Proof.
  split; [exact never_fails_search_shifts|].
  split; [exact never_fails_get_available_shifts|].
  split; [exact never_fails_book_shift|].
  intros s name. unfold search_and_book. apply bind_fails_first.
  intros _.
  apply never_fails_bind; [apply never_fails_search_shifts|]. intros _.
  apply never_fails_bind; [apply never_fails_get_available_shifts|].
  intros shifts. apply never_fails_bind.
  - destruct shifts as [|shift rest]; [apply never_fails_log|].
    apply never_fails_bind; [apply never_fails_log|]. intros _.
    apply never_fails_book_all.
  - intros _. do 2 (apply never_fails_bind; [apply never_fails_log|]; intros _).
    apply never_fails_log_bookings.
Qed.

(** *** One record per element *)

(** The record of the element [shift] at position [idx] of the page. *)
Definition record_of (idx : nat) (shift : elem) (shift_info : gmap string pyval) : Prop :=
  shift_info !! "index" = Some (VInt idx) ∧
  shift_info !! "element" = Some (VElem shift) ∧
  has_display_fields shift_info.

Lemma shift_dict_record_of (idx : nat) (shift : elem)
    (title location date time pay : string) :
  record_of idx shift (shift_dict idx shift title location date time pay).
Proof.
  split; [|split]; [reflexivity..|apply shift_dict_has_display_fields].
Qed.

Lemma outcome_try_except_Exception_ret {A} (body : M A) (handler : string → M A)
    (s : state) (a : A) :
  outcome_of (body s) = Ret a → outcome_of (try_except_Exception body handler s) = Ret a.
Proof.
  intros H. apply (lands_try_except_Exception body handler s (final (body s)) a).
  split; [exact H | reflexivity].
Qed.

Lemma scan_shifts_records (shift_elements : list elem) :
  ∀ idx shifts s,
    ∃ records,
      outcome_of (scan_shifts shift_record idx shift_elements shifts s)
        = Ret (shifts ++ records) ∧
      Forall2 (λ '(i, shift) shift_info, record_of i shift shift_info)
        (zip (seq idx (length shift_elements)) shift_elements) records.
Proof.
  induction shift_elements as [|shift rest IH]; intros idx shifts s.
  { exists []. rewrite app_nil_r. split; [reflexivity | constructor]. }
  destruct (returns_shift_record idx shift s) as [shift_info Hinfo].
  destruct (yields_shift_record idx shift s shift_info Hinfo)
    as (title & location & date & time & pay & ->).
  rewrite (scan_shifts_collects shift_record idx shift rest shifts s _ Hinfo).
  cbn [outcome_of].
  destruct (IH (S idx) (shifts ++ [shift_dict idx shift title location date time pay])
              (final (shift_record idx shift s))) as (records & Hscan & Hrecords).
  exists (shift_dict idx shift title location date time pay :: records).
  split.
  - rewrite Hscan, <- app_assoc. reflexivity.
  - cbn [length seq zip zip_with]. constructor; [|exact Hrecords].
    apply shift_dict_record_of.
Qed.

(** X5.  get_available_shifts returns exactly one record per element that
    the selector loop matched, in the order of the page: the record at
    position [i] holds [i] under index, the element itself under element,
    and the five display fields.  No element is ever skipped. *)
Theorem get_available_shifts_one_record_per_element (s : state) :
  ∃ shift_elements shifts,
    outcome_of (find_shift_elements selectors [] s) = Ret shift_elements ∧
    outcome_of (get_available_shifts s) = Ret shifts ∧
    Forall2 (λ '(i, shift) shift_info, record_of i shift shift_info)
      (zip (seq 0 (length shift_elements)) shift_elements) shifts.
Proof.
  destruct (returns_find_shift_elements selectors [] s) as [shift_elements Hels].
  destruct (scan_shifts_records shift_elements 0 []
              (final (find_shift_elements selectors [] s)))
    as (records & Hscan & Hrecords).
  exists shift_elements, records. split; [exact Hels|]. split; [|exact Hrecords].
  unfold get_available_shifts, guarded_scan.
  apply outcome_try_except_Exception_ret. unfold scan_page.
  rewrite (proj1 (bind_returns_inv _ _ _ _ Hels)), run_log_then.
  cbn [outcome_of].
  rewrite (proj1 (bind_returns_inv _ _ _ _ Hscan)), run_log_then.
  reflexivity.
Qed.

(** *** The record a booking appends

    [books flag P m]: when [m] returns a value marked by [flag], the last
    entry of [booked_shifts] satisfies [P]. *)
Definition books {A} (flag : A → bool) (P : booking → Prop) (m : M A) : Prop :=
  ∀ s a, outcome_of (m s) = Ret a → flag a = true →
         ∃ b, last (booked (final (m s))) = Some b ∧ P b.

Section Books.
Context (P : booking → Prop).
Context {A B : Type}.

Lemma books_never (flag : A → bool) (m : M A) :
  (∀ a, flag a = false) → books flag P m.
Proof. intros Hf s a _ Ha. rewrite Hf in Ha. discriminate. Qed.

Lemma books_ret (flag : A → bool) (a : A) : flag a = false → books flag P (ret a).
Proof. intros Hf s a' [= <-] Ha. rewrite Hf in Ha. discriminate. Qed.

Lemma books_raise (flag : A → bool) (e : exn) : books flag P (raise e).
Proof. intros s a. discriminate. Qed.

Lemma books_bind_gen (g : A → bool) (flag : B → bool) (m : M A) (k : A → M B) :
  books g P m →
  (∀ a, g a = true → keeps booked_shifts (k a)) →
  (∀ a, g a = false → books flag P (k a)) →
  books flag P (bind m k).
Proof.
  intros Hm Hkeep Hk s b. specialize (Hm s). unfold bind.
  destruct (m s) as [[a|e|] t s1]; cbn [outcome_of events final] in *;
    [|discriminate..].
  intros Ho Hb. destruct (g a) eqn:Hg.
  - destruct (Hm a eq_refl Hg) as (record & Hlast & Hrecord).
    exists record. split; [|exact Hrecord].
    unfold booked in *. rewrite (Hkeep a Hg s1). exact Hlast.
  - exact (Hk a Hg s1 b Ho Hb).
Qed.

Lemma books_then (flag : B → bool) (m : M A) (k : A → M B) :
  (∀ a, books flag P (k a)) → books flag P (bind m k).
Proof.
  intros Hk. apply (books_bind_gen (λ _, false)); [|discriminate|auto].
  apply books_never. reflexivity.
Qed.

Lemma books_try_except (flag : A → bool) (body : M A) (handler : exn → M A) :
  books flag P body → (∀ e, books flag P (handler e)) →
  books flag P (try_except body handler).
Proof.
  intros Hb Hh s a. specialize (Hb s). unfold try_except.
  destruct (body s) as [[a'|e|] t s1]; cbn [outcome_of events final] in *;
    [apply Hb | apply Hh | discriminate].
Qed.

Lemma books_try_except_Exception (flag : A → bool) (body : M A)
    (handler : string → M A) :
  books flag P body → (∀ e, books flag P (handler e)) →
  books flag P (try_except_Exception body handler).
Proof.
  intros Hb Hh s a. specialize (Hb s). unfold try_except_Exception.
  destruct (body s) as [[a'|[name|]|] t s1]; cbn [outcome_of events final] in *;
    [apply Hb | apply Hh | discriminate..].
Qed.

End Books.

(** The record for a shift with the given title and date, whatever the
    clock said. *)
Definition booking_of (shift_title shift_date : pyval) (b : booking) : Prop :=
  b_title b = shift_title ∧ b_date b = shift_date.

Lemma books_append_booking (shift_title shift_date : pyval) :
  books (λ _, true) (booking_of shift_title shift_date)
    (append_booking shift_title shift_date).
Proof.
  intros s a _ _. unfold append_booking, bind, now.
  destruct (datetime_now (env s)) as [t w].
  cbn [outcome_of events final get_self set_self self booked booked_shifts].
  rewrite last_snoc. eexists. split; [reflexivity|]. split; reflexivity.
Qed.

Lemma books_find_success_message (indicators : list string)
    (shift_title shift_date : pyval) :
  books id (booking_of shift_title shift_date)
    (find_success_message indicators shift_title shift_date).
Proof.
  induction indicators as [|indicator rest IH]; cbn [find_success_message].
  { apply books_ret. reflexivity. }
  apply (books_bind_gen _ id).
  - apply books_try_except; [|intros; apply books_ret; reflexivity].
    do 3 (apply books_then; intros).
    apply (books_bind_gen _ (λ _, true)); [apply books_append_booking| |discriminate].
    intros _ _. apply keeps_ret.
  - intros [|] Ha; [apply keeps_ret | discriminate].
  - intros [|] Ha; [discriminate | exact IH].
Qed.

Lemma books_check_success (shift_title shift_date : pyval) :
  books id (booking_of shift_title shift_date) (check_success shift_title shift_date).
Proof.
  unfold check_success. apply books_try_except_Exception.
  - apply (books_bind_gen _ id); [apply books_find_success_message| |].
    + intros [|] Ha; [apply keeps_ret | discriminate].
    + intros [|] Ha; [discriminate|].
      apply books_then. intros _.
      apply (books_bind_gen _ (λ _, true)); [apply books_append_booking| |discriminate].
      intros _ _. apply keeps_ret.
  - intros e. apply books_then. intros _. apply books_ret. reflexivity.
Qed.

Lemma books_book_shift (shift_details : gmap string pyval) (retry_count : nat) :
  books id (booking_of (dict_get shift_details "title" (VStr "Unknown"))
                       (dict_get shift_details "date" (VStr "Unknown")))
    (book_shift shift_details retry_count).
Proof.
  remember (MAX_RETRY_ATTEMPTS cfg - retry_count) as budget eqn:Hb.
  revert retry_count Hb.
  induction budget as [budget IH] using lt_wf_ind. intros retry_count ->.
  set (P := booking_of (dict_get shift_details "title" (VStr "Unknown"))
                       (dict_get shift_details "date" (VStr "Unknown"))) in *.
  assert (Hrec : retry_count < MAX_RETRY_ATTEMPTS cfg →
                 books id P (book_shift shift_details (retry_count + 1))).
  { intros Hlt. eapply IH; [|reflexivity]. lia. }
  clear IH. rewrite book_shift_equation_1.
  apply books_try_except_Exception.
  - do 3 (apply books_then; intros _).
    apply (books_bind_gen _ returned_true).
    + apply books_try_except_Exception.
      * apply books_then. intros _. apply books_ret. reflexivity.
      * intros e. apply books_then. intros _.
        destruct (lt_dec retry_count (MAX_RETRY_ATTEMPTS cfg)) as [Hlt|];
          [|apply books_ret; reflexivity].
        do 2 (apply books_then; intros _).
        apply (books_bind_gen _ id); [exact (Hrec Hlt)| |].
        -- intros [|] Ha; [apply keeps_ret | discriminate].
        -- intros [|] Ha; [discriminate | apply books_ret; reflexivity].
    + intros [[|]|] Ha; try discriminate. apply keeps_ret.
    + intros [[|]|] Ha; [discriminate | apply books_ret; reflexivity |].
      apply books_then. intros _. apply books_check_success.
  - intros e. apply books_then. intros _.
    destruct (lt_dec retry_count (MAX_RETRY_ATTEMPTS cfg)) as [Hlt|];
      [|apply books_ret; reflexivity].
    do 2 (apply books_then; intros _).
    exact (Hrec Hlt).
Qed.

(** X6.  The record of a booking.  When book_shift returns True the one
    record it has appended holds the title and the date of the shift
    dictionary, each replaced by the text Unknown when the dictionary has
    no such key, and a reading of the clock. *)
Theorem book_shift_records_title_and_date
    (shift_details : gmap string pyval) (retry_count : nat) (s : state) :
  outcome_of (book_shift shift_details retry_count s) = Ret true →
  ∃ time,
    booked (final (book_shift shift_details retry_count s)) =
    booked s ++
      [{| b_title := default (VStr "Unknown") (shift_details !! "title");
          b_date := default (VStr "Unknown") (shift_details !! "date");
          b_time := time |}].
Proof.
  intros H.
  pose proof (accounts_book_shift shift_details retry_count s) as Ha.
  rewrite H in Ha. cbn [id] in Ha. destruct Ha as [b Hb].
  destruct (books_book_shift shift_details retry_count s true H eq_refl)
    as (b' & Hlast & Htitle & Hdate).
  rewrite Hb, last_snoc in Hlast. injection Hlast as <-.
  exists (b_time b). rewrite Hb. destruct b as [t d time].
  cbn [b_title b_date b_time] in *. unfold dict_get in *. subst. reflexivity.
Qed.

(** *** A booking is taken to have worked *)

Lemma returns_confirm_dialog : returns confirm_dialog.
Proof.
  unfold confirm_dialog. apply returns_try_except; [|intros; apply returns_log].
  apply (accounts_halts (λ _, false)). accounts_go.
Qed.

Lemma returns_append_booking (shift_title shift_date : pyval) :
  returns (append_booking shift_title shift_date).
Proof.
  intros s. unfold append_booking, bind, now.
  destruct (datetime_now (env s)) as [t w]. exists tt. reflexivity.
Qed.

Lemma returns_find_success_message (indicators : list string)
    (shift_title shift_date : pyval) :
  returns (find_success_message indicators shift_title shift_date).
Proof.
  induction indicators as [|indicator rest IH]; cbn [find_success_message];
    [apply returns_ret|].
  apply returns_bind.
  - apply returns_try_except; [|intros; apply returns_ret].
    apply halts_bind; [apply (accounts_halts _ _ (tidy_on_driver _))|]. intros.
    apply halts_bind; [apply (accounts_halts _ _ (tidy_selenium_call _))|]. intros.
    apply halts_bind; [apply (accounts_halts _ _ (tidy_log _ _))|]. intros.
    apply halts_bind; [apply (accounts_halts _ _ (accounts_append_booking _ _))|].
    intros. apply (accounts_halts _ _ (tidy_ret _)).
  - intros [|]; [apply returns_ret | exact IH].
Qed.

(** The protected part of check_success. *)
Definition verify (shift_title shift_date : pyval) : M bool :=
  returned ← find_success_message success_indicators shift_title shift_date;
  if returned then ret true
  else log INFO "Shift booking processed for";;
       append_booking shift_title shift_date;;
       ret true.

Lemma returns_verify (shift_title shift_date : pyval) :
  returns (verify shift_title shift_date).
Proof.
  unfold verify. apply returns_bind; [apply returns_find_success_message|].
  intros [|]; [apply returns_ret|].
  apply returns_bind; [apply returns_log|]. intros _.
  apply returns_bind; [apply returns_append_booking|]. intros _.
  apply returns_ret.
Qed.

Lemma yields_verify (shift_title shift_date : pyval) :
  yields (λ returned, returned = true) (verify shift_title shift_date).
Proof.
  unfold verify. apply yields_then. intros [|]; [apply yields_ret; reflexivity|].
  do 2 (apply yields_then; intros _). apply yields_ret. reflexivity.
Qed.

Definition is_unverified : event → bool := is_log "Could not verify booking status".

Lemma verify_is_quiet (shift_title shift_date : pyval) :
  excess is_unverified never 0 (verify shift_title shift_date).
Proof.
  assert (Happend : ∀ t d, excess is_unverified never 0 (append_booking t d))
    by (intros; unfold append_booking; excess_zero).
  assert (Hfind : ∀ indicators,
            excess is_unverified never 0
              (find_success_message indicators shift_title shift_date)).
  { induction indicators as [|indicator rest IH]; cbn [find_success_message];
      excess_zero. }
  unfold verify. excess_zero.
Qed.

Lemma check_success_is_verify (shift_title shift_date : pyval) (s : state) :
  check_success shift_title shift_date s = verify shift_title shift_date s.
Proof.
  unfold check_success. apply run_try_except_Exception_through.
  intros name. fold (verify shift_title shift_date).
  destruct (returns_verify shift_title shift_date s) as [a ->]. discriminate.
Qed.

Lemma check_success_returns_true (shift_title shift_date : pyval) (s : state) :
  outcome_of (check_success shift_title shift_date s) = Ret true.
Proof.
  rewrite check_success_is_verify.
  destruct (returns_verify shift_title shift_date s) as [a Ha].
  rewrite Ha. f_equal. exact (yields_verify _ _ _ _ Ha).
Qed.

(** The button step when the button is there and the click goes through. *)
Lemma click_book_button_lands (shift_details : gmap string pyval) (s : state)
    (e button : elem) (w1 w2 w3 : world) :
  shift_details !! "element" = Some (VElem e) →
  selenium elem (elem_find_element e XPATH book_button_xpath) (env s) = (Ok button, w1) →
  selenium unit (elem_click button) w1 = (Ok tt, w2) →
  time_sleep 2 w2 = (false, w3) →
  lands (click_book_button shift_details) s tt (State (self s) w3).
Proof.
  intros He Hfind Hclick Hsleep. unfold lands, click_book_button. rewrite He.
  rewrite (run_call_then _ _ _ _ _ Hfind).
  rewrite (run_call_then (elem_click button) _ (State (self s) w1) _ _ Hclick).
  rewrite run_log_then. cbn [self env].
  rewrite (run_sleep 2 (State (self s) w2) false w3 Hsleep).
  split; reflexivity.
Qed.

(** X7.  A booking is taken to have worked.  check_success returns True
    on every path, with or without a success message on the page, and its
    report that the booking could not be verified is never written.  So
    once the scroll script, the look-up of the book button and the click
    have gone through, book_shift returns True whatever the site shows
    afterwards. *)
Theorem booking_is_taken_to_have_worked :
  (∀ shift_title shift_date s,
     outcome_of (check_success shift_title shift_date s) = Ret true ∧
     count_events is_unverified (events (check_success shift_title shift_date s)) = 0) ∧
  (∀ shift_details retry_count s d e button w1 w2 w3 w4 w5,
     the_driver (self s) = Some d →
     selenium unit
       (driver_execute_script d "arguments[0].scrollIntoView(true);" []) (env s)
       = (Ok tt, w1) →
     time_sleep 1 w1 = (false, w2) →
     shift_details !! "element" = Some (VElem e) →
     selenium elem (elem_find_element e XPATH book_button_xpath) w2 = (Ok button, w3) →
     selenium unit (elem_click button) w3 = (Ok tt, w4) →
     time_sleep 2 w4 = (false, w5) →
     outcome_of (book_shift shift_details retry_count s) = Ret true).
Proof.
  split.
  { intros t d s. split; [apply check_success_returns_true|].
    rewrite check_success_is_verify.
    pose proof (verify_is_quiet t d s) as H. rewrite count_events_never in H. lia. }
  intros sd rc s d e button w1 w2 w3 w4 w5 Hd Hscroll Hsleep He Hfind Hclick Hsleep'.
  rewrite book_shift_equation_1.
  apply outcome_try_except_Exception_ret.
  rewrite run_log_then. cbn [outcome_of].
  rewrite (run_bind_ret _ _ _ _ _ _ (run_on_driver _ _ _ _ _ Hd Hscroll)).
  cbn [outcome_of].
  rewrite (run_bind_ret _ _ _ _ _ _
             (run_sleep 1 (State (self s) w1) false w2 Hsleep)).
  cbn [outcome_of].
  set (s2 := State (self s) w2).
  assert (Hbutton : lands
            (try_except_Exception
               (click_book_button sd;; ret None)
               (λ e,
                  log WARNING "Could not find book button";;
                  match lt_dec rc (MAX_RETRY_ATTEMPTS cfg) with
                  | left _ =>
                      log INFO "Retrying...";;
                      sleep (RETRY_DELAY_SECONDS cfg);;
                      v ← book_shift sd (rc + 1);
                      ret (Some v)
                  | right _ => ret (Some false)
                  end))
            s2 None (State (self s2) w5)).
  { apply lands_try_except_Exception.
    eapply lands_bind;
      [exact (click_book_button_lands sd s2 e button w3 w4 w5 He Hfind Hclick Hsleep')|].
    split; reflexivity. }
  rewrite (proj1 (bind_after_lands _ _ _ _ _ Hbutton)).
  destruct (returns_confirm_dialog (State (self s2) w5)) as [u Hu].
  rewrite (proj1 (bind_returns_inv _ _ _ _ Hu)).
  apply check_success_returns_true.
Qed.

(** *** Bookings that cannot happen *)

(** A click on an element that went through or not. *)
Definition is_click (ev : event) : bool :=
  match ev with
  | ECall c _ =>
      match c with
      | elem_click _ => true
      | _ => false
      end
  | _ => false
  end.

(** Counting in a bind whose second part only runs on some values. *)
Lemma excess_bind_yields {A B} (p q : event → bool) (P : A → Prop) (c c' : nat)
    (m : M A) (k : A → M B) :
  yields P m → excess p q c m → (∀ a, P a → excess p q c' (k a)) →
  excess p q (c + c') (bind m k).
Proof.
  intros Hy Hm Hk s. specialize (Hm s). specialize (Hy s). unfold bind.
  destruct (m s) as [[a|e|] t s1]; cbn [outcome_of events final] in *; [|lia..].
  specialize (Hk a (Hy a eq_refl) s1). rewrite !count_events_app. lia.
Qed.

(** The button step cannot be reached, or cannot go through and clicks
    nothing. *)
Definition button_out_of_reach (shift_details : gmap string pyval) : Prop :=
  scroll_script_fails ∨
  (yields (λ _, False) (click_book_button shift_details) ∧
   excess is_click never 0 (click_book_button shift_details)).

Lemma book_shift_never_clicks (shift_details : gmap string pyval) (retry_count : nat) :
  button_out_of_reach shift_details →
  excess is_click never 0 (book_shift shift_details retry_count).
Proof.
  intros Hout.
  remember (MAX_RETRY_ATTEMPTS cfg - retry_count) as budget eqn:Hb.
  revert retry_count Hb.
  induction budget as [budget IH] using lt_wf_ind. intros retry_count ->.
  assert (Hrec : retry_count < MAX_RETRY_ATTEMPTS cfg →
            excess is_click never 0 (λ s, book_shift shift_details (retry_count + 1) s)).
  { intros Hlt. eapply IH; [|reflexivity]. lia. }
  clear IH. rewrite book_shift_equation_1.
  assert (Hretry : excess is_click never 0
            (match lt_dec retry_count (MAX_RETRY_ATTEMPTS cfg) with
             | left _ =>
                 log INFO "Retrying... Attempt";;
                 sleep (RETRY_DELAY_SECONDS cfg);;
                 (λ s, book_shift shift_details (retry_count + 1) s)
             | right _ => ret false
             end)).
  { destruct (lt_dec retry_count (MAX_RETRY_ATTEMPTS cfg)) as [Hlt|]; excess_zero.
    exact (Hrec Hlt). }
  apply (excess_try_except_Exception _ _ 0 0); [|excess_zero].
  apply (excess_bind _ _ 0 0); [excess_zero|]. intros _.
  destruct Hout as [Hscroll | [Hbutton Hquiet]].
  - apply (excess_bind_yields _ _ (λ _, False) 0 0);
      [apply scroll_no_return, Hscroll | excess_zero | intros ? []].
  - apply (excess_bind _ _ 0 0); [excess_zero|]. intros _.
    apply (excess_bind _ _ 0 0); [excess_zero|]. intros _.
    apply (excess_bind_yields _ _ (λ returned, returned ≠ None) 0 0).
    + apply yields_try_except_Exception.
      * apply (yields_bind (λ _, False)); [exact Hbutton | intros ? []].
      * intros e. apply yields_then. intros _.
        destruct (lt_dec retry_count (MAX_RETRY_ATTEMPTS cfg));
          [|apply yields_ret; discriminate].
        do 3 (apply yields_then; intros). apply yields_ret. discriminate.
    + apply (excess_try_except_Exception _ _ 0 0); [excess_zero|]. intros e.
      apply (excess_bind _ _ 0 0); [excess_zero|]. intros _.
      destruct (lt_dec retry_count (MAX_RETRY_ATTEMPTS cfg)) as [Hlt|];
        [|excess_zero].
      do 2 (apply (excess_bind _ _ 0 0); [excess_zero|]; intros _).
      apply (excess_bind _ _ 0 0); [exact (Hrec Hlt) | excess_zero].
    + intros [v|] Hv; [excess_zero | destruct Hv; reflexivity].
Qed.

Lemma book_shift_false_without_button (shift_details : gmap string pyval)
    (retry_count : nat) :
  button_out_of_reach shift_details →
  yields (λ booked', booked' = false) (book_shift shift_details retry_count).
Proof.
  intros Hout.
  remember (MAX_RETRY_ATTEMPTS cfg - retry_count) as budget eqn:Hb.
  revert retry_count Hb.
  induction budget as [budget IH] using lt_wf_ind. intros retry_count ->.
  assert (Hrec : retry_count < MAX_RETRY_ATTEMPTS cfg →
            yields (λ booked', booked' = false)
              (λ s, book_shift shift_details (retry_count + 1) s)).
  { intros Hlt. eapply IH; [|reflexivity]. lia. }
  clear IH. rewrite book_shift_equation_1.
  apply yields_try_except_Exception.
  - apply yields_then. intros _.
    destruct Hout as [Hscroll | [Hbutton _]].
    + apply (yields_bind (λ _, False)); [|intros ? []].
      apply scroll_no_return, Hscroll.
    + do 2 (apply yields_then; intros _).
      apply (yields_bind (λ returned, returned = Some false)).
      * apply yields_try_except_Exception.
        -- apply (yields_bind (λ _, False)); [exact Hbutton | intros ? []].
        -- intros e. apply yields_then. intros _.
           destruct (lt_dec retry_count (MAX_RETRY_ATTEMPTS cfg)) as [Hlt|];
             [|apply yields_ret; reflexivity].
           do 2 (apply yields_then; intros _).
           apply (yields_bind _ _ _ _ (Hrec Hlt)).
           intros v ->. apply yields_ret. reflexivity.
      * intros returned ->. apply yields_ret. reflexivity.
  - intros e. apply yields_then. intros _.
    destruct (lt_dec retry_count (MAX_RETRY_ATTEMPTS cfg)) as [Hlt|];
      [|apply yields_ret; reflexivity].
    do 2 (apply yields_then; intros _). exact (Hrec Hlt).
Qed.

(** What book_shift does when the button step is out of reach. *)
Lemma book_shift_out_of_reach (shift_details : gmap string pyval)
    (retry_count : nat) (s : state) :
  button_out_of_reach shift_details →
  let r := book_shift shift_details retry_count s in
  (outcome_of r = Ret false ∨ outcome_of r = Raise KeyboardInterrupt) ∧
  booked (final r) = booked s ∧
  count_events is_click (events r) = 0.
Proof.
  intros Hout. cbv zeta.
  pose proof (book_shift_false_without_button shift_details retry_count Hout s) as Hy.
  pose proof (never_fails_book_shift shift_details retry_count s) as Hn.
  pose proof (accounts_book_shift shift_details retry_count s) as Ha.
  pose proof (book_shift_never_clicks shift_details retry_count Hout s) as Hc.
  rewrite count_events_never in Hc.
  split; [|split; [|lia]].
  - destruct (outcome_of (book_shift shift_details retry_count s))
      as [b|[name|]|].
    + left. f_equal. apply Hy. reflexivity.
    + destruct (Hn name). reflexivity.
    + right. reflexivity.
    + destruct Ha.
  - destruct (outcome_of (book_shift shift_details retry_count s))
      as [[|]|e|]; cbn [id] in Ha.
    + specialize (Hy true eq_refl). discriminate.
    + exact Ha.
    + apply Ha.
    + destruct Ha.
Qed.

(** X8.  While the scroll script raises, nothing is ever booked.
    book_shift calls the script with no element before it looks for the
    book button; when that call raises on every attempt, book_shift never
    clicks anything and returns False (unless interrupted), and
    [booked_shifts] stays as it is over a whole run of
    run_continuous_booking, and empty over a run of main. *)
Theorem nothing_is_booked_while_the_scroll_script_fails :
  scroll_script_fails →
  (∀ shift_details retry_count s,
     let r := book_shift shift_details retry_count s in
     (outcome_of r = Ret false ∨ outcome_of r = Raise KeyboardInterrupt) ∧
     booked (final r) = booked s ∧
     count_events is_click (events r) = 0) ∧
  (∀ fuel s, booked (final (run_continuous_booking fuel s)) = booked s) ∧
  (∀ fuel s, booked (final (main fuel s)) = []).
Proof.
  intros Hscroll.
  assert (Hbook : ∀ sd rc s,
            let r := book_shift sd rc s in
            (outcome_of r = Ret false ∨ outcome_of r = Raise KeyboardInterrupt) ∧
            booked (final r) = booked s ∧
            count_events is_click (events r) = 0).
  { intros sd rc s. apply book_shift_out_of_reach. left. exact Hscroll. }
  assert (Hrun : ∀ fuel, keeps booked_shifts (run_continuous_booking fuel)).
  { intros fuel. apply keeps_run_continuous_booking.
    - intros sd rc s. apply (Hbook sd rc s).
    - apply keeps_setup_driver. intros b d w. reflexivity. }
  split; [exact Hbook|]. split; [intros fuel s; apply Hrun|].
  intros fuel s. rewrite final_main. unfold booked. rewrite Hrun. reflexivity.
Qed.

(** X9.  A shift dictionary without an element.  When the dictionary
    holds no element under the key element, the button step raises before
    any call to the site on every attempt: book_shift clicks nothing,
    appends nothing and returns False (unless interrupted). *)
Theorem book_shift_without_element
    (shift_details : gmap string pyval) (retry_count : nat) (s : state) :
  (∀ e, shift_details !! "element" ≠ Some (VElem e)) →
  let r := book_shift shift_details retry_count s in
  (outcome_of r = Ret false ∨ outcome_of r = Raise KeyboardInterrupt) ∧
  booked (final r) = booked s ∧
  count_events is_click (events r) = 0.
Proof.
  intros He. apply book_shift_out_of_reach. right.
  unfold click_book_button.
  destruct (shift_details !! "element") as [[n|t|e]|].
  - split; [apply yields_raise | apply excess_raise].
  - split; [apply yields_raise | apply excess_raise].
  - destruct (He e). reflexivity.
  - split; [apply yields_raise | apply excess_raise].
Qed.

(** *** What a return of login stands for

    [leaves b flag P m]: when [m], run on the object [b], returns a value
    marked by [flag], the run has left an event that satisfies [P]. *)
Definition leaves (b : NHSShiftBooker) {A} (flag : A → bool) (P : event → Prop)
    (m : M A) : Prop :=
  ∀ s a, self s = b → outcome_of (m s) = Ret a → flag a = true →
         ∃ ev, ev ∈ events (m s) ∧ P ev.

Section Leaves.
Context (b : NHSShiftBooker) (P : event → Prop).
Context {A B : Type}.

Lemma leaves_never (flag : A → bool) (m : M A) :
  (∀ a, flag a = false) → leaves b flag P m.
Proof. intros Hf s a _ _ Ha. rewrite Hf in Ha. discriminate. Qed.

Lemma leaves_no_return (flag : A → bool) (m : M A) :
  yields (λ _, False) m → leaves b flag P m.
Proof. intros Hm s a _ Ho _. destruct (Hm s a Ho). Qed.

Lemma leaves_bind_gen (g : A → bool) (flag : B → bool) (m : M A) (k : A → M B) :
  leaves b g P m → keeps (λ b', b') m →
  (∀ a, g a = false → leaves b flag P (k a)) →
  leaves b flag P (bind m k).
Proof.
  intros Hm Hkeep Hk s v Hs. specialize (Hm s). specialize (Hkeep s).
  unfold bind.
  destruct (m s) as [[a|e|] t s1]; cbn [outcome_of events final] in *;
    [|discriminate..].
  intros Ho Hv. destruct (g a) eqn:Hg.
  - destruct (Hm a Hs eq_refl Hg) as (ev & Hev & HP).
    exists ev. split; [apply elem_of_app; left; exact Hev | exact HP].
  - destruct (Hk a Hg s1 v (eq_trans Hkeep Hs) Ho Hv) as (ev & Hev & HP).
    exists ev. split; [apply elem_of_app; right; exact Hev | exact HP].
Qed.

Lemma leaves_then (flag : B → bool) (m : M A) (k : A → M B) :
  keeps (λ b', b') m → (∀ a, leaves b flag P (k a)) → leaves b flag P (bind m k).
Proof.
  intros Hkeep Hk. apply (leaves_bind_gen (λ _, false)); [|exact Hkeep|auto].
  apply leaves_never. reflexivity.
Qed.

Lemma leaves_get_self (flag : B → bool) (k : NHSShiftBooker → M B) :
  leaves b flag P (k b) → leaves b flag P (bind get_self k).
Proof.
  intros Hk s v Hs. rewrite run_get_self_then, Hs. apply Hk, Hs.
Qed.

(** A call whose success is the event looked for. *)
Lemma leaves_call_then {T} (flag : B → bool) (c : call T) (k : T → M B) :
  (∀ v, P (ECall c (Ok v))) → leaves b flag P (bind (selenium_call c) k).
Proof.
  intros HP s v Hs. destruct (selenium T c (env s)) as [r w] eqn:Hc.
  rewrite (run_call_then c k s r w Hc).
  destruct r as [x|e]; cbn [outcome_of events]; [|discriminate].
  intros _ _. exists (ECall c (Ok x)).
  split; [apply elem_of_cons; left; reflexivity | apply HP].
Qed.

Lemma leaves_log_then (flag : B → bool) (lvl : level) (msg : string) (k : M B) :
  P (ELog lvl msg) → leaves b flag P (log lvl msg;; k).
Proof.
  intros HP s v Hs. rewrite run_log_then. cbn [outcome_of events].
  intros _ _. exists (ELog lvl msg).
  split; [apply elem_of_cons; left; reflexivity | exact HP].
Qed.

Lemma leaves_try_except_Exception (flag : A → bool) (body : M A)
    (handler : string → M A) :
  leaves b flag P body → keeps (λ b', b') body →
  (∀ e, leaves b flag P (handler e)) →
  leaves b flag P (try_except_Exception body handler).
Proof.
  intros Hb Hkeep Hh s a Hs. specialize (Hb s). specialize (Hkeep s).
  unfold try_except_Exception.
  destruct (body s) as [[a'|[name|]|] t s1]; cbn [outcome_of events final] in *;
    [apply Hb, Hs | | discriminate..].
  intros Ho Ha.
  destruct (Hh name s1 a (eq_trans Hkeep Hs) Ho Ha) as (ev & Hev & HP).
  exists ev. split; [apply elem_of_app; right; exact Hev | exact HP].
Qed.

End Leaves.

(** Text typed into a field. *)
Definition typed (keys : string) (ev : event) : Prop :=
  ∃ field, ev = ECall (elem_send_keys field keys) (Ok tt).

Lemma reraise_no_return {A} (lvl : level) (msg : string) (e : string) :
  yields (λ _ : A, False) (log lvl msg;; raise (Exception e)).
Proof. apply yields_then. intros _. apply yields_raise. Qed.

Lemma leaves_enter_email (b : NHSShiftBooker) :
  leaves b (λ _, true) (typed (email b)) enter_email.
Proof.
  unfold enter_email.
  apply leaves_then; [apply keeps_self_wait_until|]. intros email_field.
  apply leaves_then; [apply keeps_selenium_call|]. intros _.
  apply leaves_get_self. apply leaves_call_then.
  intros []. exists email_field. reflexivity.
Qed.

Lemma leaves_login_finish (b : NHSShiftBooker) (P : event → Prop) :
  (∀ ev, typed (password b) ev → P ev) ∨ P (ELog INFO "Login submitted") →
  leaves b (λ _, true) P login_finish.
Proof.
  intros HP. unfold login_finish. destruct HP as [HP | HP].
  - apply (leaves_bind_gen _ _ (λ _, true)); [| |discriminate].
    + apply leaves_try_except_Exception;
        [| |intros e; apply leaves_no_return, reraise_no_return].
      * apply leaves_then; [apply keeps_self_wait_until|]. intros password_field.
        apply leaves_then; [apply keeps_selenium_call|]. intros _.
        apply leaves_get_self. apply leaves_call_then.
        intros []. apply HP. exists password_field. reflexivity.
      * keeps_go.
    + keeps_go.
  - apply leaves_then; [keeps_go|]. intros _.
    apply (leaves_bind_gen _ _ (λ _, true)); [| |discriminate].
    + apply leaves_try_except_Exception;
        [| |intros e; apply leaves_no_return, reraise_no_return].
      * apply leaves_then; [apply keeps_self_wait_until|]. intros submit_button.
        apply leaves_then; [apply keeps_selenium_call|]. intros _.
        apply leaves_log_then. exact HP.
      * keeps_go.
    + keeps_go.
Qed.

Lemma leaves_weaken (b : NHSShiftBooker) {A} (flag : A → bool)
    (P Q : event → Prop) (m : M A) :
  (∀ ev, P ev → Q ev) → leaves b flag P m → leaves b flag Q m.
Proof.
  intros HPQ Hm s a Hs Ho Ha. destruct (Hm s a Hs Ho Ha) as (ev & Hev & HP).
  exists ev. split; [exact Hev | apply HPQ, HP].
Qed.

Definition is_Some_bool {A} (x : option A) : bool :=
  match x with
  | Some _ => true
  | None => false
  end.

Lemma leaves_login (b : NHSShiftBooker) (P : event → Prop) (retry_count : nat) :
  (∀ ev, typed (email b) ev → P ev) ∨ leaves b (λ _, true) P login_finish →
  leaves b (λ _, true) P (login retry_count).
Proof.
  intros HP.
  remember (MAX_RETRY_ATTEMPTS cfg - retry_count) as budget eqn:Hb.
  revert retry_count Hb.
  induction budget as [budget IH] using lt_wf_ind. intros retry_count ->.
  assert (Hrec : retry_count < MAX_RETRY_ATTEMPTS cfg →
            leaves b (λ _, true) P (login (retry_count + 1))).
  { intros Hlt. eapply IH; [|reflexivity]. lia. }
  clear IH. rewrite login_equation_1.
  pose proof (keeps_login_start (λ b', b')) as Kstart.
  pose proof (keeps_enter_email (λ b', b')) as Kemail.
  pose proof (keeps_login_finish (λ b', b')) as Kfinish.
  pose proof (keeps_login (λ b', b')) as Klogin.
  assert (Hhandler : ∀ (flag : option unit → bool) (e : string),
            leaves b flag P
              (log ERROR "Failed to find email field";;
               match lt_dec retry_count (MAX_RETRY_ATTEMPTS cfg) with
               | left _ =>
                   log INFO "Retrying login... Attempt";;
                   sleep (RETRY_DELAY_SECONDS cfg);;
                   on_driver driver_refresh;;
                   v ← login (retry_count + 1);
                   ret (Some v)
               | right _ => raise (Exception e)
               end)).
  { intros flag e. apply leaves_then; [apply keeps_log|]. intros _.
    destruct (lt_dec retry_count (MAX_RETRY_ATTEMPTS cfg)) as [Hlt|];
      [|apply leaves_no_return, yields_raise].
    apply leaves_then; [apply keeps_log|]. intros _.
    apply leaves_then; [apply keeps_sleep|]. intros _.
    apply leaves_then; [apply keeps_on_driver|]. intros _.
    apply (leaves_bind_gen _ _ (λ _, true));
      [exact (Hrec Hlt) | apply Klogin | discriminate]. }
  apply leaves_try_except_Exception;
    [| |intros e; apply leaves_no_return, reraise_no_return].
  - apply leaves_then; [exact Kstart|]. intros _.
    destruct HP as [Hemail | Hfinish].
    + apply (leaves_bind_gen _ _ (λ _, true)); [| |discriminate].
      * apply leaves_try_except_Exception; [| |apply Hhandler].
        -- apply (leaves_bind_gen _ _ (λ _, true));
             [|exact Kemail|discriminate].
           exact (leaves_weaken _ _ _ _ _ Hemail (leaves_enter_email b)).
        -- keeps_go.
      * keeps_go.
    + apply (leaves_bind_gen _ _ is_Some_bool).
      * apply leaves_try_except_Exception; [| |apply Hhandler].
        -- apply leaves_then; [exact Kemail|]. intros _.
           intros s a _ [= <-]. discriminate.
        -- keeps_go.
      * keeps_go.
      * intros [v|] Hv; [discriminate | exact Hfinish].
  - keeps_go.
Qed.

(** X10.  What a return of login stands for.  When login returns, the
    email and the password of the object have each been typed into a field
    by a call that went through, and the record of a submitted login has
    been written. *)
Theorem login_returns_after_submitting_the_credentials
    (retry_count : nat) (s : state) :
  outcome_of (login retry_count s) = Ret tt →
  (∃ field, ECall (elem_send_keys field (email (self s))) (Ok tt)
              ∈ events (login retry_count s)) ∧
  (∃ field, ECall (elem_send_keys field (password (self s))) (Ok tt)
              ∈ events (login retry_count s)) ∧
  ELog INFO "Login submitted" ∈ events (login retry_count s).
Proof.
  intros H. split; [|split].
  - destruct (leaves_login (self s) (typed (email (self s))) retry_count
                (or_introl (λ ev Hev, Hev)) s tt eq_refl H eq_refl)
      as (ev & Hev & field & ->).
    exists field. exact Hev.
  - destruct (leaves_login (self s) (typed (password (self s))) retry_count
                (or_intror (leaves_login_finish _ _ (or_introl (λ ev Hev, Hev))))
                s tt eq_refl H eq_refl)
      as (ev & Hev & field & ->).
    exists field. exact Hev.
  - destruct (leaves_login (self s) (λ ev, ev = ELog INFO "Login submitted")
                retry_count
                (or_intror (leaves_login_finish _ _ (or_intror eq_refl)))
                s tt eq_refl H eq_refl)
      as (ev & Hev & ->).
    exact Hev.
Qed.

(** *** How a run ends *)

Lemma run_for_each_log {Y} (l : list Y) (lvl : level) (msg : string) (s : state) :
  for_each l (λ _, log lvl msg) s =
  Result (Ret tt) (replicate (length l) (ELog lvl msg)) s.
Proof.
  induction l as [|y rest IH]; [reflexivity|].
  cbn [for_each length replicate]. rewrite run_log_then, IH. reflexivity.
Qed.

Lemma run_log_bookings (s : state) :
  log_bookings s =
  Result (Ret tt)
    (replicate (length (booked s)) (ELog INFO "booked: title on date")) s.
Proof. unfold log_bookings. rewrite run_get_self_then. apply run_for_each_log. Qed.

(** The [finally] clause after a handler [handler] that has run from
    [s1], following the events [t] of the protected part. *)
Definition finish (t : list event) (handler cleanup : M unit) (s1 : state)
  : result unit :=
  let h := handler s1 in
  match outcome_of h with
  | Running => Result Running (t ++ events h) (final h)
  | o =>
      let c := cleanup (final h) in
      Result (match outcome_of c with
              | Ret _ => o
              | Raise e => Raise e
              | Running => Running
              end)
             ((t ++ events h) ++ events c) (final c)
  end.

Lemma run_handled (session cleanup : M unit) (handler : exn → M unit)
    (s : state) (e : exn) :
  outcome_of (session s) = Raise e →
  try_finally (try_except session handler) cleanup s =
  finish (events (session s)) (handler e) cleanup (final (session s)).
Proof.
  intros H. unfold try_finally, try_except, finish.
  destruct (session s) as [o t s1]. cbn [outcome_of events final] in *. subst o.
  cbv zeta beta iota.
  destruct (handler e s1) as [[u|e'|] t' s2]; reflexivity.
Qed.

(** X11.  How a manual interrupt ends the run.  A KeyboardInterrupt that
    comes out of the session is handled: two records and one line per
    booked shift are written, the driver is closed, and
    run_continuous_booking returns normally.  A KeyboardInterrupt during
    the ten seconds before a restart is not handled: after the clean-up it
    leaves run_continuous_booking as an exception, and no statistics are
    written. *)
Theorem interrupt_ends_the_run (fuel : nat) (s : state) :
  let session := booking_session fuel s in
  let s1 := final session in
  (outcome_of session = Raise KeyboardInterrupt →
   run_continuous_booking (S fuel) s =
   Result (outcome_of (close s1))
     (events session
      ++ [ELog INFO "Stopping shift booker (Ctrl+C pressed)";
          ELog INFO "Final Statistics"]
      ++ replicate (length (booked s1)) (ELog INFO "booked: title on date")
      ++ events (close s1))
     (final (close s1))) ∧
  (∀ name w,
     outcome_of session = Raise (Exception name) →
     time_sleep 10 (env s1) = (true, w) →
     let s2 := State (self s1) w in
     run_continuous_booking (S fuel) s =
     Result (match outcome_of (close s2) with
             | Ret _ => Raise KeyboardInterrupt
             | o => o
             end)
       (events session
        ++ [ELog ERROR "Fatal error"; ELog ERROR "Attempting to restart...";
            ESleep 10 true]
        ++ events (close s2))
       (final (close s2))).
Proof.
  cbv zeta. split.
  - intros H. cbn [run_continuous_booking].
    rewrite (run_handled _ _ _ _ _ H). unfold finish.
    rewrite !run_log_then, run_log_bookings.
    cbn [outcome_of events final].
    destruct (close (final (booking_session fuel s))) as [[[]|e|] t s2];
      cbn [outcome_of events final]; rewrite <- !app_assoc; reflexivity.
  - intros name w H Hsleep. cbn [run_continuous_booking].
    rewrite (run_handled _ _ _ _ _ H). unfold finish.
    rewrite (handler_after_crash _ _ _ _ Hsleep).
    cbn [outcome_of events final].
    destruct (close _) as [[[]|e|] t s2];
      cbn [outcome_of events final]; rewrite <- !app_assoc; reflexivity.
Qed.

(** *** Which driver is quit *)

(** A call of [driver.quit()], answered or not. *)
Definition is_quit (ev : event) : bool :=
  match ev with
  | ECall c _ =>
      match c with
      | driver_quit _ => true
      | _ => false
      end
  | _ => false
  end.

(** [quitless m]: a run of [m] never calls [driver.quit()]. *)
Local Abbreviation quitless := (excess is_quit never 0).

(** Breaks a goal [quitless m] down along the structure of [m], with the
    facts at hand first. *)
Ltac quitless_go :=
  repeat first
    [ progress intros
    | assumption
    | match goal with
      | H : ∀ x, excess _ _ _ _ |- _ => apply H
      | H : ∀ x y, excess _ _ _ _ |- _ => apply H
      | H : ∀ x y z, excess _ _ _ _ |- _ => apply H
      end
    | apply excess_ret | apply excess_raise
    | apply excess_log; reflexivity
    | apply excess_sleep; intros []; reflexivity
    | apply excess_now | apply excess_get_self | apply excess_set_self
    | apply excess_self_driver
    | apply excess_selenium_call; intros [? | ?]; reflexivity
    | apply excess_on_driver; intros ? [? | ?]; reflexivity
    | apply excess_self_wait_until; intros ? ? [? | ?]; reflexivity
    | apply (excess_bind _ _ 0 0)
    | apply (excess_try_except _ _ 0 0)
    | apply (excess_try_except_Exception _ _ 0 0)
    | match goal with
      | |- excess _ _ _ (match ?x with _ => _ end) => destruct x
      end ].

Lemma quitless_setup_driver : quitless setup_driver.
Proof. unfold setup_driver. quitless_go. Qed.

Lemma quitless_login (retry_count : nat) : quitless (login retry_count).
Proof.
  assert (Hstart : quitless login_start) by (unfold login_start; quitless_go).
  assert (Hemail : quitless enter_email) by (unfold enter_email; quitless_go).
  assert (Hfinish : quitless login_finish) by (unfold login_finish; quitless_go).
  remember (MAX_RETRY_ATTEMPTS cfg - retry_count) as budget eqn:Hb.
  revert retry_count Hb.
  induction budget as [budget IH] using lt_wf_ind. intros retry_count ->.
  rewrite login_equation_1.
  apply (excess_try_except_Exception _ _ 0 0); [|quitless_go].
  apply (excess_bind _ _ 0 0); [exact Hstart|]. intros _.
  apply (excess_bind _ _ 0 0); [|intros [v|]; [apply excess_ret | exact Hfinish]].
  apply (excess_try_except_Exception _ _ 0 0).
  { apply (excess_bind _ _ 0 0); [exact Hemail | intros; apply excess_ret]. }
  intros e. apply (excess_bind _ _ 0 0); [quitless_go|]. intros _.
  destruct (lt_dec retry_count (MAX_RETRY_ATTEMPTS cfg)) as [Hlt|];
    [|apply excess_raise].
  apply (excess_bind _ _ 0 0); [quitless_go|]. intros _.
  apply (excess_bind _ _ 0 0); [quitless_go|]. intros _.
  apply (excess_bind _ _ 0 0); [quitless_go|]. intros _.
  apply (excess_bind _ _ 0 0); [|intros; apply excess_ret].
  eapply IH; [|reflexivity]. lia.
Qed.

Lemma quitless_click_first_link (xpaths : list string) :
  quitless (click_first_link xpaths).
Proof. induction xpaths as [|xpath rest IH]; cbn [click_first_link]; quitless_go. Qed.

Lemma quitless_navigate_to_shifts : quitless navigate_to_shifts.
Proof.
  unfold navigate_to_shifts. pose proof quitless_click_first_link. quitless_go.
Qed.

Lemma quitless_fill_field (xpath text done' failed : string) :
  quitless (fill_field xpath text done' failed).
Proof. unfold fill_field. quitless_go. Qed.

Lemma quitless_search_shifts (location shift_type : option string) :
  quitless (search_shifts location shift_type).
Proof. unfold search_shifts. pose proof quitless_fill_field. quitless_go. Qed.

Lemma quitless_find_shift_elements (sels : list string) (shift_elements : list elem) :
  quitless (find_shift_elements sels shift_elements).
Proof.
  revert shift_elements.
  induction sels as [|selector rest IH]; intros shift_elements;
    cbn [find_shift_elements]; quitless_go.
Qed.

Lemma quitless_read_field (shift : elem) (xpath key : string)
    (info : gmap string pyval) :
  quitless (read_field shift xpath key info).
Proof. unfold read_field. quitless_go. Qed.

Lemma quitless_shift_record (idx : nat) (shift : elem) :
  quitless (shift_record idx shift).
Proof. unfold shift_record. pose proof quitless_read_field. quitless_go. Qed.

Lemma quitless_scan_shifts (idx : nat) (shift_elements : list elem)
    (shifts : list (gmap string pyval)) :
  quitless (scan_shifts shift_record idx shift_elements shifts).
Proof.
  pose proof quitless_shift_record.
  revert idx shifts.
  induction shift_elements as [|shift rest IH]; intros idx shifts;
    cbn [scan_shifts]; quitless_go.
Qed.

Lemma quitless_get_available_shifts : quitless get_available_shifts.
Proof.
  unfold get_available_shifts, guarded_scan, scan_page.
  pose proof quitless_find_shift_elements. pose proof quitless_scan_shifts.
  quitless_go.
Qed.

Lemma quitless_append_booking (shift_title shift_date : pyval) :
  quitless (append_booking shift_title shift_date).
Proof. unfold append_booking. quitless_go. Qed.

Lemma quitless_find_success_message (indicators : list string)
    (shift_title shift_date : pyval) :
  quitless (find_success_message indicators shift_title shift_date).
Proof.
  pose proof quitless_append_booking.
  induction indicators as [|indicator rest IH]; cbn [find_success_message];
    quitless_go.
Qed.

Lemma quitless_check_success (shift_title shift_date : pyval) :
  quitless (check_success shift_title shift_date).
Proof.
  unfold check_success.
  pose proof quitless_append_booking. pose proof quitless_find_success_message.
  quitless_go.
Qed.

Lemma quitless_click_book_button (shift_details : gmap string pyval) :
  quitless (click_book_button shift_details).
Proof. unfold click_book_button. quitless_go. Qed.

Lemma quitless_confirm_dialog : quitless confirm_dialog.
Proof. unfold confirm_dialog. quitless_go. Qed.

Lemma quitless_book_shift (shift_details : gmap string pyval) (retry_count : nat) :
  quitless (book_shift shift_details retry_count).
Proof.
  remember (MAX_RETRY_ATTEMPTS cfg - retry_count) as budget eqn:Hb.
  revert retry_count Hb.
  induction budget as [budget IH] using lt_wf_ind. intros retry_count ->.
  assert (Hrec : retry_count < MAX_RETRY_ATTEMPTS cfg →
                 quitless (book_shift shift_details (retry_count + 1))).
  { intros Hlt. eapply IH; [|reflexivity]. lia. }
  clear IH. rewrite book_shift_equation_1.
  pose proof quitless_check_success. pose proof quitless_click_book_button.
  pose proof quitless_confirm_dialog.
  quitless_go.
Qed.

Lemma quitless_for_each {Y} (l : list Y) (body : Y → M unit) :
  (∀ y, quitless (body y)) → quitless (for_each l body).
Proof.
  intros Hbody. induction l as [|y rest IH]; cbn [for_each]; quitless_go.
Qed.

Lemma quitless_log_bookings : quitless log_bookings.
Proof.
  unfold log_bookings. apply (excess_bind _ _ 0 0); [apply excess_get_self|].
  intros b. apply quitless_for_each. quitless_go.
Qed.

Lemma quitless_book_all (shifts : list (gmap string pyval)) :
  quitless (book_all shifts).
Proof.
  unfold book_all. apply quitless_for_each. pose proof quitless_book_shift.
  quitless_go.
Qed.

Lemma quitless_search_and_book : quitless search_and_book.
Proof.
  unfold search_and_book.
  apply (excess_bind _ _ 0 0); [apply quitless_navigate_to_shifts|]. intros _.
  apply (excess_bind _ _ 0 0); [apply quitless_search_shifts|]. intros _.
  apply (excess_bind _ _ 0 0); [apply quitless_get_available_shifts|].
  intros shifts. apply (excess_bind _ _ 0 0).
  - destruct shifts as [|shift rest]; [quitless_go|].
    apply (excess_bind _ _ 0 0); [quitless_go|]. intros _.
    apply quitless_book_all.
  - intros _. do 2 (apply (excess_bind _ _ 0 0); [quitless_go|]; intros _).
    apply quitless_log_bookings.
Qed.

Lemma quitless_search_cycle : quitless search_cycle.
Proof. unfold search_cycle. pose proof quitless_search_and_book. quitless_go. Qed.

Lemma quitless_search_loop (fuel : nat) : quitless (search_loop fuel).
Proof.
  pose proof quitless_search_cycle.
  induction fuel as [|fuel IH]; cbn [search_loop].
  - intros s. reflexivity.
  - quitless_go.
Qed.

Lemma quitless_booking_session (fuel : nat) : quitless (booking_session fuel).
Proof.
  unfold booking_session.
  apply (excess_bind _ _ 0 0); [apply quitless_setup_driver|]. intros _.
  apply (excess_bind _ _ 0 0); [apply quitless_login|]. intros _.
  apply (excess_bind _ _ 0 0); [unfold startup_banner; quitless_go|]. intros _.
  apply quitless_search_loop.
Qed.

Lemma no_quit_among (t : list event) (d : driver) (rep : reply unit) :
  count_events is_quit t = 0 → ECall (driver_quit d) rep ∉ t.
Proof.
  induction t as [|ev t IH]; [intros _ H; inversion H|].
  rewrite count_events_cons. intros Hc H.
  apply elem_of_cons in H as [<- | H].
  - cbn [is_quit] in Hc. lia.
  - apply IH; [lia | exact H].
Qed.

(** [quits_current m]: every [driver.quit()] of a run of [m] is on the
    driver the object holds when the run is over. *)
Definition quits_current {A} (m : M A) : Prop :=
  ∀ s d rep,
    ECall (driver_quit d) rep ∈ events (m s) →
    the_driver (self (final (m s))) = Some d.

(** The events of a run that never quits hold no quit. *)
Lemma quitless_no_quit {A} (m : M A) (s : state) (d : driver) (rep : reply unit) :
  quitless m → ECall (driver_quit d) rep ∉ events (m s).
Proof.
  intros Hm. specialize (Hm s). rewrite count_events_never in Hm.
  apply no_quit_among. lia.
Qed.

Lemma quitless_quits_current {A} (m : M A) : quitless m → quits_current m.
Proof. intros Hm s d rep H. destruct (quitless_no_quit m s d rep Hm H). Qed.

Lemma quits_current_after {A B} (m : M A) (k : A → M B) :
  quitless m → (∀ a, quits_current (k a)) → quits_current (bind m k).
Proof.
  intros Hm Hk s d rep. pose proof (quitless_no_quit m s d rep Hm) as Hn.
  unfold bind.
  destruct (m s) as [[a|e|] t s1]; cbn [outcome_of events final] in *.
  - intros H. apply elem_of_app in H as [H | H]; [destruct (Hn H)|].
    exact (Hk a s1 d rep H).
  - intros H. destruct (Hn H).
  - intros H. destruct (Hn H).
Qed.

Lemma quits_current_try_except {A} (body : M A) (handler : exn → M A) :
  quitless body → (∀ e, quits_current (handler e)) →
  quits_current (try_except body handler).
Proof.
  intros Hb Hh s d rep. pose proof (quitless_no_quit body s d rep Hb) as Hn.
  unfold try_except.
  destruct (body s) as [[a|e|] t s1]; cbn [outcome_of events final] in *.
  - intros H. destruct (Hn H).
  - intros H. apply elem_of_app in H as [H | H]; [destruct (Hn H)|].
    exact (Hh e s1 d rep H).
  - intros H. destruct (Hn H).
Qed.

(** The driver a quit is made on. *)
Definition quit_target (ev : event) : option driver :=
  match ev with
  | ECall c _ =>
      match c with
      | driver_quit d => Some d
      | _ => None
      end
  | _ => None
  end.

(** What close does: nothing without a driver, one call with one. *)
Lemma run_close (s : state) :
  self (final (close s)) = self s ∧
  match the_driver (self s) with
  | Some d =>
      ∃ rep, events (close s) =
             ECall (driver_quit d) rep
             :: match rep with
                | Ok _ => [ELog INFO "WebDriver closed"]
                | Fail _ => []
                end
  | None => events (close s) = []
  end.
Proof.
  split; [apply (keeps_close (λ b, b))|].
  unfold close. rewrite run_get_self_then.
  destruct (the_driver (self s)) as [d|]; [|reflexivity].
  destruct (selenium unit (driver_quit d) (env s)) as [rep w] eqn:Hc.
  rewrite (run_call_then _ _ _ _ _ Hc). exists rep.
  destruct rep as [[]|e]; reflexivity.
Qed.

Lemma quits_current_try_finally_close {A} (body : M A) :
  quits_current body → quits_current (try_finally body close).
Proof.
  intros Hb s d rep. specialize (Hb s d rep). unfold try_finally.
  destruct (body s) as [o t s1]. cbn [outcome_of events final] in *.
  destruct (run_close s1) as [Hself Hevents].
  assert (Hclose : ECall (driver_quit d) rep ∈ t ++ events (close s1) →
                   the_driver (self (final (close s1))) = Some d).
  { rewrite Hself. intros H. apply elem_of_app in H as [H | H]; [exact (Hb H)|].
    destruct (the_driver (self s1)) as [d'|]; [|rewrite Hevents in H; inversion H].
    destruct Hevents as [rep' Hevents]. rewrite Hevents in H.
    apply elem_of_cons in H as [H | H].
    - apply (f_equal quit_target) in H. cbn [quit_target] in H. congruence.
    - destruct rep' as [[]|e]; [|inversion H].
      apply list_elem_of_singleton in H.
      apply (f_equal quit_target) in H. discriminate. }
  destruct o as [a|e|]; cbn [outcome_of events final]; [exact Hclose.. | exact Hb].
Qed.

Lemma quits_current_run_continuous_booking (fuel : nat) :
  quits_current (run_continuous_booking fuel).
Proof.
  induction fuel as [|fuel IH]; cbn [run_continuous_booking].
  { intros s d rep H. inversion H. }
  apply quits_current_try_finally_close.
  apply quits_current_try_except; [apply quitless_booking_session|].
  intros [name|].
  - apply quits_current_after; [quitless_go|]. intros _.
    apply quits_current_after; [quitless_go|]. intros _.
    apply quits_current_after; [quitless_go|]. intros _.
    exact IH.
  - apply quitless_quits_current.
    do 2 (apply (excess_bind _ _ 0 0); [quitless_go|]; intros _).
    apply quitless_log_bookings.
Qed.

(** X12.  Which driver is quit.  The session (driver set-up, login and
    the loop) never calls quit, so a restart replaces the driver of the
    object without quitting the one it had; and every quit of a run of
    run_continuous_booking is on the driver the object holds when the run
    is over. *)
Theorem quit_only_reaches_the_current_driver :
  (∀ fuel s, count_events is_quit (events (booking_session fuel s)) = 0) ∧
  (∀ fuel s d rep,
     ECall (driver_quit d) rep ∈ events (run_continuous_booking fuel s) →
     the_driver (self (final (run_continuous_booking fuel s))) = Some d).
Proof.
  split.
  - intros fuel s. pose proof (quitless_booking_session fuel s) as H.
    rewrite count_events_never in H. lia.
  - intros fuel. apply quits_current_run_continuous_booking.
Qed.

(** *** search_shifts *)

(** Text sent to a field, accepted or not. *)
Definition is_typing (ev : event) : bool :=
  match ev with
  | ECall c _ =>
      match c with
      | elem_send_keys _ _ => true
      | _ => false
      end
  | _ => false
  end.

Definition is_search_failure : event → bool := is_log "Shift search failed".

(** [ends_with ev m]: a run of [m] that returns has [ev] as its last
    event. *)
Definition ends_with {A} (ev : event) (m : M A) : Prop :=
  ∀ s a, outcome_of (m s) = Ret a → last (events (m s)) = Some ev.

Lemma ends_with_log (lvl : level) (msg : string) :
  ends_with (ELog lvl msg) (log lvl msg).
Proof. intros s a _. reflexivity. Qed.

Lemma ends_with_bind {A B} (ev : event) (m : M A) (k : A → M B) :
  (∀ a, ends_with ev (k a)) → ends_with ev (bind m k).
Proof.
  intros Hk s b. unfold bind.
  destruct (m s) as [[a|e|] t s1]; cbn [outcome_of events final];
    [|discriminate..].
  intros Ho. rewrite last_app, (Hk a s1 b Ho). reflexivity.
Qed.

Lemma excess_one_call (p q : event → bool) {T} (c : call T) :
  excess p q 1 (selenium_call c).
Proof.
  intros s. unfold selenium_call. destruct (selenium T c (env s)) as [r w].
  cbn [events]. rewrite !count_events_cons, !count_events_nil.
  destruct (p _), (q _); lia.
Qed.

Lemma fill_field_types_once (xpath text done' failed : string) :
  excess is_typing never 1 (fill_field xpath text done' failed).
Proof.
  unfold fill_field.
  apply (excess_try_except_Exception _ _ 1 0); [|excess_zero].
  apply (excess_bind _ _ 0 1); [excess_zero|]. intros field.
  apply (excess_bind _ _ 0 1); [excess_zero|]. intros _.
  apply (excess_bind _ _ 1 0); [apply excess_one_call | excess_zero].
Qed.

(** The protected part of search_shifts. *)
Definition search (location shift_type : option string) : M unit :=
  log INFO "Searching for shifts";;
  match truthy location with
  | Some l => fill_field location_field_xpath l
                "Entered location" "Could not enter location"
  | None => ret tt
  end;;
  match truthy shift_type with
  | Some t => fill_field type_field_xpath t
                "Entered shift type" "Could not enter shift type"
  | None => ret tt
  end;;
  try_except_Exception
    (search_button ← self_wait_until
       (element_to_be_clickable (XPATH, search_button_xpath));
     selenium_call (elem_click search_button);;
     log INFO "Search submitted";;
     sleep 4)
    (λ e, log WARNING "Could not find search button");;
  log INFO "Shift search completed".

Lemma never_fails_search (location shift_type : option string) :
  never_fails (search location shift_type).
Proof.
  assert (Hfill : ∀ xpath text done' failed,
            never_fails (fill_field xpath text done' failed))
    by (intros; unfold fill_field; auto with never_fails).
  unfold search.
  apply never_fails_bind; [apply never_fails_log|]. intros _.
  apply never_fails_bind;
    [destruct (truthy location); [apply Hfill | apply never_fails_ret]|].
  intros _.
  apply never_fails_bind;
    [destruct (truthy shift_type); [apply Hfill | apply never_fails_ret]|].
  intros _. auto with never_fails.
Qed.

Lemma search_shifts_is_search (location shift_type : option string) (s : state) :
  search_shifts location shift_type s = search location shift_type s.
Proof.
  unfold search_shifts. apply run_try_except_Exception_through.
  fold (search location shift_type). intros name.
  apply never_fails_search.
Qed.

(** How many fields a search may type into. *)
Definition given (text : option string) : nat :=
  match truthy text with
  | Some _ => 1
  | None => 0
  end.

Definition filters (location shift_type : option string) : nat :=
  given location + given shift_type.

Lemma search_types_per_filter (location shift_type : option string) :
  excess is_typing never (filters location shift_type) (search location shift_type).
Proof.
  unfold search, filters, given.
  apply (excess_bind _ _ 0 _); [excess_zero|]. intros _.
  apply excess_bind.
  { destruct (truthy location); [apply fill_field_types_once | excess_zero]. }
  intros _.
  apply (excess_weaken _ _ (match truthy shift_type with
                            | Some _ => 1
                            | None => 0
                            end + 0)); [|lia].
  apply excess_bind.
  { destruct (truthy shift_type); [apply fill_field_types_once | excess_zero]. }
  intros _. excess_zero.
Qed.

Lemma search_is_quiet (location shift_type : option string) :
  excess is_search_failure never 0 (search location shift_type).
Proof. unfold search, fill_field. excess_zero. Qed.

(** X13.  search_shifts only ever returns or is interrupted: a filter
    field that cannot be filled and a search button that cannot be found
    cost a warning each, the record that the search failed is never
    written, and a search that returns has written that it was completed.
    It types into one field at most for each of the two filters that is
    neither None nor empty. *)
Theorem search_shifts_reports_completion (location shift_type : option string)
    (s : state) :
  let r := search_shifts location shift_type s in
  (outcome_of r = Ret tt ∧
   last (events r) = Some (ELog INFO "Shift search completed")
   ∨ outcome_of r = Raise KeyboardInterrupt ∧ interrupted (events r)) ∧
  count_events is_search_failure (events r) = 0 ∧
  count_events is_typing (events r) ≤ filters location shift_type.
Proof.
  cbv zeta.
  pose proof (tidy_search_shifts location shift_type s) as Ht.
  pose proof (never_fails_search_shifts location shift_type s) as Hn.
  pose proof (search_is_quiet location shift_type s) as Hq.
  pose proof (search_types_per_filter location shift_type s) as Hc.
  assert (Hend : ends_with (ELog INFO "Shift search completed")
                   (search location shift_type)).
  { unfold search. do 4 (apply ends_with_bind; intros _). apply ends_with_log. }
  specialize (Hend s).
  rewrite <- search_shifts_is_search in Hq, Hc, Hend.
  rewrite count_events_never in Hq, Hc.
  split; [|split; lia].
  destruct (outcome_of (search_shifts location shift_type s)) as [[]|[name|]|].
  - left. split; [reflexivity | exact (Hend tt eq_refl)].
  - destruct (Hn name). reflexivity.
  - right. split; [reflexivity | apply Ht; reflexivity].
  - destruct Ht.
Qed.

(** *** Interrupts that are lost *)

Lemma returns_check_success (shift_title shift_date : pyval) :
  returns (check_success shift_title shift_date).
Proof.
  intros s. exists true. apply check_success_returns_true.
Qed.

(** X14.  Interrupts that are lost.  The link loop of navigate_to_shifts,
    the handling of the confirmation dialog and the check for a success
    message sit in bare except clauses, so they return whatever happens
    inside them: a KeyboardInterrupt raised there is swallowed like any
    other exception and the script goes on.  For the confirmation dialog:
    an interrupt while waiting for the button leaves one debug record and
    a normal return. *)
Theorem bare_excepts_swallow_interrupts :
  (∀ xpaths, returns (click_first_link xpaths)) ∧
  returns confirm_dialog ∧
  (∀ shift_title shift_date, returns (check_success shift_title shift_date)) ∧
  (∀ s d timeout w,
     the_wait (self s) = Some (d, timeout) →
     let waiting := wait_until d timeout
                      (element_to_be_clickable (XPATH, confirm_button_xpath)) in
     selenium elem waiting (env s) = (Fail KeyboardInterrupt, w) →
     confirm_dialog s =
     Result (Ret tt)
       [ECall waiting (Fail KeyboardInterrupt);
        ELog DEBUG "No confirmation dialog found"]
       (State (self s) w)).
Proof.
  split; [exact returns_click_first_link|].
  split; [exact returns_confirm_dialog|].
  split; [exact returns_check_success|].
  intros s d timeout w Hw waiting Hc. unfold confirm_dialog, try_except.
  cbv zeta.
  rewrite (run_bind_raise _ _ _ _ _ _ (run_self_wait_until _ _ _ _ _ _ Hw Hc)).
  reflexivity.
Qed.

(** *** Which step of login is retried *)

Definition is_login_retry : event → bool := is_log "Retrying login... Attempt".
Definition is_email_failure : event → bool := is_log "Failed to find email field".

(** A record that counts for [q] pays for one [p]-event of what follows. *)
Lemma excess_paid_log (p q : event → bool) {A} (c : nat) (lvl : level)
    (msg : string) (k : M A) :
  p (ELog lvl msg) = false → q (ELog lvl msg) = true →
  excess p q (S c) k → excess p q c (log lvl msg;; k).
Proof.
  intros Hp Hq Hk s. specialize (Hk s). rewrite run_log_then. cbn [events].
  rewrite !count_events_cons, Hp, Hq. lia.
Qed.

Lemma login_retries_follow_email_failures (retry_count : nat) :
  excess is_login_retry is_email_failure 0 (login retry_count).
Proof.
  assert (Hstart : excess is_login_retry is_email_failure 0 login_start)
    by (unfold login_start; excess_zero).
  assert (Hemail : excess is_login_retry is_email_failure 0 enter_email)
    by (unfold enter_email; excess_zero).
  assert (Hfinish : excess is_login_retry is_email_failure 0 login_finish)
    by (unfold login_finish; excess_zero).
  remember (MAX_RETRY_ATTEMPTS cfg - retry_count) as budget eqn:Hb.
  revert retry_count Hb.
  induction budget as [budget IH] using lt_wf_ind. intros retry_count ->.
  rewrite login_equation_1.
  apply (excess_try_except_Exception _ _ 0 0); [|excess_zero].
  apply (excess_bind _ _ 0 0); [exact Hstart|]. intros _.
  apply (excess_bind _ _ 0 0); [|intros [v|]; [apply excess_ret | exact Hfinish]].
  apply (excess_try_except_Exception _ _ 0 0).
  { apply (excess_bind _ _ 0 0); [exact Hemail | intros; apply excess_ret]. }
  intros e. apply excess_paid_log; [reflexivity..|].
  destruct (lt_dec retry_count (MAX_RETRY_ATTEMPTS cfg)) as [Hlt|];
    [|apply (excess_weaken _ _ 0); [apply excess_raise | lia]].
  apply (excess_bind _ _ 1 0); [apply excess_log_1|]. intros _.
  apply (excess_bind _ _ 0 0); [excess_zero|]. intros _.
  apply (excess_bind _ _ 0 0); [excess_zero|]. intros _.
  apply (excess_bind _ _ 0 0); [|intros; apply excess_ret].
  eapply IH; [|reflexivity]. lia.
Qed.

(** An attempt in which the email step goes through and a later step
    fails. *)
Lemma attempt_without_retry (start email finish : M unit)
    (retry : string → M (option unit)) (s : state) (e : exn) :
  outcome_of (start s) = Ret tt →
  let s1 := final (start s) in
  outcome_of (email s1) = Ret tt →
  let s2 := final (email s1) in
  outcome_of (finish s2) = Raise e →
  (start;;
   returned ← try_except_Exception (email;; ret None) retry;
   match returned with
   | Some v => ret v
   | None => finish
   end) s =
  Result (Raise e) (events (start s) ++ events (email s1) ++ events (finish s2))
         (final (finish s2)).
Proof.
  cbv zeta. unfold bind, try_except_Exception.
  destruct (start s) as [o1 t1 s1]. cbn [outcome_of events final].
  intros ->. cbv zeta beta iota.
  destruct (email s1) as [o2 t2 s2]. cbn [outcome_of events final].
  intros ->. cbn [outcome_of events final ret]. cbv zeta beta iota.
  destruct (finish s2) as [o3 t3 s3]. cbn [outcome_of events final].
  intros ->. cbn [outcome_of events final]. rewrite app_nil_r. reflexivity.
Qed.

(** The same inside the handler that reports the failure. *)
Lemma attempt_fails_late (start email finish : M unit)
    (retry : string → M (option unit)) (failed : string) (s : state) (e : exn) :
  outcome_of (start s) = Ret tt →
  outcome_of (email (final (start s))) = Ret tt →
  outcome_of (finish (final (email (final (start s))))) = Raise e →
  try_except_Exception
    (start;;
     returned ← try_except_Exception (email;; ret None) retry;
     match returned with
     | Some v => ret v
     | None => finish
     end)
    (λ e, log ERROR failed;; raise (Exception e)) s =
  Result (Raise e)
    (events (start s) ++ events (email (final (start s)))
     ++ events (finish (final (email (final (start s)))))
     ++ match e with
        | Exception _ => [ELog ERROR failed]
        | KeyboardInterrupt => []
        end)
    (final (finish (final (email (final (start s)))))).
Proof.
  intros H1 H2 H3. rewrite run_reraise.
  rewrite (attempt_without_retry start email finish retry s e H1 H2 H3).
  cbn [outcome_of events final].
  destruct e as [name|]; [rewrite <- app_assoc, <- app_assoc|rewrite app_nil_r];
    reflexivity.
Qed.

(** X15.  Only the email step of login is retried.  Every record of a
    retry follows a record that the email field was not found; and when
    the email step has gone through, an exception of the password step or
    of the submit step ends login at once, whatever retry_count is, with
    the events of that one attempt and, for an exception of class
    Exception, the record that the login failed. *)
Theorem only_the_email_step_is_retried :
  (∀ retry_count s,
     count_events is_login_retry (events (login retry_count s))
       ≤ count_events is_email_failure (events (login retry_count s))) ∧
  (∀ retry_count s e,
     outcome_of (login_start s) = Ret tt →
     let s1 := final (login_start s) in
     outcome_of (enter_email s1) = Ret tt →
     let s2 := final (enter_email s1) in
     outcome_of (login_finish s2) = Raise e →
     login retry_count s =
     Result (Raise e)
       (events (login_start s) ++ events (enter_email s1) ++ events (login_finish s2)
        ++ match e with
           | Exception _ => [ELog ERROR "Login failed"]
           | KeyboardInterrupt => []
           end)
       (final (login_finish s2))).
Proof.
  split.
  - intros retry_count s. apply (login_retries_follow_email_failures retry_count s).
  - intros retry_count s e H1 s1 H2 s2 H3. subst s1 s2.
    rewrite login_equation_1.
    apply attempt_fails_late; assumption.
Qed.

(** *** Before the driver is set up *)

(** The warning of a filter that search_shifts tried to fill in. *)
Definition filter_warning (text : option string) (warning : string) : list event :=
  match truthy text with
  | Some _ => [ELog WARNING warning]
  | None => []
  end.

(** X16.  The methods on an object without a driver, as it is before
    setup_driver: every use of the driver or of the wait is an
    AttributeError, and no call reaches the browser.  login and
    navigate_to_shifts raise it after their error record, login without a
    retry; search_shifts turns it into warnings and returns;
    get_available_shifts returns the empty list; close does nothing. *)
Theorem methods_before_setup_driver (s : state) :
  the_driver (self s) = None → the_wait (self s) = None →
  (∀ retry_count,
     login retry_count s =
     Result (Raise (Exception "AttributeError"))
       [ELog INFO "Starting login process..."; ELog ERROR "Login failed"] s) ∧
  navigate_to_shifts s =
    Result (Raise (Exception "AttributeError"))
      [ELog INFO "Navigating to available shifts...";
       ELog WARNING "Could not find shifts link, trying direct URL";
       ELog ERROR "Navigation to shifts failed"] s ∧
  (∀ location shift_type,
     search_shifts location shift_type s =
     Result (Ret tt)
       (ELog INFO "Searching for shifts"
        :: filter_warning location "Could not enter location"
        ++ filter_warning shift_type "Could not enter shift type"
        ++ [ELog WARNING "Could not find search button";
            ELog INFO "Shift search completed"]) s) ∧
  get_available_shifts s =
    Result (Ret [])
      [ELog INFO "Found shift elements"; ELog INFO "Found available shifts"] s ∧
  close s = Result (Ret tt) [] s.
Proof.
  destruct s as [[em pw hl dr wt bk] w]. cbn [self the_driver the_wait].
  intros -> ->.
  split; [|split; [|split; [|split]]].
  - intros retry_count. rewrite login_equation_1. vm_compute. reflexivity.
  - vm_compute. reflexivity.
  - intros location shift_type. unfold search_shifts, filter_warning.
    destruct (truthy location), (truthy shift_type); vm_compute; reflexivity.
  - vm_compute. reflexivity.
  - reflexivity.
Qed.

(** ** The fields of a scraped shift *)

(** What one guarded lookup stores: the text of the element found under
    [xpath] inside [shift], or the sentinel when the element is not found
    or its text cannot be read; with the world the lookup leaves. *)
Definition text_or_unknown (shift : elem) (xpath : string) (w : world)
  : string * world :=
  match selenium elem (elem_find_element shift XPATH xpath) w with
  | (Ok found, w1) =>
      match selenium string (elem_text found) w1 with
      | (Ok text, w2) => (text, w2)
      | (Fail _, w2) => ("Unknown", w2)
      end
  | (Fail _, w1) => ("Unknown", w1)
  end.

(** The record of the element [shift] at position [idx]: the five fields
    looked up one after the other, each under its own selector. *)
Definition scraped_record (idx : nat) (shift : elem) (w : world)
  : gmap string pyval * world :=
  let '(title, w) := text_or_unknown shift title_xpath w in
  let '(location, w) := text_or_unknown shift location_xpath w in
  let '(date, w) := text_or_unknown shift date_xpath w in
  let '(time, w) := text_or_unknown shift time_xpath w in
  let '(pay, w) := text_or_unknown shift pay_xpath w in
  (shift_dict idx shift title location date time pay, w).

(** The records of the elements of a page, in order, counting from [idx]. *)
Fixpoint scraped_records (idx : nat) (shift_elements : list elem) (w : world)
  : list (gmap string pyval) * world :=
  match shift_elements with
  | [] => ([], w)
  | shift :: rest =>
      let '(shift_info, w) := scraped_record idx shift w in
      let '(records, w) := scraped_records (S idx) rest w in
      (shift_info :: records, w)
  end.

Lemma read_field_stores (shift : elem) (xpath key : string)
    (info : gmap string pyval) (s : state) :
  lands (read_field shift xpath key info) s
    (<[key := VStr (text_or_unknown shift xpath (env s)).1]> info)
    (State (self s) (text_or_unknown shift xpath (env s)).2).
Proof.
  unfold text_or_unknown.
  destruct (selenium elem (elem_find_element shift XPATH xpath) (env s))
    as [[found|e] w1] eqn:Hf.
  - destruct (selenium string (elem_text found) w1) as [[text|e] w2] eqn:Ht.
    + unfold lands.
      rewrite (read_field_found _ _ key info _ _ _ _ _ Hf Ht).
      split; reflexivity.
    + unfold lands.
      rewrite (read_field_no_text _ _ key info _ _ _ _ _ Hf Ht).
      split; reflexivity.
  - unfold lands. rewrite (read_field_not_found _ _ key info _ _ _ Hf).
    split; reflexivity.
Qed.

Lemma shift_record_scrapes (idx : nat) (shift : elem) (s : state) :
  lands (shift_record idx shift) s
    (scraped_record idx shift (env s)).1
    (State (self s) (scraped_record idx shift (env s)).2).
Proof.
  unfold shift_record, scraped_record.
  apply (lands_bind _ _ s s _
           (<["element" := VElem shift]> (<["index" := VInt idx]> ∅)));
    [split; reflexivity|].
  pose proof (read_field_stores shift title_xpath "title"
                (<["element" := VElem shift]> (<["index" := VInt idx]> ∅)) s) as H1.
  destruct (text_or_unknown shift title_xpath (env s)) as [title w1].
  cbn [fst snd] in H1. eapply lands_bind; [exact H1|]. clear H1.
  pose proof (λ info, read_field_stores shift location_xpath "location" info
                        (State (self s) w1)) as H2.
  cbn [env self] in H2.
  destruct (text_or_unknown shift location_xpath w1) as [location w2].
  cbn [fst snd] in H2. eapply lands_bind; [apply H2|]. clear H2.
  pose proof (λ info, read_field_stores shift date_xpath "date" info
                        (State (self s) w2)) as H3.
  cbn [env self] in H3.
  destruct (text_or_unknown shift date_xpath w2) as [date w3].
  cbn [fst snd] in H3. eapply lands_bind; [apply H3|]. clear H3.
  pose proof (λ info, read_field_stores shift time_xpath "time" info
                        (State (self s) w3)) as H4.
  cbn [env self] in H4.
  destruct (text_or_unknown shift time_xpath w3) as [time w4].
  cbn [fst snd] in H4. eapply lands_bind; [apply H4|]. clear H4.
  pose proof (λ info, read_field_stores shift pay_xpath "pay" info
                        (State (self s) w4)) as H5.
  cbn [env self] in H5.
  destruct (text_or_unknown shift pay_xpath w4) as [pay w5].
  cbn [fst snd] in H5. eapply lands_bind; [apply H5|]. clear H5.
  split; reflexivity.
Qed.

Lemma scan_shifts_scrapes (shift_elements : list elem) :
  ∀ idx shifts s,
    lands (scan_shifts shift_record idx shift_elements shifts) s
      (shifts ++ (scraped_records idx shift_elements (env s)).1)
      (State (self s) (scraped_records idx shift_elements (env s)).2).
Proof.
  induction shift_elements as [|shift rest IH]; intros idx shifts s.
  { cbn [scan_shifts scraped_records fst snd]. rewrite app_nil_r.
    destruct s. split; reflexivity. }
  destruct (shift_record_scrapes idx shift s) as [Hinfo Hfinal].
  unfold lands.
  rewrite (scan_shifts_collects shift_record idx shift rest shifts s _ Hinfo).
  cbn [outcome_of final scraped_records]. rewrite Hfinal.
  destruct (scraped_record idx shift (env s)) as [shift_info w1].
  cbn [fst snd].
  destruct (IH (S idx) (shifts ++ [shift_info]) (State (self s) w1))
    as [Hscan Hend].
  rewrite Hscan, Hend. cbn [env self].
  destruct (scraped_records (S idx) rest w1) as [records w2].
  cbn [fst snd]. rewrite <- app_assoc. split; reflexivity.
Qed.

Lemma get_available_shifts_scrapes (s : state) :
  ∃ shift_elements,
    outcome_of (find_shift_elements selectors [] s) = Ret shift_elements ∧
    outcome_of (get_available_shifts s) =
      Ret (scraped_records 0 shift_elements
             (env (final (find_shift_elements selectors [] s)))).1.
Proof.
  destruct (returns_find_shift_elements selectors [] s) as [shift_elements Hels].
  exists shift_elements. split; [exact Hels|].
  destruct (scan_shifts_scrapes shift_elements 0 []
              (final (find_shift_elements selectors [] s))) as [Hscan _].
  unfold get_available_shifts, guarded_scan.
  apply outcome_try_except_Exception_ret. unfold scan_page.
  rewrite (proj1 (bind_returns_inv _ _ _ _ Hels)), run_log_then.
  cbn [outcome_of].
  rewrite (proj1 (bind_returns_inv _ _ _ _ Hscan)), run_log_then.
  reflexivity.
Qed.

(** C6.  Each of the five display fields of a scraped shift is the text of
    the element found under its selector, and the sentinel Unknown when
    the element is not found or its text cannot be read.  For one lookup:
    the three cases of read_field.  For one shift element: shift_record
    returns the record that holds, beside index and element, title,
    location, date, time and pay, looked up in that order under the
    selectors for title, location, date, time and pay.  For the page:
    get_available_shifts returns these records for the elements that the
    selector loop matched, in their order, so every record it returns has
    the five fields. *)
Theorem scraped_fields_default_to_unknown :
  (∀ shift xpath key info s found text w1 w2,
     selenium elem (elem_find_element shift XPATH xpath) (env s) = (Ok found, w1) →
     selenium string (elem_text found) w1 = (Ok text, w2) →
     outcome_of (read_field shift xpath key info s) = Ret (<[key := VStr text]> info)) ∧
  (∀ shift xpath key info s e w1,
     selenium elem (elem_find_element shift XPATH xpath) (env s) = (Fail e, w1) →
     outcome_of (read_field shift xpath key info s)
       = Ret (<[key := VStr "Unknown"]> info)) ∧
  (∀ shift xpath key info s found e w1 w2,
     selenium elem (elem_find_element shift XPATH xpath) (env s) = (Ok found, w1) →
     selenium string (elem_text found) w1 = (Fail e, w2) →
     outcome_of (read_field shift xpath key info s)
       = Ret (<[key := VStr "Unknown"]> info)) ∧
  (∀ idx shift s,
     ∃ title location date time pay,
       outcome_of (shift_record idx shift s)
         = Ret (shift_dict idx shift title location date time pay)) ∧
  (∀ s, ∃ shifts,
     outcome_of (get_available_shifts s) = Ret shifts ∧
     Forall has_display_fields shifts) ∧
  (∀ idx shift s,
     let '(title, w1) := text_or_unknown shift title_xpath (env s) in
     let '(location, w2) := text_or_unknown shift location_xpath w1 in
     let '(date, w3) := text_or_unknown shift date_xpath w2 in
     let '(time, w4) := text_or_unknown shift time_xpath w3 in
     let '(pay, w5) := text_or_unknown shift pay_xpath w4 in
     ∃ shift_info,
       outcome_of (shift_record idx shift s) = Ret shift_info ∧
       env (final (shift_record idx shift s)) = w5 ∧
       shift_info !! "index" = Some (VInt idx) ∧
       shift_info !! "element" = Some (VElem shift) ∧
       shift_info !! "title" = Some (VStr title) ∧
       shift_info !! "location" = Some (VStr location) ∧
       shift_info !! "date" = Some (VStr date) ∧
       shift_info !! "time" = Some (VStr time) ∧
       shift_info !! "pay" = Some (VStr pay)) ∧
  (∀ idx shift s,
     outcome_of (shift_record idx shift s)
       = Ret (scraped_record idx shift (env s)).1) ∧
  (∀ s, ∃ shift_elements,
     outcome_of (find_shift_elements selectors [] s) = Ret shift_elements ∧
     outcome_of (get_available_shifts s) =
       Ret (scraped_records 0 shift_elements
              (env (final (find_shift_elements selectors [] s)))).1).
Proof.
  split; [|split; [|split; [|split; [|split; [|split; [|split]]]]]].
  - intros * Hf Ht. rewrite (read_field_found _ _ _ _ _ _ _ _ _ Hf Ht). reflexivity.
  - intros * Hf. rewrite (read_field_not_found _ _ _ _ _ _ _ Hf). reflexivity.
  - intros * Hf Ht. rewrite (read_field_no_text _ _ _ _ _ _ _ _ _ Hf Ht). reflexivity.
  - intros idx shift s. destruct (returns_shift_record idx shift s) as [info Hr].
    destruct (yields_shift_record idx shift s info Hr)
      as (title & location & date & time & pay & ->).
    exists title, location, date, time, pay. exact Hr.
  - intros s. destruct (returns_get_available_shifts s) as [shifts Hr].
    exists shifts. split; [exact Hr|].
    exact (yields_get_available_shifts s shifts Hr).
  - intros idx shift s.
    destruct (shift_record_scrapes idx shift s) as [Ho Hf]. revert Ho Hf.
    unfold scraped_record.
    destruct (text_or_unknown shift title_xpath (env s)) as [title w1].
    destruct (text_or_unknown shift location_xpath w1) as [location w2].
    destruct (text_or_unknown shift date_xpath w2) as [date w3].
    destruct (text_or_unknown shift time_xpath w3) as [time w4].
    destruct (text_or_unknown shift pay_xpath w4) as [pay w5].
    cbn [fst snd]. intros Ho Hf.
    exists (shift_dict idx shift title location date time pay).
    split; [exact Ho|]. split; [rewrite Hf; reflexivity|].
    unfold shift_dict. repeat apply conj; simplify_map_eq; reflexivity.
  - intros idx shift s. apply shift_record_scrapes.
  - apply get_available_shifts_scrapes.
Qed.

(** ** The passes of the loop *)














End Booker.

Arguments State {world} _ _.
Arguments self {world} _.
Arguments env {world} _.
Arguments Result {world A} _ _ _.
Arguments outcome_of {world A} _.
Arguments events {world A} _.
Arguments final {world A} _.



(** ** Runs on concrete sites *)

(** What a site answers when a call goes through. *)
Definition answer {T} (c : call T) : T :=
  match c in call T return T with
  | ChromeDriverManager_install => "/usr/bin/chromedriver"
  | webdriver_Chrome _ _ => 1
  | driver_get _ _ => tt
  | driver_refresh _ => tt
  | driver_quit _ => tt
  | driver_find_elements _ _ _ => [7]
  | driver_find_element _ _ _ => 8
  | driver_execute_script _ _ _ => tt
  | switch_to_frame _ _ => tt
  | switch_to_default_content _ => tt
  | wait_until _ _ _ => 9
  | elem_find_element _ _ _ => 10
  | elem_click _ => tt
  | elem_clear _ => tt
  | elem_send_keys _ _ => tt
  | elem_text _ => "Night shift"
  end.

(** A site without a state of its own: the calls picked out by [fails]
    raise, all others go through. *)
Definition scripted_site (fails : ∀ T, call T → bool) :
    ∀ T, call T → unit → reply T * unit :=
  λ T c w, (if fails T c then Fail (Exception "WebDriverException")
            else Ok (answer c), w).

Definition helpful_site := scripted_site (λ _ _, false).
Definition dead_site := scripted_site (λ _ _, true).

Definition undisturbed : nat → unit → bool * unit := λ _ w, (false, w).
Definition fixed_clock : unit → string * unit := λ w, ("2024-01-01 00:00:00", w).

Definition sample_config : config :=
  {| NHS_EMAIL := "user@example.org"; NHS_PASSWORD := "secret";
     PREFERRED_LOCATION := "Worcester Royal Hospital";
     PREFERRED_SHIFT_TYPES := ["Healthcare Assistant"];
     SHIFT_TIME_START := "19:00"; SHIFT_TIME_END := "08:00";
     MAX_SHIFTS_TO_BOOK := 1; SEARCH_INTERVAL_MINUTES := 5;
     HEADLESS_MODE := false; MAX_RETRY_ATTEMPTS := 3;
     RETRY_DELAY_SECONDS := 5; ELEMENT_WAIT_TIME := 10 |}.

Definition fresh : @state unit :=
  State (init "user@example.org" "secret" false) tt.


(** The object once set-up and login have gone through on [helpful_site],
    with [l] booked so far. *)
Definition signed_in (l : list booking) : @state unit :=
  State {| email := "user@example.org"; password := "secret"; headless := false;
           the_driver := Some 1; the_wait := Some (1, 10); booked_shifts := l |} tt.



Section Helpful.

Let search := search_shifts helpful_site undisturbed.

(** The one shift [helpful_site] lists. *)
Definition listed_shift : gmap string pyval :=
  shift_dict 0 7 "Night shift" "Night shift" "Night shift" "Night shift" "Night shift".





End Helpful.

Section HelpfulRun.

Local Abbreviation cycle :=
  (search_cycle helpful_site undisturbed fixed_clock sample_config).
Local Abbreviation loop :=
  (search_loop helpful_site undisturbed fixed_clock sample_config).
Local Abbreviation session :=
  (booking_session helpful_site undisturbed fixed_clock sample_config).




End HelpfulRun.

(** ** The booking cap *)

Section Ignores.
Context {world : Type}.
Variable selenium : ∀ T, call T → world → reply T * world.
Variable time_sleep : nat → world → bool * world.
Variable datetime_now : world → string * world.
Variable cfg : config.
Variable cap : nat.





End Ignores.


(** ** The claims at work on concrete sites *)

(** A site whose login page has no email field. *)
Definition no_email_field : ∀ T, call T → bool :=
  λ T c,
    match c with
    | wait_until _ _ (presence_of_element_located (XPATH, xpath)) =>
        String.eqb xpath email_field_xpath
    | _ => false
    end.

(** A browser in which the scroll script raises, as it does when it is
    handed no element. *)
Definition no_scrolling : ∀ T, call T → bool :=
  λ T c,
    match c with
    | driver_execute_script _ _ _ => true
    | _ => false
    end.

Lemma retries_are_bounded_witness :
  (∃ e, outcome_of (login (scripted_site no_email_field) undisturbed sample_config
                      0 (signed_in [])) = Raise e) ∧
  (outcome_of (book_shift (scripted_site no_scrolling) undisturbed fixed_clock
                 sample_config listed_shift 0 (signed_in [])) = Ret false ∨
   outcome_of (book_shift (scripted_site no_scrolling) undisturbed fixed_clock
                 sample_config listed_shift 0 (signed_in []))
     = Raise KeyboardInterrupt).
Proof.
  split.
  - apply (proj1 (proj2 (retries_are_bounded (scripted_site no_email_field)
                           undisturbed fixed_clock sample_config))).
    intros d timeout w. exists (Exception "WebDriverException"). reflexivity.
  - apply (proj2 (proj2 (proj2 (retries_are_bounded (scripted_site no_scrolling)
                                  undisturbed fixed_clock sample_config)))).
    right. intros d w. exists (Exception "WebDriverException"). reflexivity.
Defined.

Lemma cycle_exception_is_caught_witness :
  outcome_of (search_and_book dead_site undisturbed fixed_clock sample_config
                (signed_in [])) = Raise (Exception "WebDriverException") ∧
  outcome_of (search_loop dead_site undisturbed fixed_clock sample_config 1
                (signed_in [])) = Running.
Proof.
  assert (H : outcome_of (search_and_book dead_site undisturbed fixed_clock
                            sample_config (signed_in []))
              = Raise (Exception "WebDriverException"))
    by (vm_compute; reflexivity).
  split; [exact H|].
  destruct (cycle_exception_is_caught dead_site undisturbed fixed_clock
              sample_config 0 (signed_in []) "WebDriverException" H)
    as (i & w & Hsleep & Hloop).
  cbv [undisturbed] in Hsleep. injection Hsleep as <- <-.
  cbv zeta iota in Hloop. rewrite Hloop. reflexivity.
Defined.

Lemma crash_restarts_the_session_witness :
  outcome_of (booking_session dead_site undisturbed fixed_clock sample_config 0 fresh)
    = Raise (Exception "WebDriverException") ∧
  (events (booking_session dead_site undisturbed fixed_clock sample_config 0 fresh)
   ++ [ELog ERROR "Fatal error"; ELog ERROR "Attempting to restart...";
       ESleep 10 false])
    `prefix_of`
    events (run_continuous_booking dead_site undisturbed fixed_clock sample_config
              1 fresh).
Proof.
  assert (H : outcome_of (booking_session dead_site undisturbed fixed_clock
                            sample_config 0 fresh)
              = Raise (Exception "WebDriverException"))
    by (vm_compute; reflexivity).
  split; [exact H|].
  destruct (crash_restarts_the_session dead_site undisturbed fixed_clock
              sample_config 0 fresh "WebDriverException" H)
    as [(i & w & Hsleep & Hrun) _].
  cbv [undisturbed] in Hsleep. injection Hsleep as <- <-.
  cbv zeta iota in Hrun. cbn [run_continuous_booking running events] in Hrun.
  rewrite app_nil_r in Hrun. exact Hrun.
Defined.

(** A page whose elements are found but cannot be read. *)
Definition no_text : ∀ T, call T → bool :=
  λ T c,
    match c with
    | elem_text _ => true
    | _ => false
    end.

Lemma scraped_fields_default_to_unknown_witness :
  outcome_of (read_field helpful_site 7 title_xpath "title" ∅ (signed_in []))
    = Ret (<["title" := VStr "Night shift"]> ∅) ∧
  outcome_of (read_field dead_site 7 title_xpath "title" ∅ (signed_in []))
    = Ret (<["title" := VStr "Unknown"]> ∅) ∧
  outcome_of (read_field (scripted_site no_text) 7 pay_xpath "pay" ∅ (signed_in []))
    = Ret (<["pay" := VStr "Unknown"]> ∅).
Proof.
  split; [|split].
  - apply (proj1 (scraped_fields_default_to_unknown helpful_site)
             7 title_xpath "title" ∅ (signed_in []) 10 "Night shift" tt tt);
      reflexivity.
  - apply (proj1 (proj2 (scraped_fields_default_to_unknown dead_site))
             7 title_xpath "title" ∅ (signed_in [])
             (Exception "WebDriverException") tt).
    reflexivity.
  - apply (proj1 (proj2 (proj2 (scraped_fields_default_to_unknown
                                  (scripted_site no_text))))
             7 pay_xpath "pay" ∅ (signed_in []) 10
             (Exception "WebDriverException") tt tt);
      reflexivity.
Defined.


(** A record builder that fails on every element. *)
Definition stale {world : Type} : nat → elem → @state world → result (gmap string pyval) :=
  λ _ _ s, Result (Raise (Exception "StaleElementReferenceException")) [] s.

Lemma get_available_shifts_never_raises_witness :
  scan_shifts stale 0 [7; 8] [] fresh =
    Result (outcome_of (scan_shifts stale 1 [8] [] fresh))
      ([] ++ ELog DEBUG "Could not parse shift"
          :: events (scan_shifts stale 1 [8] [] fresh))
      (final (scan_shifts stale 1 [8] [] fresh)) ∧
  outcome_of (guarded_scan (λ s, Result (Raise (Exception "NoSuchWindowException")) [] s)
                fresh)
    = Ret [].
Proof.
  split.
  - apply (proj1 (proj2 (get_available_shifts_never_raises helpful_site))
             stale 0 7 [8] [] fresh "StaleElementReferenceException").
    reflexivity.
  - apply (proj2 (proj2 (get_available_shifts_never_raises helpful_site))
             (λ s, Result (Raise (Exception "NoSuchWindowException")) [] s) fresh
             "NoSuchWindowException").
    reflexivity.
Defined.


(** ** The further properties on concrete sites *)

(** Whoever sits at the keyboard interrupts every sleep. *)
Definition impatient : nat → unit → bool * unit := λ _ w, (true, w).

(** A site on which every call is cut short by a KeyboardInterrupt. *)
Definition interrupting_site : ∀ T, call T → unit → reply T * unit :=
  λ T c w, (Fail KeyboardInterrupt, w).

(** A site that shows nothing after the click on the book button: no
    confirmation dialog and no message. *)
Definition silent_after_click : ∀ T, call T → bool :=
  λ T c,
    match c with
    | wait_until _ _ _ => true
    | driver_find_element _ _ _ => true
    | _ => false
    end.

(** A login page without a password field. *)
Definition no_password_field : ∀ T, call T → bool :=
  λ T c,
    match c with
    | wait_until _ _ (presence_of_element_located (XPATH, xpath)) =>
        String.eqb xpath password_field_xpath
    | _ => false
    end.

(** A shift dictionary with an element and nothing else. *)
Definition bare_shift : gmap string pyval := <["element" := VElem 7]> ∅.

Lemma navigate_to_shifts_fails_only_on_fallback_witness :
  outcome_of (click_first_link dead_site xpath_options (signed_in [])) = Ret false ∧
  last (events (navigate_to_shifts dead_site undisturbed (signed_in [])))
    = Some (ELog ERROR "Navigation to shifts failed") ∧
  ECall (driver_get 1 search_shifts_url) (Fail (Exception "WebDriverException"))
    ∈ events (navigate_to_shifts dead_site undisturbed (signed_in [])).
Proof.
  apply (navigate_to_shifts_fails_only_on_fallback dead_site undisturbed
           (signed_in []) "WebDriverException").
  vm_compute. reflexivity.
Defined.

Lemma only_navigation_fails_a_cycle_witness :
  outcome_of (navigate_to_shifts dead_site undisturbed (signed_in []))
    = Raise (Exception "WebDriverException") ∧
  events (search_and_book dead_site undisturbed fixed_clock sample_config
            (signed_in []))
    = events (navigate_to_shifts dead_site undisturbed (signed_in [])).
Proof.
  apply (proj2 (proj2 (proj2 (only_navigation_fails_a_cycle dead_site undisturbed
                                fixed_clock sample_config)))).
  vm_compute. reflexivity.
Defined.

Lemma book_shift_records_title_and_date_witness :
  ∃ time,
    booked (final (book_shift helpful_site undisturbed fixed_clock sample_config
                     bare_shift 0 (signed_in []))) =
    booked (signed_in []) ++
      [{| b_title := default (VStr "Unknown") (bare_shift !! "title");
          b_date := default (VStr "Unknown") (bare_shift !! "date");
          b_time := time |}].
Proof.
  apply book_shift_records_title_and_date. vm_compute. reflexivity.
Defined.

Lemma booking_is_taken_to_have_worked_witness :
  outcome_of (book_shift (scripted_site silent_after_click) undisturbed fixed_clock
                sample_config listed_shift 0 (signed_in [])) = Ret true.
Proof.
  apply (proj2 (booking_is_taken_to_have_worked (scripted_site silent_after_click)
                  undisturbed fixed_clock sample_config)
           listed_shift 0 (signed_in []) 1 7 10 tt tt tt tt tt);
    vm_compute; reflexivity.
Defined.

Lemma nothing_is_booked_while_the_scroll_script_fails_witness :
  booked (final (run_continuous_booking (scripted_site no_scrolling) undisturbed
                   fixed_clock sample_config 3 fresh)) = booked fresh.
Proof.
  apply (proj1 (proj2 (nothing_is_booked_while_the_scroll_script_fails
                         (scripted_site no_scrolling) undisturbed fixed_clock
                         sample_config
                         (λ d w, ex_intro _ (Exception "WebDriverException")
                                   eq_refl)))).
Defined.

Lemma book_shift_without_element_witness :
  (outcome_of (book_shift helpful_site undisturbed fixed_clock sample_config
                 ∅ 0 (signed_in [])) = Ret false ∨
   outcome_of (book_shift helpful_site undisturbed fixed_clock sample_config
                 ∅ 0 (signed_in [])) = Raise KeyboardInterrupt) ∧
  booked (final (book_shift helpful_site undisturbed fixed_clock sample_config
                   ∅ 0 (signed_in []))) = booked (signed_in []) ∧
  count_events is_click
    (events (book_shift helpful_site undisturbed fixed_clock sample_config
               ∅ 0 (signed_in []))) = 0.
Proof.
  apply (book_shift_without_element helpful_site undisturbed fixed_clock
           sample_config ∅ 0 (signed_in [])).
  intros e. rewrite lookup_empty. discriminate.
Defined.

Lemma login_returns_after_submitting_the_credentials_witness :
  (∃ field, ECall (elem_send_keys field (email (self (signed_in [])))) (Ok tt)
              ∈ events (login helpful_site undisturbed sample_config 0
                          (signed_in []))) ∧
  (∃ field, ECall (elem_send_keys field (password (self (signed_in [])))) (Ok tt)
              ∈ events (login helpful_site undisturbed sample_config 0
                          (signed_in []))) ∧
  ELog INFO "Login submitted"
    ∈ events (login helpful_site undisturbed sample_config 0 (signed_in [])).
Proof.
  apply (login_returns_after_submitting_the_credentials helpful_site undisturbed
           sample_config 0 (signed_in [])).
  vm_compute. reflexivity.
Defined.

Lemma interrupt_ends_the_run_witness :
  outcome_of (run_continuous_booking helpful_site impatient fixed_clock
                sample_config 1 fresh) = Ret tt ∧
  outcome_of (run_continuous_booking dead_site impatient fixed_clock
                sample_config 1 fresh) = Raise KeyboardInterrupt.
Proof.
  split.
  - rewrite (proj1 (interrupt_ends_the_run helpful_site impatient fixed_clock
                      sample_config 0 fresh));
      vm_compute; reflexivity.
  - rewrite (proj2 (interrupt_ends_the_run dead_site impatient fixed_clock
                      sample_config 0 fresh) "WebDriverException" tt);
      vm_compute; reflexivity.
Defined.

Lemma quit_only_reaches_the_current_driver_witness :
  the_driver (self (final (run_continuous_booking helpful_site impatient
                             fixed_clock sample_config 1 fresh))) = Some 1.
Proof.
  apply (proj2 (quit_only_reaches_the_current_driver helpful_site impatient
                  fixed_clock sample_config) 1 fresh 1 (Ok tt)).
  vm_compute.
  repeat first [apply list_elem_of_here | apply list_elem_of_further].
Defined.

Lemma bare_excepts_swallow_interrupts_witness :
  confirm_dialog interrupting_site undisturbed (signed_in []) =
  Result (Ret tt)
    [ECall (wait_until 1 10 (element_to_be_clickable (XPATH, confirm_button_xpath)))
       (Fail KeyboardInterrupt);
     ELog DEBUG "No confirmation dialog found"]
    (State (self (signed_in [])) tt).
Proof.
  apply (proj2 (proj2 (proj2 (bare_excepts_swallow_interrupts interrupting_site
                                undisturbed fixed_clock)))
           (signed_in []) 1 10 tt);
    reflexivity.
Defined.

Lemma only_the_email_step_is_retried_witness :
  outcome_of (login (scripted_site no_password_field) undisturbed sample_config 0
                (signed_in [])) = Raise (Exception "WebDriverException").
Proof.
  rewrite (proj2 (only_the_email_step_is_retried (scripted_site no_password_field)
                    undisturbed sample_config)
             0 (signed_in []) (Exception "WebDriverException"));
    [reflexivity | vm_compute; reflexivity..].
Defined.

Lemma methods_before_setup_driver_witness :
  login helpful_site undisturbed sample_config 0 fresh =
  Result (Raise (Exception "AttributeError"))
    [ELog INFO "Starting login process..."; ELog ERROR "Login failed"] fresh.
Proof.
  apply (proj1 (methods_before_setup_driver helpful_site undisturbed sample_config
                  fresh eq_refl eq_refl)).
Defined.



(** * The text of nhs_shift_booker.py

    The module does not get as far as running: its text is not Python.
    This part holds the text itself, line for line, and a scanner that
    follows Python's lexical rules for string literals, comments and
    brackets far enough to find the faults.  The scanner only ever
    reports what the Python tokenizer and parser reject as well: a closing
    bracket with nothing open, a short string left open at the end of its
    line, and a statement that consists of a name and a colon, where the
    name is none of else, try, except and finally. *)
Module PySyntax.
Import Stdlib.Strings.Ascii.

(** The double quote. *)
Definition dq : string := String (Ascii.ascii_of_nat 34) EmptyString.

(** A line given in pieces. *)
Definition py (pieces : list string) : string :=
  foldr String.append EmptyString pieces.

Inductive mode :=
| Code
| Short (quote : ascii)
| Long (quote : ascii).

Inductive fault :=
| Unmatched (closing : ascii)
| Mismatched (opening closing : ascii)
| UnterminatedString
| BareLabel (name : string).

Definition is_quote (c : ascii) : bool :=
  Ascii.eqb c (Ascii.ascii_of_nat 34) || Ascii.eqb c (Ascii.ascii_of_nat 39).

Definition backslash : ascii := Ascii.ascii_of_nat 92.

(** The closing bracket that belongs to an opening one. *)
Definition closer_of (c : ascii) : option ascii :=
  if Ascii.eqb c "("%char then Some ")"%char
  else if Ascii.eqb c "["%char then Some "]"%char
  else if Ascii.eqb c "{"%char then Some "}"%char
  else None.

Definition is_closer (c : ascii) : bool :=
  Ascii.eqb c ")"%char || Ascii.eqb c "]"%char || Ascii.eqb c "}"%char.

(** One physical line, from the mode and the open brackets it starts
    with to those it ends with. *)
Fixpoint scan_line (m : mode) (stack : list ascii) (line : string)
  : fault + mode * list ascii :=
  match line with
  | EmptyString =>
      match m with
      | Short _ => inl UnterminatedString
      | _ => inr (m, stack)
      end
  | String c rest =>
      match m with
      | Code =>
          if Ascii.eqb c "#"%char then inr (Code, stack)
          else if is_quote c then
            match rest with
            | String c1 (String c2 rest') =>
                if Ascii.eqb c1 c && Ascii.eqb c2 c then scan_line (Long c) stack rest'
                else scan_line (Short c) stack rest
            | _ => scan_line (Short c) stack rest
            end
          else if is_closer c then
            match stack with
            | [] => inl (Unmatched c)
            | expected :: stack' =>
                if Ascii.eqb expected c then scan_line Code stack' rest
                else inl (Mismatched expected c)
            end
          else
            match closer_of c with
            | Some closing => scan_line Code (closing :: stack) rest
            | None => scan_line Code stack rest
            end
      | Short q =>
          if Ascii.eqb c backslash then
            match rest with
            | String _ rest' => scan_line (Short q) stack rest'
            | EmptyString => inr (Short q, stack)
            end
          else if Ascii.eqb c q then scan_line Code stack rest
          else scan_line (Short q) stack rest
      | Long q =>
          if Ascii.eqb c backslash then
            match rest with
            | String _ rest' => scan_line (Long q) stack rest'
            | EmptyString => inr (Long q, stack)
            end
          else if Ascii.eqb c q then
            match rest with
            | String c1 (String c2 rest') =>
                if Ascii.eqb c1 q && Ascii.eqb c2 q then scan_line Code stack rest'
                else scan_line (Long q) stack rest
            | _ => scan_line (Long q) stack rest
            end
          else scan_line (Long q) stack rest
      end
  end.

Definition is_space (c : ascii) : bool := Ascii.eqb c " "%char.

Definition is_name_char (c : ascii) : bool :=
  let n := Ascii.nat_of_ascii c in
  (65 <=? n) && (n <=? 90) || (97 <=? n) && (n <=? 122) ||
  (48 <=? n) && (n <=? 57) || (n =? 95).

Fixpoint skip_spaces (line : string) : string :=
  match line with
  | String c rest => if is_space c then skip_spaces rest else line
  | EmptyString => EmptyString
  end.

(** The longest name at the start of [line], and what follows it. *)
Fixpoint take_name (line : string) : string * string :=
  match line with
  | String c rest =>
      if is_name_char c then
        let '(name, after) := take_name rest in (String c name, after)
      else (EmptyString, line)
  | EmptyString => (EmptyString, EmptyString)
  end.

(** Nothing but blanks or a comment. *)
Definition is_blank (line : string) : bool :=
  match skip_spaces line with
  | EmptyString => true
  | String c _ => Ascii.eqb c "#"%char
  end.

(** The names that open a block on their own. *)
Definition block_keywords : list string := ["else"; "try"; "except"; "finally"].

(** A statement that is a name and a colon and nothing else: the name,
    unless it is one of [block_keywords]. *)
Definition bare_label (line : string) : option string :=
  let '(name, after) := take_name (skip_spaces line) in
  match name, skip_spaces after with
  | String _ _, String c rest =>
      if Ascii.eqb c ":"%char && is_blank rest &&
         negb (existsb (String.eqb name) block_keywords)
      then Some name else None
  | _, _ => None
  end.

(** The lines from number [n] on; the result is the first fault with its
    line number, or the mode and brackets the text ends with. *)
Fixpoint scan_lines (n : nat) (m : mode) (stack : list ascii) (lines : list string)
  : nat * fault + mode * list ascii :=
  match lines with
  | [] => inr (m, stack)
  | line :: rest =>
      match m, stack, bare_label line with
      | Code, [], Some name => inl (n, BareLabel name)
      | _, _, _ =>
          match scan_line m stack line with
          | inl f => inl (n, f)
          | inr (m', stack') => scan_lines (S n) m' stack' rest
          end
      end
  end.

(** Lines 1 to 174: from the top of the module to the end of the XPath list
    of navigate_to_shifts. *)
Definition lines_1_174 : list string :=
  [py [dq; dq; dq];
   "NHS Professionals Automatic Shift Booker";
   "Customized for: Sanjay Jismon";
   "Location: Worcester Royal Hospital";
   "Shift Type: Healthcare Assistant (Night shifts 19:00 - 08:00)";
   EmptyString;
   "This script automates shift booking on the NHS Professionals platform using Selenium.";
   "It continuously searches for available shifts and books them automatically.";
   py [dq; dq; dq];
   EmptyString;
   "import time";
   "import logging";
   "from datetime import datetime";
   "from selenium import webdriver";
   "from selenium.webdriver.common.by import By";
   "from selenium.webdriver.support.ui import WebDriverWait";
   "from selenium.webdriver.support import expected_conditions as EC";
   "from selenium.webdriver.chrome.service import Service";
   "from selenium.webdriver.common.keys import Keys";
   "from webdriver_manager.chrome import ChromeDriverManager";
   "from config import (";
   "    NHS_EMAIL, NHS_PASSWORD, PREFERRED_LOCATION, PREFERRED_SHIFT_TYPES,";
   "    SHIFT_TIME_START, SHIFT_TIME_END, MAX_SHIFTS_TO_BOOK,";
   "    SEARCH_INTERVAL_MINUTES, HEADLESS_MODE, MAX_RETRY_ATTEMPTS,";
   "    RETRY_DELAY_SECONDS, ELEMENT_WAIT_TIME";
   ")";
   EmptyString;
   "# Configure logging";
   "logging.basicConfig(";
   "    level=logging.INFO,";
   "    format='%(asctime)s - %(levelname)s - %(message)s',";
   "    handlers=[";
   "        logging.FileHandler('nhs_shift_booker.log'),";
   "        logging.StreamHandler()";
   "    ]";
   ")";
   "logger = logging.getLogger(__name__)";
   EmptyString;
   EmptyString;
   "class NHSShiftBooker:";
   "    def __init__(self, email, password, headless=False):";
   py ["        "; dq; dq; dq];
   "        Initialize the NHS Shift Booker";
   "        ";
   "        Args:";
   "            email (str): Your NHS Professionals email";
   "            password (str): Your NHS Professionals password";
   "            headless (bool): Run browser in headless mode";
   py ["        "; dq; dq; dq];
   "        self.email = email";
   "        self.password = password";
   "        self.headless = headless";
   "        self.driver = None";
   "        self.wait = None";
   "        self.booked_shifts = []";
   "        ";
   "    def setup_driver(self):";
   py ["        "; dq; dq; dq; "Initialize the Chrome WebDriver"; dq; dq; dq];
   "        try:";
   "            options = webdriver.ChromeOptions()";
   "            if self.headless:";
   "                options.add_argument('--headless')";
   "            options.add_argument('--no-sandbox')";
   "            options.add_argument('--disable-dev-shm-usage')";
   "            options.add_argument('--disable-blink-features=AutomationControlled')";
   "            options.add_argument('--start-maximized')";
   "            options.add_argument('user-agent=Mozilla/5.0 (Windows NT 10.0; Win64; x64) AppleWebKit/537.36')";
   py ["            options.add_experimental_option("; dq; "excludeSwitches"; dq; ", ["; dq; "enable-automation"; dq; "])"];
   "            options.add_experimental_option('useAutomationExtension', False)";
   "            ";
   "            service = Service(ChromeDriverManager().install())";
   "            self.driver = webdriver.Chrome(service=service, options=options)";
   "            self.wait = WebDriverWait(self.driver, ELEMENT_WAIT_TIME)";
   py ["            logger.info("; dq; "✅ WebDriver initialized successfully"; dq; ")"];
   "        except Exception as e:";
   py ["            logger.error(f"; dq; "❌ Failed to initialize WebDriver: {e}"; dq; ")"];
   "            raise";
   EmptyString;
   "    def login(self, retry_count=0):";
   py ["        "; dq; dq; dq; "Login to NHS Professionals with retry logic"; dq; dq; dq];
   "        try:";
   py ["            logger.info("; dq; "🔐 Starting login process..."; dq; ")"];
   py ["            self.driver.get("; dq; "https://www.nhsprofessionals.nhs.uk/"; dq; ")"];
   "            time.sleep(3)";
   "            ";
   "            # Look for login button";
   "            try:";
   "                login_button = self.wait.until(";
   py ["                    EC.element_to_be_clickable((By.XPATH, "; dq; "//a[contains(text(), 'Log in')] | //button[contains(text(), 'Log in')]"; dq; "))"];
   "                )";
   "                login_button.click()";
   py ["                logger.info("; dq; "✓ Clicked login button"; dq; ")"];
   "                time.sleep(2)";
   "            except:";
   py ["                logger.warning("; dq; "Login button not found, might already be on login page"; dq; ")"];
   "            ";
   "            # Switch to login frame if exists";
   "            try:";
   py ["                iframes = self.driver.find_elements(By.TAG_NAME, "; dq; "iframe"; dq; ")"];
   "                if iframes:";
   "                    self.driver.switch_to.frame(iframes[0])";
   py ["                    logger.info("; dq; "✓ Switched to login iframe"; dq; ")"];
   "                    time.sleep(1)";
   "            except Exception as e:";
   py ["                logger.debug(f"; dq; "No iframe found: {e}"; dq; ")"];
   "            ";
   "            # Enter email";
   "            try:";
   "                email_field = self.wait.until(";
   py ["                    EC.presence_of_element_located((By.XPATH, "; dq; "//input[@id='username'] | //input[@name='email'] | //input[@type='email']"; dq; "))"];
   "                )";
   "                email_field.clear()";
   "                email_field.send_keys(self.email)";
   py ["                logger.info("; dq; "✓ Email entered"; dq; ")"];
   "                time.sleep(1)";
   "            except Exception as e:";
   py ["                logger.error(f"; dq; "❌ Failed to find email field: {e}"; dq; ")"];
   "                if retry_count < MAX_RETRY_ATTEMPTS:";
   py ["                    logger.info(f"; dq; "Retrying login... Attempt {retry_count + 1}"; dq; ")"];
   "                    time.sleep(RETRY_DELAY_SECONDS)";
   "                    self.driver.refresh()";
   "                    return self.login(retry_count + 1)";
   "                raise";
   "            ";
   "            # Enter password";
   "            try:";
   "                password_field = self.wait.until(";
   py ["                    EC.presence_of_element_located((By.XPATH, "; dq; "//input[@id='password'] | //input[@name='password'] | //input[@type='password']"; dq; "))"];
   "                )";
   "                password_field.clear()";
   "                password_field.send_keys(self.password)";
   py ["                logger.info("; dq; "✓ Password entered"; dq; ")"];
   "                time.sleep(1)";
   "            except Exception as e:";
   py ["                logger.error(f"; dq; "❌ Failed to find password field: {e}"; dq; ")"];
   "                raise";
   "            ";
   "            # Click login button";
   "            try:";
   "                submit_button = self.wait.until(";
   py ["                    EC.element_to_be_clickable((By.XPATH, "; dq; "//button[@id='kc-login'] | //button[contains(@type, 'submit')] | //input[@value='Log in']"; dq; "))"];
   "                )";
   "                submit_button.click()";
   py ["                logger.info("; dq; "✓ Login submitted"; dq; ")"];
   "                time.sleep(5)";
   "            except Exception as e:";
   py ["                logger.error(f"; dq; "❌ Failed to find submit button: {e}"; dq; ")"];
   "                raise";
   "            ";
   "            # Check if login was successful";
   "            try:";
   "                self.driver.switch_to.default_content()";
   "            except:";
   "                pass";
   "            ";
   "            time.sleep(3)";
   py ["            logger.info("; dq; "✅ Login successful"; dq; ")"];
   "            ";
   "        except Exception as e:";
   py ["            logger.error(f"; dq; "❌ Login failed: {e}"; dq; ")"];
   "            raise";
   EmptyString;
   "    def navigate_to_shifts(self):";
   py ["        "; dq; dq; dq; "Navigate to available shifts"; dq; dq; dq];
   "        try:";
   py ["            logger.info("; dq; "🔍 Navigating to available shifts..."; dq; ")"];
   "            ";
   "            # Try multiple ways to find shifts/find work link";
   "            xpath_options = [";
   py ["                "; dq; "//a[contains(text(), 'Find work')]"; dq; ","];
   py ["                "; dq; "//a[contains(text(), 'Shifts')]"; dq; ","];
   py ["                "; dq; "//a[contains(text(), 'Available shifts')]"; dq; ","];
   py ["                "; dq; "//nav//a[contains(text(), 'Work')"; dq; "]"];
   "            ]"].

(** Lines 200 to 206: the head of search_shifts. *)
Definition lines_200_206 : list string :=
  ["    def search_shifts(self, location=None, shift_type=None):";
   py ["        "; dq; dq; dq; "Search for available shifts with filters"; dq; dq; dq];
   "        ";
   "        Args:";
   "            location (str): Location/area";
   "            shift_type (str): Type of shift";
   py ["        "; dq; dq; dq]].

(** Lines 252 to 257: the head of get_available_shifts. *)
Definition lines_252_257 : list string :=
  ["    def get_available_shifts(self):";
   py ["        "; dq; dq; dq; "Get list of available shifts matching criteria"; dq; dq; dq];
   "        ";
   "        Returns:";
   "            list: List of shift details";
   py ["        "; dq; dq; dq]].

(** Lines 336 to 345: the head of book_shift. *)
Definition lines_336_345 : list string :=
  ["    def book_shift(self, shift_details, retry_count=0):";
   py ["        "; dq; dq; dq; "Book a specific shift with retry logic"; dq; dq; dq];
   "        ";
   "        Args:";
   "            shift_details (dict): Shift details dictionary";
   "            retry_count (int): Current retry attempt";
   "            ";
   "        Returns:";
   "            bool: True if booking successful, False otherwise";
   py ["        "; dq; dq; dq]].

Lemma scan_lines_app (pre post : list string) :
  ∀ n m stack,
    scan_lines n m stack (pre ++ post) =
    match scan_lines n m stack pre with
    | inl f => inl f
    | inr (m', stack') => scan_lines (n + length pre) m' stack' post
    end.
Proof.
  induction pre as [|line pre IH]; intros n m stack.
  { cbn [app scan_lines length]. rewrite Nat.add_0_r. reflexivity. }
  cbn [app scan_lines length].
  destruct m, stack, (bare_label line); try reflexivity;
    destruct (scan_line _ _ line) as [f|[m' stack']]; try reflexivity;
    rewrite IH, Nat.add_succ_r; reflexivity.
Qed.

(** The first fault in a module's text.  Python compiles the text of a
    module as a whole before it runs any of it, so a fault anywhere is a
    SyntaxError raised by the import, and no def of the module is ever
    executed. *)
Definition first_fault (text : list string) : option (nat * fault) :=
  match scan_lines 1 Code [] text with
  | inl f => Some f
  | inr _ => None
  end.

Lemma first_fault_app (pre post : list string) (f : nat * fault) :
  first_fault pre = Some f → first_fault (pre ++ post) = Some f.
Proof.
  unfold first_fault. rewrite scan_lines_app.
  destruct (scan_lines 1 Code [] pre) as [f'|[m stack]]; [|discriminate].
  intros [= ->]. reflexivity.
Qed.

(** C1.  The text of the module is not Python.  In navigate_to_shifts the
    list of XPath candidates is open after line 172 and closed by the end
    of line 173, inside its last item, so the closing bracket that is all
    of line 174 has nothing to close: whatever follows line 174, the first
    fault of the module is that bracket, and the import stops there.  The
    heads of search_shifts, get_available_shifts and book_shift, each read
    from its def line, break off at a documentation line that stands as
    code, outside every string: Args at line 203, Returns at line 255,
    Args at line 339 and, past it, Returns at line 343. *)
Theorem module_text_is_not_python :
  scan_lines 1 Code [] (take 172 lines_1_174) = inr (Code, ["]"%char]) ∧
  scan_lines 1 Code [] (take 173 lines_1_174) = inr (Code, []) ∧
  lines_1_174 !! 173 = Some "            ]" ∧
  (∀ rest, first_fault (lines_1_174 ++ rest) = Some (174, Unmatched "]"%char)) ∧
  scan_lines 200 Code [] lines_200_206 = inl (203, BareLabel "Args") ∧
  scan_lines 252 Code [] lines_252_257 = inl (255, BareLabel "Returns") ∧
  scan_lines 336 Code [] lines_336_345 = inl (339, BareLabel "Args") ∧
  scan_lines 340 Code [] (drop 4 lines_336_345) = inl (343, BareLabel "Returns").
Proof.
  split; [vm_compute; reflexivity|].
  split; [vm_compute; reflexivity|].
  split; [vm_compute; reflexivity|].
  split; [intros rest; apply first_fault_app; vm_compute; reflexivity|].
  repeat split; vm_compute; reflexivity.
Qed.

End PySyntax.
